(** * The robot orchestrator and its controller link

    A shallow embedding of [usb_interface_upd.py] (the serial link to the
    motor controller) and [week8modded.py] (the [RaspberryPi] orchestrator
    and its workers), with the properties of the command pipeline, the
    acknowledgment worker, the app ingestion and the reconnection
    supervisor.

    Python objects that several workers share (the manager's events, lock,
    queues and dicts, the link's [state_queue] and the serial port) are
    fields of one [State]; a worker's loop body is a program of the monad
    [M] over that state, and the workers interleave pass by pass. *)

From stdpp Require Import gmap strings list pretty.
From Stdlib Require Import ZArith Strings.Byte Strings.Ascii.

Set Warnings "-register-all".

(** ** Python values *)

Module Py.

(** The exception classes the two modules can meet.  [SerialException]
    derives from [OSError]; [JSONDecodeError] and [UnicodeDecodeError]
    derive from [ValueError]; [Empty] is [queue.Empty];
    [KeyboardInterrupt] is the only one outside [Exception]. *)
Inductive exn :=
| OSError | SerialException
| ValueError | JSONDecodeError | UnicodeDecodeError
| KeyError | TypeError | NameError | AttributeError
| RuntimeError | AssertionError | Empty
| KeyboardInterrupt.

Definition is_OSError (e : exn) : bool :=
  match e with OSError | SerialException => true | _ => false end.

Definition is_Exception (e : exn) : bool :=
  match e with KeyboardInterrupt => false | _ => true end.

Definition is_Empty (e : exn) : bool :=
  match e with Empty => true | _ => false end.

(** A [str] is a [string] whose characters are the code points below 256. *)

(** [str.isspace] on those code points: TAB..CR, FS..US, space, NEL, NBSP. *)
Definition is_space (a : ascii) : bool :=
  let n := N_of_ascii a in
  ((9 <=? n) && (n <=? 13) || (28 <=? n) && (n <=? 32)
   || (n =? 133) || (n =? 160))%N.

Fixpoint lstrip (s : string) : string :=
  match s with
  | EmptyString => EmptyString
  | String a s' => if is_space a then lstrip s' else s
  end.

Definition rstrip (s : string) : string :=
  String.rev (lstrip (String.rev s)).

(** [s.strip()] *)
Definition strip (s : string) : string := rstrip (lstrip s).

(** [s.startswith(prefixes)] for a tuple of prefixes. *)
Definition startswith (s : string) (prefixes : list string) : bool :=
  existsb (fun p => String.prefix p s) prefixes.

Definition spaces (n : nat) : string :=
  String.string_of_list_ascii (replicate n " "%char).

(** [s.ljust(width)]: pads on the right, never cuts. *)
Definition ljust (width : nat) (s : string) : string :=
  s +:+ spaces (width - String.length s).

Definition is_ascii (a : ascii) : bool := (N_of_ascii a <? 128)%N.

(** UTF-8 of one code point below 256: one byte below 128, else two. *)
Definition utf8 (a : ascii) : list byte :=
  let n := N_of_ascii a in
  if (n <? 128)%N then [byte_of_ascii a]
  else [byte_of_ascii (ascii_of_N (192 + N.shiftr n 6));
        byte_of_ascii (ascii_of_N (128 + N.land n 63))].

(** [s.encode()] *)
Definition encode (s : string) : list byte :=
  flat_map utf8 (String.list_ascii_of_string s).

(** What [json.loads] can return; a dict keeps its items in order, the
    first item of a key being the one a lookup sees. *)
Inductive json :=
| JNull
| JBool (b : bool)
| JNum (z : Z)
| JStr (s : string)
| JList (l : list json)
| JDict (items : list (string * json)).

Fixpoint assoc (k : string) (items : list (string * json)) : option json :=
  match items with
  | [] => None
  | (k', v) :: rest => if String.eqb k k' then Some v else assoc k rest
  end.

(** [v[k]] for a [str] key [k]. *)
Definition getitem (v : json) (k : string) : exn + json :=
  match v with
  | JDict items =>
      match assoc k items with Some x => inr x | None => inl KeyError end
  | _ => inl TypeError
  end.

(** [v == s] for a [str] literal [s]. *)
Definition eq_str (v : json) (s : string) : bool :=
  match v with JStr t => String.eqb t s | _ => false end.

(** The values a state tuple carries.  A float is held as the text
    [str()] gives for it. *)
Inductive pyval :=
| PStr (s : string)
| PInt (z : Z)
| PFloat (repr : string).

(** [f"{v}"] *)
Definition format (v : pyval) : string :=
  match v with
  | PStr s => s
  | PInt z => pretty z
  | PFloat r => r
  end.

End Py.
Import Py.


(** ** The data of the two modules *)

(** The tuple [(state, motor_speed, param, scale)] that
    [queue_state_transition] puts on [state_queue]. *)
Record StateCommand := mkStateCommand {
  sc_state : pyval;
  sc_motor_speed : pyval;
  sc_param : pyval;
  sc_scale : pyval
}.

(** [AndroidMessage(cat, value)]; [value] is a [str] or a dict. *)
Record AndroidMessage := mkAndroidMessage {
  msg_cat : string;
  msg_value : json
}.

(** [PiAction(cat, value)] *)
Record PiAction := mkPiAction {
  pa_cat : string;
  pa_value : json
}.

(** An item of [path_queue]: the dict with keys [x], [y] and [d]. *)
Record Location := mkLocation {
  loc_x : json;
  loc_y : json;
  loc_d : json
}.

(** The targets [start] and [reconnect_android] give to [Process]. *)
Inductive worker :=
| RecvAndroid | RecvStm32 | AndroidSender | CommandFollower | RpiAction.

Global Instance worker_eq_dec : EqDecision worker.
Proof. solve_decision. Defined.

(** A [Process] object: created, started, sent a signal ([kill] or
    [terminate]) and not yet joined, or gone. *)
Inductive pstatus := Initial | Running | Signalled | Exited.

Global Instance pstatus_eq_dec : EqDecision pstatus.
Proof. solve_decision. Defined.

Record proc := mkProc {
  target : worker;
  status : pstatus
}.

(** The three blocking calls of [command_follower]'s loop body. *)
Inductive follower_pc :=
| AtGet
| AtWait (command : string)
| AtAcquire (command : string).

Inductive event_name := AndroidDroppedEv | UnpauseEv | StopThreadEv.

Inductive level := Debug | Info | Warning | Error.

(** The operations on shared objects and on the outside world. *)
Inductive op :=
| Acquire | Release
| EventSet (e : event_name) | EventClear (e : event_name)
| AndroidPut (m : AndroidMessage) | AndroidGet (m : AndroidMessage)
| ActionPut (a : PiAction) | ActionGet (a : PiAction)
| CommandPut (c : string) | CommandGet (c : string)
| PathPut (l : Location) | PathGet (l : Location)
| StatePut (c : StateCommand) | StateGet (c : StateCommand)
| LinkLine (message : string)
| StmLine (message : string)
| SerWrite (frame : list byte)
| SerClose
| Log (l : level) (text : string)
| Print (text : string)
| ProcNew (pid : nat) (t : worker)
| ProcStart (pid : nat)
| ProcKill (pid : nat) | ProcTerminate (pid : nat) | ProcJoin (pid : nat)
| LinkConnect | LinkDisconnect | LinkSend (m : AndroidMessage).

(** ** The state *)

Record State := mkState {
  (* self.android_dropped, self.unpause: manager events *)
  android_dropped : bool;
  unpause : bool;
  (* usb_interface_upd.stop_thread *)
  stop_thread : bool;
  (* self.movement_lock: [true] while held *)
  movement_lock : bool;
  (* the manager queues, oldest item first *)
  android_queue : list AndroidMessage;
  rpi_action_queue : list PiAction;
  command_queue : list string;
  path_queue : list Location;
  (* usb_interface_upd.state_queue *)
  state_queue : list StateCommand;
  (* self.rs_flag, self.obstacles, self.current_location *)
  rs_flag : bool;
  obstacles : list (json * json);
  current_location : gmap string json;
  (* the processes created so far; a process is named by its index *)
  procs : list proc;
  (* self.proc_...: the handles the main process keeps *)
  proc_recv_android : option nat;
  proc_recv_stm32 : option nat;
  proc_android_sender : option nat;
  proc_command_follower : option nat;
  proc_rpi_action : option nat;
  (* the main process has not left start() *)
  main_running : bool;
  (* usb_interface_upd.thread has not ended *)
  thread_running : bool;
  (* where command_follower stands *)
  follower_at : follower_pc;
  (* every operation on a shared object so far, oldest first *)
  trace : list op
}.

(** Field updates. *)
Definition set_android_dropped (v : bool) (s : State) : State :=
  mkState v (unpause s) (stop_thread s) (movement_lock s) (android_queue s)
    (rpi_action_queue s) (command_queue s) (path_queue s) (state_queue s)
    (rs_flag s) (obstacles s) (current_location s) (procs s)
    (proc_recv_android s) (proc_recv_stm32 s) (proc_android_sender s)
    (proc_command_follower s) (proc_rpi_action s) (main_running s)
    (thread_running s) (follower_at s) (trace s).
Definition set_unpause (v : bool) (s : State) : State :=
  mkState (android_dropped s) v (stop_thread s) (movement_lock s)
    (android_queue s) (rpi_action_queue s) (command_queue s) (path_queue s)
    (state_queue s) (rs_flag s) (obstacles s) (current_location s) (procs s)
    (proc_recv_android s) (proc_recv_stm32 s) (proc_android_sender s)
    (proc_command_follower s) (proc_rpi_action s) (main_running s)
    (thread_running s) (follower_at s) (trace s).
Definition set_stop_thread (v : bool) (s : State) : State :=
  mkState (android_dropped s) (unpause s) v (movement_lock s)
    (android_queue s) (rpi_action_queue s) (command_queue s) (path_queue s)
    (state_queue s) (rs_flag s) (obstacles s) (current_location s) (procs s)
    (proc_recv_android s) (proc_recv_stm32 s) (proc_android_sender s)
    (proc_command_follower s) (proc_rpi_action s) (main_running s)
    (thread_running s) (follower_at s) (trace s).
Definition set_movement_lock (v : bool) (s : State) : State :=
  mkState (android_dropped s) (unpause s) (stop_thread s) v
    (android_queue s) (rpi_action_queue s) (command_queue s) (path_queue s)
    (state_queue s) (rs_flag s) (obstacles s) (current_location s) (procs s)
    (proc_recv_android s) (proc_recv_stm32 s) (proc_android_sender s)
    (proc_command_follower s) (proc_rpi_action s) (main_running s)
    (thread_running s) (follower_at s) (trace s).
Definition set_android_queue (v : list AndroidMessage) (s : State) : State :=
  mkState (android_dropped s) (unpause s) (stop_thread s) (movement_lock s)
    v (rpi_action_queue s) (command_queue s) (path_queue s) (state_queue s)
    (rs_flag s) (obstacles s) (current_location s) (procs s)
    (proc_recv_android s) (proc_recv_stm32 s) (proc_android_sender s)
    (proc_command_follower s) (proc_rpi_action s) (main_running s)
    (thread_running s) (follower_at s) (trace s).
Definition set_rpi_action_queue (v : list PiAction) (s : State) : State :=
  mkState (android_dropped s) (unpause s) (stop_thread s) (movement_lock s)
    (android_queue s) v (command_queue s) (path_queue s) (state_queue s)
    (rs_flag s) (obstacles s) (current_location s) (procs s)
    (proc_recv_android s) (proc_recv_stm32 s) (proc_android_sender s)
    (proc_command_follower s) (proc_rpi_action s) (main_running s)
    (thread_running s) (follower_at s) (trace s).
Definition set_command_queue (v : list string) (s : State) : State :=
  mkState (android_dropped s) (unpause s) (stop_thread s) (movement_lock s)
    (android_queue s) (rpi_action_queue s) v (path_queue s) (state_queue s)
    (rs_flag s) (obstacles s) (current_location s) (procs s)
    (proc_recv_android s) (proc_recv_stm32 s) (proc_android_sender s)
    (proc_command_follower s) (proc_rpi_action s) (main_running s)
    (thread_running s) (follower_at s) (trace s).
Definition set_path_queue (v : list Location) (s : State) : State :=
  mkState (android_dropped s) (unpause s) (stop_thread s) (movement_lock s)
    (android_queue s) (rpi_action_queue s) (command_queue s) v
    (state_queue s) (rs_flag s) (obstacles s) (current_location s) (procs s)
    (proc_recv_android s) (proc_recv_stm32 s) (proc_android_sender s)
    (proc_command_follower s) (proc_rpi_action s) (main_running s)
    (thread_running s) (follower_at s) (trace s).
Definition set_state_queue (v : list StateCommand) (s : State) : State :=
  mkState (android_dropped s) (unpause s) (stop_thread s) (movement_lock s)
    (android_queue s) (rpi_action_queue s) (command_queue s) (path_queue s)
    v (rs_flag s) (obstacles s) (current_location s) (procs s)
    (proc_recv_android s) (proc_recv_stm32 s) (proc_android_sender s)
    (proc_command_follower s) (proc_rpi_action s) (main_running s)
    (thread_running s) (follower_at s) (trace s).
Definition set_rs_flag (v : bool) (s : State) : State :=
  mkState (android_dropped s) (unpause s) (stop_thread s) (movement_lock s)
    (android_queue s) (rpi_action_queue s) (command_queue s) (path_queue s)
    (state_queue s) v (obstacles s) (current_location s) (procs s)
    (proc_recv_android s) (proc_recv_stm32 s) (proc_android_sender s)
    (proc_command_follower s) (proc_rpi_action s) (main_running s)
    (thread_running s) (follower_at s) (trace s).
Definition set_obstacles (v : list (json * json)) (s : State) : State :=
  mkState (android_dropped s) (unpause s) (stop_thread s) (movement_lock s)
    (android_queue s) (rpi_action_queue s) (command_queue s) (path_queue s)
    (state_queue s) (rs_flag s) v (current_location s) (procs s)
    (proc_recv_android s) (proc_recv_stm32 s) (proc_android_sender s)
    (proc_command_follower s) (proc_rpi_action s) (main_running s)
    (thread_running s) (follower_at s) (trace s).
Definition set_current_location (v : gmap string json) (s : State) : State :=
  mkState (android_dropped s) (unpause s) (stop_thread s) (movement_lock s)
    (android_queue s) (rpi_action_queue s) (command_queue s) (path_queue s)
    (state_queue s) (rs_flag s) (obstacles s) v (procs s)
    (proc_recv_android s) (proc_recv_stm32 s) (proc_android_sender s)
    (proc_command_follower s) (proc_rpi_action s) (main_running s)
    (thread_running s) (follower_at s) (trace s).
Definition set_procs (v : list proc) (s : State) : State :=
  mkState (android_dropped s) (unpause s) (stop_thread s) (movement_lock s)
    (android_queue s) (rpi_action_queue s) (command_queue s) (path_queue s)
    (state_queue s) (rs_flag s) (obstacles s) (current_location s) v
    (proc_recv_android s) (proc_recv_stm32 s) (proc_android_sender s)
    (proc_command_follower s) (proc_rpi_action s) (main_running s)
    (thread_running s) (follower_at s) (trace s).
Definition set_proc_recv_android (v : option nat) (s : State) : State :=
  mkState (android_dropped s) (unpause s) (stop_thread s) (movement_lock s)
    (android_queue s) (rpi_action_queue s) (command_queue s) (path_queue s)
    (state_queue s) (rs_flag s) (obstacles s) (current_location s) (procs s)
    v (proc_recv_stm32 s) (proc_android_sender s) (proc_command_follower s)
    (proc_rpi_action s) (main_running s) (thread_running s) (follower_at s)
    (trace s).
Definition set_proc_recv_stm32 (v : option nat) (s : State) : State :=
  mkState (android_dropped s) (unpause s) (stop_thread s) (movement_lock s)
    (android_queue s) (rpi_action_queue s) (command_queue s) (path_queue s)
    (state_queue s) (rs_flag s) (obstacles s) (current_location s) (procs s)
    (proc_recv_android s) v (proc_android_sender s)
    (proc_command_follower s) (proc_rpi_action s) (main_running s)
    (thread_running s) (follower_at s) (trace s).
Definition set_proc_android_sender (v : option nat) (s : State) : State :=
  mkState (android_dropped s) (unpause s) (stop_thread s) (movement_lock s)
    (android_queue s) (rpi_action_queue s) (command_queue s) (path_queue s)
    (state_queue s) (rs_flag s) (obstacles s) (current_location s) (procs s)
    (proc_recv_android s) (proc_recv_stm32 s) v (proc_command_follower s)
    (proc_rpi_action s) (main_running s) (thread_running s) (follower_at s)
    (trace s).
Definition set_proc_command_follower (v : option nat) (s : State) : State :=
  mkState (android_dropped s) (unpause s) (stop_thread s) (movement_lock s)
    (android_queue s) (rpi_action_queue s) (command_queue s) (path_queue s)
    (state_queue s) (rs_flag s) (obstacles s) (current_location s) (procs s)
    (proc_recv_android s) (proc_recv_stm32 s) (proc_android_sender s) v
    (proc_rpi_action s) (main_running s) (thread_running s) (follower_at s)
    (trace s).
Definition set_proc_rpi_action (v : option nat) (s : State) : State :=
  mkState (android_dropped s) (unpause s) (stop_thread s) (movement_lock s)
    (android_queue s) (rpi_action_queue s) (command_queue s) (path_queue s)
    (state_queue s) (rs_flag s) (obstacles s) (current_location s) (procs s)
    (proc_recv_android s) (proc_recv_stm32 s) (proc_android_sender s)
    (proc_command_follower s) v (main_running s) (thread_running s)
    (follower_at s) (trace s).
Definition set_main_running (v : bool) (s : State) : State :=
  mkState (android_dropped s) (unpause s) (stop_thread s) (movement_lock s)
    (android_queue s) (rpi_action_queue s) (command_queue s) (path_queue s)
    (state_queue s) (rs_flag s) (obstacles s) (current_location s) (procs s)
    (proc_recv_android s) (proc_recv_stm32 s) (proc_android_sender s)
    (proc_command_follower s) (proc_rpi_action s) v (thread_running s)
    (follower_at s) (trace s).
Definition set_thread_running (v : bool) (s : State) : State :=
  mkState (android_dropped s) (unpause s) (stop_thread s) (movement_lock s)
    (android_queue s) (rpi_action_queue s) (command_queue s) (path_queue s)
    (state_queue s) (rs_flag s) (obstacles s) (current_location s) (procs s)
    (proc_recv_android s) (proc_recv_stm32 s) (proc_android_sender s)
    (proc_command_follower s) (proc_rpi_action s) (main_running s) v
    (follower_at s) (trace s).
Definition set_follower_at (v : follower_pc) (s : State) : State :=
  mkState (android_dropped s) (unpause s) (stop_thread s) (movement_lock s)
    (android_queue s) (rpi_action_queue s) (command_queue s) (path_queue s)
    (state_queue s) (rs_flag s) (obstacles s) (current_location s) (procs s)
    (proc_recv_android s) (proc_recv_stm32 s) (proc_android_sender s)
    (proc_command_follower s) (proc_rpi_action s) (main_running s)
    (thread_running s) v (trace s).
Definition set_trace (v : list op) (s : State) : State :=
  mkState (android_dropped s) (unpause s) (stop_thread s) (movement_lock s)
    (android_queue s) (rpi_action_queue s) (command_queue s) (path_queue s)
    (state_queue s) (rs_flag s) (obstacles s) (current_location s) (procs s)
    (proc_recv_android s) (proc_recv_stm32 s) (proc_android_sender s)
    (proc_command_follower s) (proc_rpi_action s) (main_running s)
    (thread_running s) (follower_at s) v.

(** ** Programs over the state *)

(** A call returns, raises, or cannot proceed yet. *)
Inductive res (A : Type) :=
| Ok (a : A)
| Raise (e : exn)
| Blocked.
Arguments Ok {A} a.
Arguments Raise {A} e.
Arguments Blocked {A}.

Definition M (A : Type) : Type := State -> res A * State.

Global Instance M_ret : MRet M := fun A a s => (Ok a, s).

Global Instance M_bind : MBind M := fun A B k m s =>
  match m s with
  | (Ok a, s') => k a s'
  | (Raise e, s') => (Raise e, s')
  | (Blocked, s') => (Blocked, s')
  end.

Definition raise {A} (e : exn) : M A := fun s => (Raise e, s).

Definition block {A} : M A := fun s => (Blocked, s).

Definition gets {A} (f : State -> A) : M A := fun s => (Ok (f s), s).

Definition modify (f : State -> State) : M unit := fun s => (Ok tt, f s).

(** [try: body except ...: handler], for the exceptions [catches] accepts. *)
Definition try_except {A} (body : M A) (catches : exn -> bool)
    (handler : M A) : M A := fun s =>
  match body s with
  | (Raise e, s') => if catches e then handler s' else (Raise e, s')
  | r => r
  end.

(** The result of a library call that either returns or raises. *)
Definition lift {A} (r : exn + A) : M A :=
  match r with inl e => raise e | inr a => mret a end.

Definition emit (o : op) : M unit :=
  modify (fun s => set_trace (trace s ++ [o]) s).

Definition log (l : level) (text : string) : M unit := emit (Log l text).

Definition print (text : string) : M unit := emit (Print text).

(** ** The shared objects *)

(** [threading.Event] and the manager's [Event]. *)
Definition is_set (e : event_name) (s : State) : bool :=
  match e with
  | AndroidDroppedEv => android_dropped s
  | UnpauseEv => unpause s
  | StopThreadEv => stop_thread s
  end.

Definition set_event (e : event_name) (b : bool) : State -> State :=
  match e with
  | AndroidDroppedEv => set_android_dropped b
  | UnpauseEv => set_unpause b
  | StopThreadEv => set_stop_thread b
  end.

Definition event_set (e : event_name) : M unit :=
  modify (set_event e true);; emit (EventSet e).

Definition event_clear (e : event_name) : M unit :=
  modify (set_event e false);; emit (EventClear e).

Definition event_wait (e : event_name) : M unit :=
  b ← gets (is_set e); if b : bool then mret tt else block.

(** The manager's [Lock]: [acquire] waits while the lock is held;
    [release] of a lock that is not held raises [RuntimeError], whoever
    calls it. *)
Definition movement_lock_acquire : M unit :=
  held ← gets movement_lock;
  if held : bool then block
  else modify (set_movement_lock true);; emit Acquire.

Definition movement_lock_release : M unit :=
  held ← gets movement_lock;
  if held : bool then modify (set_movement_lock false);; emit Release
  else raise RuntimeError.

(** The queues: [put] never waits, [get] waits for an item,
    [get_nowait] and a [get] whose timeout runs out raise [Empty]. *)
Definition android_queue_put (m : AndroidMessage) : M unit :=
  modify (fun s => set_android_queue (android_queue s ++ [m]) s);;
  emit (AndroidPut m).

Definition android_queue_get_timeout : M AndroidMessage :=
  q ← gets android_queue;
  match q with
  | [] => raise Empty
  | m :: rest => modify (set_android_queue rest);; emit (AndroidGet m);; mret m
  end.

Definition rpi_action_queue_put (a : PiAction) : M unit :=
  modify (fun s => set_rpi_action_queue (rpi_action_queue s ++ [a]) s);;
  emit (ActionPut a).

Definition rpi_action_queue_get : M PiAction :=
  q ← gets rpi_action_queue;
  match q with
  | [] => block
  | a :: rest => modify (set_rpi_action_queue rest);; emit (ActionGet a);; mret a
  end.

Definition command_queue_put (c : string) : M unit :=
  modify (fun s => set_command_queue (command_queue s ++ [c]) s);;
  emit (CommandPut c).

Definition command_queue_get : M string :=
  q ← gets command_queue;
  match q with
  | [] => block
  | c :: rest => modify (set_command_queue rest);; emit (CommandGet c);; mret c
  end.

Definition command_queue_empty : M bool :=
  q ← gets command_queue; mret (match q with [] => true | _ => false end).

Definition path_queue_put (l : Location) : M unit :=
  modify (fun s => set_path_queue (path_queue s ++ [l]) s);;
  emit (PathPut l).

Definition path_queue_get_nowait : M Location :=
  q ← gets path_queue;
  match q with
  | [] => raise Empty
  | l :: rest => modify (set_path_queue rest);; emit (PathGet l);; mret l
  end.

Definition state_queue_put (c : StateCommand) : M unit :=
  modify (fun s => set_state_queue (state_queue s ++ [c]) s);;
  emit (StatePut c).

Definition state_queue_get : M StateCommand :=
  q ← gets state_queue;
  match q with
  | [] => block
  | c :: rest => modify (set_state_queue rest);; emit (StateGet c);; mret c
  end.

Definition state_queue_empty : M bool :=
  q ← gets state_queue; mret (match q with [] => true | _ => false end).

(** [Process] objects. *)
Definition status_of (pid : nat) (s : State) : option pstatus :=
  status <$> procs s !! pid.

Definition set_status (pid : nat) (st : pstatus) : M unit :=
  modify (fun s =>
    set_procs (alter (fun p => mkProc (target p) st) pid (procs s)) s).

(** [Process(target=t)] *)
Definition process_new (t : worker) : M nat :=
  pid ← gets (fun s => length (procs s));
  modify (fun s => set_procs (procs s ++ [mkProc t Initial]) s);;
  emit (ProcNew pid t);;
  mret pid.

(** A method call on a handle; the handle is [None] until [start] set it. *)
Definition on_handle {A} (h : State -> option nat) (f : nat -> M A) : M A :=
  o ← gets h;
  match o with
  | Some pid => f pid
  | None => raise AttributeError
  end.

Definition process_start (pid : nat) : M unit :=
  st ← gets (status_of pid);
  match st with
  | Some Initial => set_status pid Running;; emit (ProcStart pid)
  | _ => raise AssertionError
  end.

(** [kill] and [terminate] send a signal to a started process. *)
Definition signal (o : op) (pid : nat) : M unit :=
  st ← gets (status_of pid);
  match st with
  | Some Running => set_status pid Signalled;; emit o
  | Some Initial | None => raise AttributeError
  | _ => emit o
  end.

Definition process_kill (pid : nat) : M unit := signal (ProcKill pid) pid.

Definition process_terminate (pid : nat) : M unit :=
  signal (ProcTerminate pid) pid.

(** [join] returns once the process is gone. *)
Definition process_join (pid : nat) : M unit :=
  st ← gets (status_of pid);
  match st with
  | Some Signalled => set_status pid Exited;; emit (ProcJoin pid)
  | Some Exited => emit (ProcJoin pid)
  | Some Running => block
  | Some Initial | None => raise AssertionError
  end.

Definition process_is_alive (pid : nat) : M bool :=
  st ← gets (status_of pid);
  mret (match st with Some Running | Some Signalled => true | _ => false end).

(** [assert b] *)
Definition assert (b : bool) : M unit :=
  if b then mret tt else raise AssertionError.

(** ** usb_interface_upd.py *)

Definition send_message (state motor_speed param scale : pyval) : M unit :=
  let message :=
    format state +:+ " " +:+ format motor_speed +:+ " " +:+ format param
      +:+ " " +:+ format scale in
  let padded_message := ljust 30 message in
  emit (SerWrite (encode padded_message));;
  print ("Sent : " +:+ strip padded_message).

Definition queue_state_transition (state motor_speed param scale : pyval)
    : M unit :=
  state_queue_put (mkStateCommand state motor_speed param scale).

Definition handle_received_message (message : string) : M unit :=
  print ("Received: " +:+ message).

(** What one pass of [receive_thread] finds on the port: nothing waiting,
    a line (as [decode] gives it), or bytes that are not UTF-8. *)
Inductive poll :=
| NothingWaiting
| Waiting (line : string)
| WaitingUndecodable.

(** One pass of the loop of [receive_thread]. *)
Definition receive_thread (p : poll) : M unit :=
  match p with
  | NothingWaiting => mret tt
  | WaitingUndecodable => raise UnicodeDecodeError
  | Waiting line =>
      let message := strip line in
      emit (LinkLine message);;
      if String.eqb message "0" then
        print "Received 0 : Previous state completed";;
        empty ← state_queue_empty;
        if negb empty then
          next_state ← state_queue_get;
          send_message (sc_state next_state) (sc_motor_speed next_state)
            (sc_param next_state) (sc_scale next_state)
        else mret tt
      else if String.eqb message "1" then
        print "Received 1 : Current state starting"
      else handle_received_message message
  end.

(** The states the module queues when it is loaded. *)
Definition test_states : list StateCommand :=
  [ mkStateCommand (PStr "FORWARD") (PInt 3000) (PFloat "70.0") (PInt 0);
    mkStateCommand (PStr "FORWARD_RIGHT") (PInt 3000) (PInt 70) (PFloat "1.7");
    mkStateCommand (PStr "FORWARD") (PInt 3000) (PFloat "40.0") (PInt 0);
    mkStateCommand (PStr "FORWARD_RIGHT") (PInt 3000) (PInt 70) (PFloat "1.7");
    mkStateCommand (PStr "FORWARD") (PInt 3000) (PFloat "30.0") (PInt 0);
    mkStateCommand (PStr "FORWARD_RIGHT") (PInt 3000) (PInt 70) (PFloat "1.7");
    mkStateCommand (PStr "FORWARD") (PInt 3000) (PInt 20) (PInt 0);
    mkStateCommand (PStr "BACKWARD_LEFT") (PInt 2000) (PFloat "50.0")
      (PFloat "1.5") ].

(** ** week8modded.py *)

(** A name the code looks up is bound to something, or it is not: the
    lookup of an unbound global raises [NameError], that of an unbound
    attribute [AttributeError]. *)
Inductive binding (A : Type) :=
| Unbound
| Bound (a : A).
Arguments Unbound {A}.
Arguments Bound {A} a.

(** What a pass of [recv_android] takes from outside the file:
    [json.loads]; the method [check_api], which the class body does not
    define, with what this call of it returns when some other code
    provides it; and the name [PiAction], which the module neither defines
    nor imports, with what a call of it on the items of [message] gives
    when it is provided. *)
Record Env := mkEnv {
  json_loads : string -> exn + json;
  check_api : binding bool;
  PiAction_new : binding (list (string * json) -> exn + PiAction)
}.

(** The file as it stands: neither name is bound. *)
Definition source_env (loads : string -> exn + json) : Env :=
  mkEnv loads Unbound Unbound.

(** [self.check_api()] *)
Definition self_check_api (env : Env) : M bool :=
  match check_api env with
  | Bound b => mret b
  | Unbound => raise AttributeError
  end.

(** The call of [PiAction] with the items of [message] as keywords. *)
Definition call_PiAction (env : Env) (message : json) : M PiAction :=
  match PiAction_new env with
  | Unbound => raise NameError
  | Bound new =>
      match message with
      | JDict items => lift (new items)
      | _ => raise TypeError
      end
  end.

(** What [self.android_link.recv()] does. *)
Inductive recv_result :=
| RecvStr (msg_str : string)
| RecvNone
| RecvRaises (e : exn).

Definition android_link_recv (r : recv_result) : M (option string) :=
  match r with
  | RecvStr msg_str => mret (Some msg_str)
  | RecvNone => mret None
  | RecvRaises e => raise e
  end.

(** One pass of the loop of [recv_android]. *)
Definition recv_android (env : Env) (r : recv_result) : M unit :=
  msg_str ← try_except (android_link_recv r) is_OSError
               (event_set AndroidDroppedEv;;
                log Debug "Event set: Android connection dropped";;
                mret None);
  match msg_str with
  | None => mret tt
  | Some msg_str =>
      message ← lift (json_loads env msg_str);
      cat ← lift (getitem message "cat");
      if eq_str cat "obstacles" then
        action ← call_PiAction env message;
        rpi_action_queue_put action;;
        log Debug "Set obstacles PiAction added to queue: "
      else if eq_str cat "control" then
        value ← lift (getitem message "value");
        if eq_str value "start" then
          api ← self_check_api env;
          (if negb api then
             log Error "API is down! Start command aborted.";;
             android_queue_put
               (mkAndroidMessage "error"
                  (JStr "API is down, start command aborted."))
           else mret tt);;
          empty ← command_queue_empty;
          if negb empty then
            log Info "Gryo reset!";;
            queue_state_transition (PStr "RS00") (PInt 0) (PInt 0) (PInt 0);;
            event_set UnpauseEv;;
            log Info "Start command received, starting robot on path!";;
            android_queue_put
              (mkAndroidMessage "info" (JStr "Starting robot on path!"));;
            android_queue_put (mkAndroidMessage "status" (JStr "running"))
          else
            log Warning "The command queue is empty, please set obstacles.";;
            android_queue_put
              (mkAndroidMessage "error"
                 (JStr "Command queue is empty, did you set obstacles?"))
        else mret tt
      else mret tt
  end.

(** What [ser.readline().decode('utf-8')] does. *)
Inductive ser_read :=
| ReadLine (line : string)
| ReadUndecodable
| ReadFails.

Definition readline_decode (r : ser_read) : M string :=
  match r with
  | ReadLine line => mret line
  | ReadUndecodable => raise UnicodeDecodeError
  | ReadFails => raise SerialException
  end.

Definition set_location (k : string) (v : json) : M unit :=
  modify (fun s => set_current_location (<[k := v]> (current_location s)) s).

(** One pass of the loop of [recv_stm]. *)
Definition recv_stm (r : ser_read) : M unit :=
  try_except
    (line ← readline_decode r;
     let message := strip line in
     emit (StmLine message);;
     if startswith message ["ACK"%string] then
       rs ← gets rs_flag;
       if negb rs then
         modify (set_rs_flag true);;
         log Debug "ACK for RS00 from STM32 received."
       else
         try_except
           (movement_lock_release;;
            log Debug "ACK from STM32 received, movement lock released.";;
            cur_location ← path_queue_get_nowait;
            set_location "x" (loc_x cur_location);;
            set_location "y" (loc_y cur_location);;
            set_location "d" (loc_d cur_location);;
            log Info "self.current_location = ";;
            android_queue_put
              (mkAndroidMessage "location"
                 (JDict [("x"%string, loc_x cur_location);
                         ("y"%string, loc_y cur_location);
                         ("d"%string, loc_d cur_location)])))
           is_Empty
           (log Warning "Tried to release a released lock!")
     else log Warning "Ignored unknown message from STM: ")
    is_Exception
    (log Error "Error reading from STM: ").

(** What [self.android_link.send(message)] does. *)
Inductive send_result :=
| SendOk
| SendRaises (e : exn).

(** One pass of the loop of [android_sender]. *)
Definition android_sender (r : send_result) : M unit :=
  got ← try_except (m ← android_queue_get_timeout; mret (Some m)) is_Empty
          (mret None);
  match got with
  | None => mret tt
  | Some message =>
      try_except
        (match r with
         | SendOk => emit (LinkSend message)
         | SendRaises e => raise e
         end)
        is_OSError
        (event_set AndroidDroppedEv;; log Debug "Event set: Android dropped")
  end.

Definition stm32_prefixes : list string :=
  ["FS"; "BS"; "FW"; "BW"; "FL"; "FR"; "BL"; "BR"; "TL"; "TR"; "A"; "C";
   "DT"; "STOP"; "ZZ"; "RS"]%string.

Definition set_pc (pc : follower_pc) : M unit := modify (set_follower_at pc).

(** [command_follower], from one blocking call of its loop body to the
    next: the [get], the [wait], and the [acquire] with the rest of the
    body. *)
Definition command_follower : M unit :=
  pc ← gets follower_at;
  match pc with
  | AtGet =>
      command ← command_queue_get;
      log Debug "wait for unpause";;
      set_pc (AtWait command)
  | AtWait command =>
      try_except (event_wait UnpauseEv) is_Exception
        (log Debug "wait for unpause error");;
      log Debug "wait for movelock";;
      set_pc (AtAcquire command)
  | AtAcquire command =>
      movement_lock_acquire;;
      (if startswith command stm32_prefixes then
         queue_state_transition (PStr command) (PInt 0) (PInt 0) (PInt 0)
       else mret tt);;
      set_pc AtGet
  end.

(** [for obs in v]: the items of a list, the keys of a dict, the
    characters of a [str]. *)
Definition iterate (v : json) : exn + list json :=
  match v with
  | JList l => inr l
  | JDict items => inr (map (fun kv => JStr (fst kv)) items)
  | JStr t =>
      inr (map (fun a => JStr (String a EmptyString))
             (String.list_ascii_of_string t))
  | _ => inl TypeError
  end.

Definition hashable (k : json) : bool :=
  match k with JList _ | JDict _ => false | _ => true end.

(** Equality of dict keys; [True] and [1] are the same key. *)
Definition key_eqb (a b : json) : bool :=
  match a, b with
  | JNull, JNull => true
  | JStr t, JStr u => String.eqb t u
  | JNum m, JNum n => Z.eqb m n
  | JBool m, JBool n => Bool.eqb m n
  | JBool m, JNum n | JNum n, JBool m => Z.eqb n (if m then 1 else 0)
  | _, _ => false
  end.

(** [dict[k] = v]: the last write of a key wins, the key keeps its place. *)
Fixpoint dict_set (k v : json) (items : list (json * json))
    : list (json * json) :=
  match items with
  | [] => [(k, v)]
  | (k', v') :: rest =>
      if key_eqb k k' then (k', v) :: rest else (k', v') :: dict_set k v rest
  end.

Fixpoint store_obstacles (l : list json) : M unit :=
  match l with
  | [] => mret tt
  | obs :: rest =>
      id ← lift (getitem obs "id");
      (if hashable id then
         modify (fun s => set_obstacles (dict_set id obs (obstacles s)) s)
       else raise TypeError);;
      store_obstacles rest
  end.

(** One pass of the loop of [rpi_action].  The class body defines none of
    [request_algo], [snap_and_rec] and [request_stitch]. *)
Definition rpi_action : M unit :=
  action ← rpi_action_queue_get;
  log Debug "PiAction retrieved from queue: ";;
  if String.eqb (pa_cat action) "obstacles" then
    v ← lift (getitem (pa_value action) "obstacles");
    l ← lift (iterate v);
    store_obstacles l;;
    raise AttributeError
  else if String.eqb (pa_cat action) "snap" then raise AttributeError
  else if String.eqb (pa_cat action) "stitch" then raise AttributeError
  else mret tt.

(** One pass of the loop of [reconnect_android].  [connect] and
    [disconnect] of the app link are calls that return. *)
Definition reconnect_android : M unit :=
  event_wait AndroidDroppedEv;;
  log Error "Android link is down!";;
  log Debug "Killing android child processes";;
  on_handle proc_android_sender process_kill;;
  on_handle proc_recv_android process_kill;;
  on_handle proc_android_sender process_join;;
  on_handle proc_recv_android process_join;;
  alive ← on_handle proc_android_sender process_is_alive;
  assert (negb alive);;
  alive ← on_handle proc_recv_android process_is_alive;
  assert (negb alive);;
  log Debug "Android child processes killed";;
  emit LinkDisconnect;;
  emit LinkConnect;;
  p ← process_new RecvAndroid;
  modify (set_proc_recv_android (Some p));;
  p ← process_new AndroidSender;
  modify (set_proc_android_sender (Some p));;
  on_handle proc_recv_android process_start;;
  on_handle proc_android_sender process_start;;
  log Info "Android child processes restarted";;
  android_queue_put (mkAndroidMessage "info" (JStr "You are reconnected!"));;
  android_queue_put (mkAndroidMessage "mode" (JStr "path"));;
  event_clear AndroidDroppedEv.

(** [start], up to its call of [reconnect_android]. *)
Definition start (env : Env) : M unit :=
  emit LinkConnect;;
  android_queue_put
    (mkAndroidMessage "info" (JStr "You are connected to the RPi!"));;
  self_check_api env;;
  p ← process_new RecvStm32;
  modify (set_proc_recv_stm32 (Some p));;
  on_handle proc_recv_stm32 process_start;;
  p ← process_new RecvAndroid;
  modify (set_proc_recv_android (Some p));;
  p ← process_new AndroidSender;
  modify (set_proc_android_sender (Some p));;
  p ← process_new CommandFollower;
  modify (set_proc_command_follower (Some p));;
  p ← process_new RpiAction;
  modify (set_proc_rpi_action (Some p));;
  on_handle proc_recv_android process_start;;
  on_handle proc_android_sender process_start;;
  on_handle proc_command_follower process_start;;
  on_handle proc_rpi_action process_start;;
  log Info "Child Processes started";;
  android_queue_put (mkAndroidMessage "info" (JStr "Robot is ready!"));;
  android_queue_put (mkAndroidMessage "mode" (JStr "path")).

(** [if handle: f(handle)] *)
Definition if_handle (h : State -> option nat) (f : nat -> M unit) : M unit :=
  o ← gets h;
  match o with
  | Some pid => f pid
  | None => mret tt
  end.

Definition stop : M unit :=
  if_handle proc_recv_android process_terminate;;
  if_handle proc_recv_stm32 (fun _ => event_set StopThreadEv);;
  if_handle proc_android_sender process_terminate;;
  if_handle proc_command_follower process_terminate;;
  if_handle proc_rpi_action process_terminate;;
  emit LinkDisconnect;;
  emit SerClose;;
  log Info "Program exited!".

(** ** The program as a whole *)

(** A move of the program: one pass of a worker's loop with what the
    outside gives it, or a call from outside the workers.
    [EvQueueState] is a call of [queue_state_transition] by any other
    caller, such as the script at the end of [usb_interface_upd.py];
    [EvCommand] and [EvPath] are an item put on [command_queue] and on
    [path_queue], which no code of the two files does. *)
Inductive event :=
| EvStart (env : Env)
| EvInterrupt
| EvSupervisor
| EvRecvAndroid (env : Env) (r : recv_result)
| EvAndroidSender (r : send_result)
| EvRecvStm (r : ser_read)
| EvFollower
| EvRpiAction
| EvReceiveThread (p : poll)
| EvQueueState (c : StateCommand)
| EvCommand (c : string)
| EvPath (l : Location).

Definition handle (w : worker) : State -> option nat :=
  match w with
  | RecvAndroid => proc_recv_android
  | RecvStm32 => proc_recv_stm32
  | AndroidSender => proc_android_sender
  | CommandFollower => proc_command_follower
  | RpiAction => proc_rpi_action
  end.

Definition runs (w : worker) (s : State) : bool :=
  match handle w s with
  | Some pid => bool_decide (status_of pid s = Some Running)
  | None => false
  end.

(** A worker whose pass raises is gone. *)
Definition exit_worker (w : worker) (s : State) : State :=
  match handle w s with
  | Some pid =>
      set_procs (alter (fun p => mkProc (target p) Exited) pid (procs s)) s
  | None => s
  end.

Definition pass (w : worker) (m : M unit) (s : State) : option State :=
  if runs w s then
    match m s with
    | (Ok _, s') => Some s'
    | (Raise _, s') => Some (exit_worker w s')
    | (Blocked, _) => None
    end
  else None.

Definition main_pass (m : M unit) (s : State) : option State :=
  if main_running s then
    match m s with
    | (Ok _, s') => Some s'
    | (Raise _, s') => Some (set_main_running false s')
    | (Blocked, _) => None
    end
  else None.

Definition started (s : State) : bool :=
  match procs s with [] => false | _ => true end.

Definition step (e : event) (s : State) : option State :=
  match e with
  | EvStart env => if started s then None else main_pass (start env) s
  | EvInterrupt => main_pass (stop;; modify (set_main_running false)) s
  | EvSupervisor => if started s then main_pass reconnect_android s else None
  | EvRecvAndroid env r => pass RecvAndroid (recv_android env r) s
  | EvAndroidSender r => pass AndroidSender (android_sender r) s
  | EvRecvStm r =>
      if stop_thread s then
        if runs RecvStm32 s then Some (exit_worker RecvStm32 s) else None
      else pass RecvStm32 (recv_stm r) s
  | EvFollower => pass CommandFollower command_follower s
  | EvRpiAction => pass RpiAction rpi_action s
  | EvReceiveThread p =>
      if thread_running s then
        if stop_thread s then Some (set_thread_running false s)
        else
          match receive_thread p s with
          | (Ok _, s') => Some s'
          | (Raise _, s') => Some (set_thread_running false s')
          | (Blocked, _) => None
          end
      else None
  | EvQueueState c =>
      Some (queue_state_transition (sc_state c) (sc_motor_speed c)
              (sc_param c) (sc_scale c) s).2
  | EvCommand c => Some (command_queue_put c s).2
  | EvPath l => Some (path_queue_put l s).2
  end.

Fixpoint run (evs : list event) (s : State) : option State :=
  match evs with
  | [] => Some s
  | e :: rest =>
      match step e s with
      | Some s' => run rest s'
      | None => None
      end
  end.

(** The state in which every shared object is as it is created: no event
    set, the lock free, the queues empty, no process, the receive thread
    of the link started. *)
Definition init : State :=
  mkState false false false false [] [] [] [] [] false [] ∅ []
    None None None None None true true AtGet [].

(** ** Reading the history *)

(** The text [send_message] builds for a state tuple, and its frame. *)
Definition text_of (c : StateCommand) : string :=
  format (sc_state c) +:+ " " +:+ format (sc_motor_speed c) +:+ " "
    +:+ format (sc_param c) +:+ " " +:+ format (sc_scale c).

Definition frame_of (c : StateCommand) : list byte :=
  encode (ljust 30 (text_of c)).

Definition all_ascii (t : string) : Prop :=
  Forall (fun a => is_ascii a = true) (String.list_ascii_of_string t).

(** The frames written to the port, the tuples put on [state_queue] and
    the tuples taken from it, oldest first. *)
Fixpoint written (tr : list op) : list (list byte) :=
  match tr with
  | [] => []
  | SerWrite frame :: rest => frame :: written rest
  | _ :: rest => written rest
  end.

Fixpoint queued (tr : list op) : list StateCommand :=
  match tr with
  | [] => []
  | StatePut c :: rest => c :: queued rest
  | _ :: rest => queued rest
  end.

Fixpoint taken (tr : list op) : list StateCommand :=
  match tr with
  | [] => []
  | StateGet c :: rest => c :: taken rest
  | _ :: rest => taken rest
  end.

(** The commands on the wire that no ["0"] line has answered yet: a write
    adds one, a ["0"] line takes one off.  [gate n tr] follows the count
    through [tr] from [n], and is [None] as soon as a frame is written
    while a command is outstanding. *)
Fixpoint gate (n : nat) (tr : list op) : option nat :=
  match tr with
  | [] => Some n
  | LinkLine message :: rest =>
      if String.eqb message "0" then gate (pred n) rest else gate n rest
  | SerWrite _ :: rest =>
      match n with
      | O => gate 1 rest
      | S _ => None
      end
  | _ :: rest => gate n rest
  end.

(** Everything of a state but its history. *)
Definition objects (s : State) : State := set_trace [] s.

(** The processes of a target that have been started and are not gone. *)
Definition is_live (w : worker) (p : proc) : bool :=
  bool_decide (target p = w)
  && (bool_decide (status p = Running) || bool_decide (status p = Signalled)).

Definition live (w : worker) (s : State) : nat :=
  length (filter (fun p => is_live w p = true) (procs s)).

(** ** What a program leaves alone *)

(** [keeps R m]: every call of [m] takes a state to one related by [R],
    however the call ends. *)
Definition keeps (R : State -> State -> Prop) {A} (m : M A) : Prop :=
  forall s, R s (m s).2.

(** The history only grows, by operations that satisfy [P]. *)
Definition appends (P : op -> Prop) (s s' : State) : Prop :=
  exists ops, trace s' = trace s ++ ops /\ Forall P ops.

(** A field is left as it was. *)
Definition same {A} (f : State -> A) (s s' : State) : Prop := f s' = f s.

Definition is_lock_op (o : op) : bool :=
  match o with Acquire | Release => true | _ => false end.

Definition is_link_op (o : op) : bool :=
  match o with LinkLine _ | SerWrite _ | StateGet _ => true | _ => false end.

(** The lock is neither taken nor given back. *)
Definition lock_untouched (s s' : State) : Prop :=
  same movement_lock s s' /\ appends (fun o => is_lock_op o = false) s s'.

(** Nothing is read from or written to the controller, and [state_queue]
    only gains what was put on it. *)
Definition link_untouched (s s' : State) : Prop :=
  exists ops, trace s' = trace s ++ ops
    /\ Forall (fun o => is_link_op o = false) ops
    /\ state_queue s' = state_queue s ++ queued ops.

(** No process is created or changed and no handle is moved. *)
Definition procs_untouched (s s' : State) : Prop :=
  same procs s s' /\ same proc_recv_android s s'
  /\ same proc_android_sender s s'.

(** An acknowledgment line, as [recv_stm] tells it. *)
Definition is_ack (r : ser_read) : bool :=
  match r with
  | ReadLine line => startswith (strip line) ["ACK"%string]
  | _ => false
  end.

Definition is_ack_event (e : event) : bool :=
  match e with
  | EvRecvStm r => is_ack r
  | _ => false
  end.

(** The handles of the two app workers name two started processes, and
    every other process with one of these targets is gone. *)
Definition app_target (w : worker) : bool :=
  match w with RecvAndroid | AndroidSender => true | _ => false end.

Definition pair_ok (s : State) : Prop :=
  exists pr ps st_r st_s,
    proc_recv_android s = Some pr /\ proc_android_sender s = Some ps
    /\ pr <> ps
    /\ procs s !! pr = Some (mkProc RecvAndroid st_r) /\ st_r <> Initial
    /\ procs s !! ps = Some (mkProc AndroidSender st_s) /\ st_s <> Initial
    /\ forall i p, procs s !! i = Some p -> app_target (target p) = true ->
         i <> pr -> i <> ps -> status p = Exited.

(** A pass of [recv_android] that ends the worker with the exception [e],
    having changed nothing. *)
Definition crashes (env : Env) (r : recv_result) (e : exn) (s : State)
    : Prop :=
  recv_android env r s = (Raise e, s)
  /\ exists s', step (EvRecvAndroid env r) s = Some s'
       /\ runs RecvAndroid s' = false.

(** The state [start] leaves when [check_api] is provided and answers. *)
Definition started_state : State :=
  default init
    (run [EvStart (mkEnv (fun _ => inl JSONDecodeError) (Bound true) Unbound)]
       init).

(** The lock is not given back: it stays held if it was, and the history
    gains no [Release]. *)
Definition no_release (s s' : State) : Prop :=
  (movement_lock s = true -> movement_lock s' = true)
  /\ appends (fun o => o <> Release) s s'.

(** What the history says about the link: what was put on [state_queue]
    is what was taken from it followed by what is still on it; each tuple
    taken was written as its frame; and no frame was written while a
    command was outstanding, at most one being outstanding now. *)
Definition link_inv (s : State) : Prop :=
  queued (trace s) = taken (trace s) ++ state_queue s
  /\ written (trace s) = map frame_of (taken (trace s))
  /\ exists n, gate 0 (trace s) = Some n /\ n <= 1.

(** The lock, once held, is left alone. *)
Definition held_untouched (s s' : State) : Prop :=
  movement_lock s = true -> lock_untouched s s'.

(** An [ACK] line read once [rs_flag] is set: the one [recv_stm] takes as
    the answer to a command. *)
Definition answers (e : event) (s : State) : bool :=
  is_ack_event e && rs_flag s.

(** [unanswered evs s]: in the run of [evs] from [s], no move is the
    reading of such a line. *)
Fixpoint unanswered (evs : list event) (s : State) : bool :=
  match evs with
  | [] => true
  | e :: rest =>
      negb (answers e s)
      && match step e s with
         | Some s' => unanswered rest s'
         | None => true
         end
  end.

(** The follower at the [acquire] for [SNAP1], with [FW20] behind it:
    after [start], two commands, the start message and two steps of the
    follower. *)
Definition at_snap : State :=
  default init
    (run [EvStart (mkEnv (fun _ => inl JSONDecodeError) (Bound true) Unbound);
          EvCommand "SNAP1"; EvCommand "FW20";
          EvRecvAndroid
            (mkEnv
               (fun _ =>
                  inr (JDict [("cat"%string, JStr "control");
                              ("value"%string, JStr "start")]))
               (Bound true) Unbound)
            (RecvStr "start");
          EvFollower; EvFollower] init).

(** What [kill] and [join] do to the list of processes. *)
Definition with_status (st : pstatus) (p : proc) : proc :=
  mkProc (target p) st.

Definition kill_list (pid : nat) (l : list proc) : list proc :=
  match status <$> l !! pid with
  | Some Running => alter (with_status Signalled) pid l
  | _ => l
  end.

Definition join_list (pid : nat) (l : list proc) : list proc :=
  match status <$> l !! pid with
  | Some Signalled => alter (with_status Exited) pid l
  | _ => l
  end.

Definition reconnected : AndroidMessage :=
  mkAndroidMessage "info" (JStr "You are reconnected!").

Definition mode_path : AndroidMessage :=
  mkAndroidMessage "mode" (JStr "path").

(** The operations of one pass of [reconnect_android], for the old
    workers [pr] and [ps] and the first free process index [n]. *)
Definition cycle_ops (pr ps n : nat) : list op :=
  [ Log Error "Android link is down!";
    Log Debug "Killing android child processes";
    ProcKill ps; ProcKill pr; ProcJoin ps; ProcJoin pr;
    Log Debug "Android child processes killed";
    LinkDisconnect; LinkConnect;
    ProcNew n RecvAndroid; ProcNew (S n) AndroidSender;
    ProcStart n; ProcStart (S n);
    Log Info "Android child processes restarted";
    AndroidPut reconnected; AndroidPut mode_path;
    EventClear AndroidDroppedEv ].

(** [pair_ok] with both workers running. *)
Definition pair_running (s : State) : Prop :=
  exists pr ps,
    proc_recv_android s = Some pr /\ proc_android_sender s = Some ps
    /\ pr <> ps
    /\ procs s !! pr = Some (mkProc RecvAndroid Running)
    /\ procs s !! ps = Some (mkProc AndroidSender Running)
    /\ forall i p, procs s !! i = Some p -> app_target (target p) = true ->
         i <> pr -> i <> ps -> status p = Exited.

(** Before [start] there is no process; after it the pair is in order. *)
Definition pair_inv (s : State) : Prop := procs s = [] \/ pair_ok s.

Definition pair_kept (s s' : State) : Prop := pair_inv s -> pair_inv s'.

(** A run with two drops of the app link: the receive fails, the
    supervisor reconnects, then the send fails. *)
Definition two_drops : list event :=
  [ EvStart (mkEnv (fun _ => inl JSONDecodeError) (Bound true) Unbound);
    EvRecvAndroid (mkEnv (fun _ => inl JSONDecodeError) (Bound true) Unbound)
      (RecvRaises OSError);
    EvSupervisor;
    EvAndroidSender (SendRaises OSError) ].

Definition dropped_again : State := default init (run two_drops init).

(** A run of the link alone: the module queues its states, and the
    controller answers ["0"], ["1"], ["0"]. *)
Definition link_run : list event :=
  map EvQueueState test_states
  ++ [EvReceiveThread (Waiting "0"); EvReceiveThread (Waiting "1");
      EvReceiveThread (Waiting "0")].

Definition link_state : State := default init (run link_run init).

(** The old pair after [kill] and [join], and the state one pass of
    [reconnect_android] leaves. *)
Definition torn_down (pr ps : nat) (l : list proc) : list proc :=
  join_list pr (join_list ps (kill_list pr (kill_list ps l))).

Definition after_cycle (pr ps : nat) (s : State) : State :=
  let n := length (procs s) in
  set_trace (trace s ++ cycle_ops pr ps n)
    (set_android_dropped false
       (set_android_queue (android_queue s ++ [reconnected; mode_path])
          (set_proc_android_sender (Some (S n))
             (set_proc_recv_android (Some n)
                (set_procs
                   (torn_down pr ps (procs s)
                      ++ [mkProc RecvAndroid Running;
                          mkProc AndroidSender Running]) s))))).

(** ** Messages, environments and inputs used below *)

Definition location_message (cur : Location) : AndroidMessage :=
  mkAndroidMessage "location"
    (JDict [("x"%string, loc_x cur); ("y"%string, loc_y cur);
            ("d"%string, loc_d cur)]).

Definition here : Location := mkLocation (JNum 1) (JNum 2) (JNum 0).

Definition start_message : json :=
  JDict [("cat"%string, JStr "control"); ("value"%string, JStr "start")].

Definition api_down_error : AndroidMessage :=
  mkAndroidMessage "error" (JStr "API is down, start command aborted.").

Definition queue_empty_error : AndroidMessage :=
  mkAndroidMessage "error"
    (JStr "Command queue is empty, did you set obstacles?").

Definition reset_state : StateCommand :=
  mkStateCommand (PStr "RS00") (PInt 0) (PInt 0) (PInt 0).

(** An environment whose [json.loads] refuses everything and whose
    [check_api] answers that the service is up. *)
Definition env_up : Env :=
  mkEnv (fun _ => inl JSONDecodeError) (Bound true) Unbound.

(** Environments that read every payload as the start message, with the
    service down and with the service up. *)
Definition env_down : Env :=
  mkEnv (fun _ => inr start_message) (Bound false) Unbound.

Definition env_start_up : Env :=
  mkEnv (fun _ => inr start_message) (Bound true) Unbound.

(** A reader of three payloads: an empty object, an [obstacles] message
    and a [start] message; anything else is not JSON. *)
Definition loads_three (msg_str : string) : exn + json :=
  if String.eqb msg_str "{}" then inr (JDict [])
  else if String.eqb msg_str "obstacles" then
    inr (JDict [("cat"%string, JStr "obstacles");
                ("value"%string, JDict [])])
  else if String.eqb msg_str "start" then inr start_message
  else inl JSONDecodeError.

(** The status [kill] and [join] leave a started process in. *)
Definition kill_status (st : pstatus) : pstatus :=
  match st with Running => Signalled | _ => st end.

Definition join_status (st : pstatus) : pstatus :=
  match st with Signalled => Exited | _ => st end.

(** ** More readings of the history *)

(** The ["0"] lines [receive_thread] has read. *)
Fixpoint zeros (tr : list op) : nat :=
  match tr with
  | [] => 0
  | LinkLine message :: rest =>
      (if String.eqb message "0" then 1 else 0) + zeros rest
  | _ :: rest => zeros rest
  end.

(** The link can no longer send: its thread has ended or has been told
    to. *)
Definition link_closed (s : State) : Prop :=
  thread_running s = false \/ stop_thread s = true.

(** A flag that is set stays set; one that is unset stays unset. *)
Definition stays (f : State -> bool) (s s' : State) : Prop :=
  f s = true -> f s' = true.

Definition stays_off (f : State -> bool) (s s' : State) : Prop :=
  f s = false -> f s' = false.

Definition any_event (e : event) : bool := true.

(** The flags of the program move one way: [unpause], [rs_flag] and
    [stop_thread] are never cleared, and the main program and the link's
    thread, once ended, are not started again. *)
Definition one_way (s s' : State) : Prop :=
  stays unpause s s' /\ stays rs_flag s s' /\ stays stop_thread s s'
  /\ stays_off main_running s s' /\ stays_off thread_running s s'.

(** ** Who writes what *)

(** The shared objects of the program; the five process handles count as
    one. *)
Inductive field :=
| FAndroidDropped | FUnpause | FStopThread | FMovementLock
| FAndroidQueue | FRpiActionQueue | FCommandQueue | FPathQueue | FStateQueue
| FRsFlag | FObstacles | FCurrentLocation
| FProcs | FHandles | FMainRunning | FThreadRunning | FFollowerAt.

Definition unchanged (f : field) (s s' : State) : Prop :=
  match f with
  | FAndroidDropped => android_dropped s' = android_dropped s
  | FUnpause => unpause s' = unpause s
  | FStopThread => stop_thread s' = stop_thread s
  | FMovementLock => movement_lock s' = movement_lock s
  | FAndroidQueue => android_queue s' = android_queue s
  | FRpiActionQueue => rpi_action_queue s' = rpi_action_queue s
  | FCommandQueue => command_queue s' = command_queue s
  | FPathQueue => path_queue s' = path_queue s
  | FStateQueue => state_queue s' = state_queue s
  | FRsFlag => rs_flag s' = rs_flag s
  | FObstacles => obstacles s' = obstacles s
  | FCurrentLocation => current_location s' = current_location s
  | FProcs => procs s' = procs s
  | FHandles => forall w, handle w s' = handle w s
  | FMainRunning => main_running s' = main_running s
  | FThreadRunning => thread_running s' = thread_running s
  | FFollowerAt => follower_at s' = follower_at s
  end.

(** The objects a move may write.  A worker that can raise is in the
    process table with its status. *)
Definition footprint (e : event) (f : field) : bool :=
  match e, f with
  | EvStart _, (FAndroidQueue | FProcs | FHandles | FMainRunning) => true
  | EvInterrupt, (FStopThread | FProcs | FMainRunning) => true
  | EvSupervisor,
    (FAndroidDropped | FAndroidQueue | FProcs | FHandles | FMainRunning) =>
      true
  | EvRecvAndroid _ _,
    (FAndroidDropped | FUnpause | FAndroidQueue | FRpiActionQueue
     | FStateQueue | FProcs) => true
  | EvAndroidSender _, (FAndroidDropped | FAndroidQueue | FProcs) => true
  | EvRecvStm _,
    (FRsFlag | FMovementLock | FPathQueue | FCurrentLocation
     | FAndroidQueue | FProcs) => true
  | EvFollower,
    (FCommandQueue | FMovementLock | FStateQueue | FFollowerAt) => true
  | EvRpiAction, (FRpiActionQueue | FObstacles | FProcs) => true
  | EvReceiveThread _, (FStateQueue | FThreadRunning) => true
  | EvQueueState _, FStateQueue => true
  | EvCommand _, FCommandQueue => true
  | EvPath _, FPathQueue => true
  | _, _ => false
  end.

(** [outside fp]: every object outside of [fp] is as it was. *)
Definition outside (fp : field -> bool) (s s' : State) : Prop :=
  forall f, fp f = false -> unchanged f s s'.

(** ** Messages for the app *)

(** The messages put on [android_queue], those taken from it and those
    the app link has sent, oldest first. *)
Fixpoint app_put (tr : list op) : list AndroidMessage :=
  match tr with
  | [] => []
  | AndroidPut m :: rest => m :: app_put rest
  | _ :: rest => app_put rest
  end.

Fixpoint app_got (tr : list op) : list AndroidMessage :=
  match tr with
  | [] => []
  | AndroidGet m :: rest => m :: app_got rest
  | _ :: rest => app_got rest
  end.

Fixpoint app_sent (tr : list op) : list AndroidMessage :=
  match tr with
  | [] => []
  | LinkSend m :: rest => m :: app_sent rest
  | _ :: rest => app_sent rest
  end.

Definition is_app_op (o : op) : bool :=
  match o with
  | AndroidPut _ | AndroidGet _ | LinkSend _ => true
  | _ => false
  end.

(** What was put on [android_queue] is what was taken from it followed by
    what is still on it, and what was sent is part of what was taken, in
    the same order. *)
Definition app_inv (s : State) : Prop :=
  app_put (trace s) = app_got (trace s) ++ android_queue s
  /\ sublist (app_sent (trace s)) (app_got (trace s)).

Definition app_kept (s s' : State) : Prop := app_inv s -> app_inv s'.

(** A whole mission: the program starts, a directive and the place it
    leads to are queued, the app sends [start], the follower forwards the
    directive, the controller asks for the next state twice and
    acknowledges twice, the app is told, and the program is interrupted. *)
Definition mission : list event :=
  [ EvStart env_start_up;
    EvCommand "FW010"; EvPath here;
    EvRecvAndroid env_start_up (RecvStr "start");
    EvFollower; EvFollower; EvFollower;
    EvReceiveThread (Waiting "0");
    EvRecvStm (ReadLine "ACK");
    EvReceiveThread (Waiting "0");
    EvRecvStm (ReadLine "ACK");
    EvAndroidSender SendOk; EvAndroidSender SendOk;
    EvAndroidSender (SendRaises OSError);
    EvInterrupt ].

Definition mission_state : State := default init (run mission init).

(** Everything but the process table and the handles. *)
Definition not_table (f : field) : bool :=
  match f with FProcs | FHandles => false | _ => true end.

(** A reader of three more payloads: a message of an unknown category, a
    [control] message that is not [start], and one without a value. *)
Definition loads_other (msg_str : string) : exn + json :=
  if String.eqb msg_str "ping" then inr (JDict [("cat"%string, JStr "ping")])
  else if String.eqb msg_str "pause" then
    inr (JDict [("cat"%string, JStr "control");
                ("value"%string, JStr "pause")])
  else if String.eqb msg_str "control" then
    inr (JDict [("cat"%string, JStr "control")])
  else inl JSONDecodeError.

(** ** Before and after the start command *)

(** The operations by which a directive goes on its way: the lock is
    taken, a tuple is queued for the link. *)
Definition is_go_op (o : op) : bool :=
  match o with Acquire | StatePut _ => true | _ => false end.

(** A move that sends nothing on its way: [unpause] and the place of the
    follower are as they were, a free lock stays free, and the history
    gains neither an [Acquire] nor a queued tuple. *)
Definition idle (s s' : State) : Prop :=
  unpause s' = unpause s
  /\ stays_off movement_lock s s'
  /\ follower_at s' = follower_at s
  /\ appends (fun o => is_go_op o = false) s s'.

(** Until [unpause] is set the lock has never been taken and the follower
    has not passed its wait. *)
Definition gate_inv (s : State) : Prop :=
  unpause s = false ->
  Forall (fun o => o <> Acquire) (trace s)
  /\ movement_lock s = false
  /\ forall c, follower_at s <> AtAcquire c.



(** The moves that are neither of the follower nor of [recv_android] nor
    from elsewhere. *)
Definition calm (e : event) : bool :=
  match e with
  | EvQueueState _ | EvFollower | EvRecvAndroid _ _ => false
  | _ => true
  end.

(** What a pass of [recv_android] that accepts a start command leaves:
    [unpause] set, the reset queued, the lock and the follower as they
    were. *)
Definition accepted (s s' : State) : Prop :=
  unpause s' = true
  /\ movement_lock s' = movement_lock s
  /\ follower_at s' = follower_at s
  /\ exists ops, trace s' = trace s ++ ops
       /\ Forall (fun o => o <> Acquire) ops
       /\ queued ops = [reset_state].

(** A run in which a directive is queued and taken before any start
    command: the follower is left at its wait. *)
Definition waiting_run : list event :=
  [EvStart env_start_up; EvCommand "FW010"; EvPath here; EvFollower].

Definition waiting_state : State := default init (run waiting_run init).

(** ** Starting and stopping *)

(** The file as it stands: [check_api] is not bound when [start] calls
    it. *)
Definition as_it_stands (e : event) : bool :=
  match e with
  | EvStart env => match check_api env with Unbound => true | Bound _ => false end
  | _ => true
  end.

Definition connected : AndroidMessage :=
  mkAndroidMessage "info" (JStr "You are connected to the RPi!").

Definition ready : AndroidMessage :=
  mkAndroidMessage "info" (JStr "Robot is ready!").

(** The five workers in the order [start] creates them. *)
Definition workers : list worker :=
  [RecvStm32; RecvAndroid; AndroidSender; CommandFollower; RpiAction].

(** What [start] does when [check_api] returns. *)
Definition start_ops : list op :=
  [ LinkConnect; AndroidPut connected;
    ProcNew 0 RecvStm32; ProcStart 0;
    ProcNew 1 RecvAndroid; ProcNew 2 AndroidSender;
    ProcNew 3 CommandFollower; ProcNew 4 RpiAction;
    ProcStart 1; ProcStart 2; ProcStart 3; ProcStart 4;
    Log Info "Child Processes started";
    AndroidPut ready; AndroidPut mode_path ].

Definition after_start (s : State) : State :=
  set_trace (trace s ++ start_ops)
    (set_android_queue (android_queue s ++ [connected; ready; mode_path])
       (set_proc_rpi_action (Some 4)
          (set_proc_command_follower (Some 3)
             (set_proc_android_sender (Some 2)
                (set_proc_recv_android (Some 1)
                   (set_proc_recv_stm32 (Some 0)
                      (set_procs (map (fun w => mkProc w Running) workers)
                         s))))))).

(** Every handle names a process that has been started. *)
Definition handles_started (s : State) : Prop :=
  forall w, exists pid t st,
    handle w s = Some pid /\ procs s !! pid = Some (mkProc t st)
    /\ st <> Initial.



(** No handle moves and no process comes to run. *)
Definition winds_down (s s' : State) : Prop :=
  (forall w, handle w s' = handle w s)
  /\ forall pid, status_of pid s' = Some Running ->
       status_of pid s = Some Running.


(** ** The link alone *)

(** A pass of [receive_thread] that reads a ["0"] line. *)
Definition is_zero_poll (p : poll) : bool :=
  match p with
  | Waiting line => String.eqb (strip line) "0"
  | _ => false
  end.

Definition decodable (p : poll) : bool :=
  match p with WaitingUndecodable => false | _ => true end.

(** The ["0"] lines among what the passes read. *)
Definition zero_polls (ps : list poll) : nat :=
  length (filter (fun p => is_zero_poll p = true) ps).

(** ** The obstacles *)

(** An obstacle [rpi_action] can store: it has an [id], and the [id] can
    be a key of a dict. *)
Definition storable (obs : json) : bool :=
  match getitem obs "id" with
  | inr id => hashable id
  | inl _ => false
  end.

(** The exception the loop of [rpi_action] ends with on an obstacle it
    cannot store. *)
Definition store_error (obs : json) : exn :=
  match getitem obs "id" with
  | inr _ => TypeError
  | inl e => e
  end.

(** [self.obstacles] after one more obstacle, and after a list of them. *)
Definition store_one (d : list (json * json)) (obs : json)
    : list (json * json) :=
  match getitem obs "id" with
  | inr id => dict_set id obs d
  | inl _ => d
  end.

Definition store_all (l : list json) (d : list (json * json))
    : list (json * json) :=
  foldl store_one d l.

(** [d.get(k)] *)
Fixpoint dict_get (k : json) (items : list (json * json)) : option json :=
  match items with
  | [] => None
  | (k', v) :: rest => if key_eqb k k' then Some v else dict_get k rest
  end.

(** A message with two obstacles of the same [id] and one without. *)
Definition obstacle (id : Z) (x : Z) : json :=
  JDict [("id"%string, JNum id); ("x"%string, JNum x)].

Definition obstacles_action (l : list json) : PiAction :=
  mkPiAction "obstacles" (JDict [("obstacles"%string, JList l)]).

(** The process table is in order: before [start] there is no process and
    no handle, after it every handle names a started process. *)
Definition table_inv (s : State) : Prop :=
  (procs s = [] /\ forall w, handle w s = None) \/ handles_started s.

Definition table_kept (s s' : State) : Prop := table_inv s -> table_inv s'.

(** ** A directive from the queue to the controller and back *)







(** ** send_request.py *)

Module SendRequest.

(** What [str.format] raises: [KeyError] for a named field without a
    keyword argument, [IndexError] for a numbered field without a
    positional one, [ValueError] for a brace that stands alone and for a
    mix of numbered and automatic fields.  A field with an attribute, an
    index, a conversion or a format spec is left out of the model. *)
Inductive format_error :=
| FormatKeyError (name : string)
| FormatIndexError
| FormatValueError
| FormatUnmodelled.

(** How the fields seen so far were numbered. *)
Inductive numbering :=
| Unset
| Auto (next : nat)
| Manual.

Fixpoint read_nat (acc : nat) (t : string) : option nat :=
  match t with
  | EmptyString => Some acc
  | String a rest =>
      match Ascii.is_nat a with
      | Some d => read_nat (10 * acc + d) rest
      | None => None
      end
  end.

Fixpoint lookup_keyword (name : string) (kwargs : list (string * pyval))
    : option pyval :=
  match kwargs with
  | [] => None
  | (k, v) :: rest =>
      if String.eqb name k then Some v else lookup_keyword name rest
  end.

(** The value of one replacement field. *)
Definition get_field (args : list pyval) (kwargs : list (string * pyval))
    (name : string) (st : numbering)
    : format_error + (string * numbering) :=
  match name with
  | EmptyString =>
      match st with
      | Manual => inl FormatValueError
      | Unset | Auto _ =>
          let n := match st with Auto n => n | _ => 0 end in
          match args !! n with
          | Some v => inr (format v, Auto (S n))
          | None => inl FormatIndexError
          end
      end
  | _ =>
      match read_nat 0 name with
      | Some n =>
          match st with
          | Auto _ => inl FormatValueError
          | Unset | Manual =>
              match args !! n with
              | Some v => inr (format v, Manual)
              | None => inl FormatIndexError
              end
          end
      | None =>
          match lookup_keyword name kwargs with
          | Some v => inr (format v, st)
          | None => inl (FormatKeyError name)
          end
      end
  end.

Definition special (a : ascii) : bool :=
  Ascii.eqb a "{" || Ascii.eqb a "." || Ascii.eqb a "[" || Ascii.eqb a "!"
  || Ascii.eqb a ":".

Definition prepend (t : string) (r : format_error + string)
    : format_error + string :=
  match r with inl e => inl e | inr u => inr (t +:+ u) end.

(** The template is read from left to right; [field] holds the name of
    the field being read. *)
Fixpoint format_from (args : list pyval) (kwargs : list (string * pyval))
    (t : string) (field : option string) (st : numbering)
    : format_error + string :=
  match t with
  | EmptyString =>
      match field with
      | None => inr EmptyString
      | Some _ => inl FormatValueError
      end
  | String a rest =>
      match field with
      | None =>
          if Ascii.eqb a "{" then
            match rest with
            | String b rest' =>
                if Ascii.eqb b "{" then
                  prepend "{" (format_from args kwargs rest' None st)
                else format_from args kwargs rest (Some EmptyString) st
            | EmptyString => inl FormatValueError
            end
          else if Ascii.eqb a "}" then
            match rest with
            | String b rest' =>
                if Ascii.eqb b "}" then
                  prepend "}" (format_from args kwargs rest' None st)
                else inl FormatValueError
            | EmptyString => inl FormatValueError
            end
          else prepend (String a EmptyString)
                 (format_from args kwargs rest None st)
      | Some name =>
          if Ascii.eqb a "}" then
            match get_field args kwargs name st with
            | inl e => inl e
            | inr (v, st') =>
                prepend v (format_from args kwargs rest None st')
            end
          else if special a then inl FormatUnmodelled
          else format_from args kwargs rest
                 (Some (name +:+ String a EmptyString)) st
      end
  end.

(** [template.format] with positional and keyword arguments. *)
Definition str_format (template : string) (args : list pyval)
    (kwargs : list (string * pyval)) : format_error + string :=
  format_from args kwargs template None Unset.

Definition API_IP : string := "127.0.0.1".
Definition API_PORT : Z := 5000.

(** What [requests.post] does: it answers, with a status code, what
    [response.json()] gives shown as text, and [response.text]; or it
    raises, a [RequestException] or something else, with the text of the
    exception. *)
Inductive post_result :=
| Responds (status_code : Z) (body : exn + string) (text : string)
| PostRaises (request_exception : bool) (e : exn) (shown : string).

(** What the script meets: the file it loads and the service it posts
    to. *)
Record World := mkWorld {
  load : exn + json;
  post : string -> json -> post_result
}.

(** What the script does that can be seen. *)
Inductive out :=
| Posted (url : string) (data : json)
| Printed (text : string).

(** How the script ends when it does not reach its last line. *)
Inductive failure :=
| Uncaught (e : exn)
| FormatFailed (e : format_error).

Definition printed_format (template : string) (args : list pyval)
    (before : list out) : list out * option failure :=
  match str_format template args [] with
  | inr text => (before ++ [Printed text], None)
  | inl e => (before, Some (FormatFailed e))
  end.

(** The script, from its first line to its last. *)
Definition script (w : World) : list out * option failure :=
  match load w with
  | inl e => ([], Some (Uncaught e))
  | inr data =>
      match str_format "http://{API_IP}:{API_PORT}/path"
              [PStr API_IP; PInt API_PORT] [] with
      | inl e => ([], Some (FormatFailed e))
      | inr url =>
          match post w url data with
          | Responds status_code body text =>
              if (status_code =? 200)%Z then
                match body with
                | inr shown =>
                    ([Posted url data; Printed "Request was successful!";
                      Printed "Received response from API:"; Printed shown],
                     None)
                | inl e =>
                    ([Posted url data; Printed "Request was successful!";
                      Printed "Received response from API:"],
                     Some (Uncaught e))
                end
              else
                match printed_format
                        "Failed to get response from API, Status Code:"
                        [PInt status_code] [Posted url data] with
                | (outs, None) => (outs ++ [Printed text], None)
                | r => r
                end
          | PostRaises true e shown =>
              printed_format "Error while sending request:" [PStr shown]
                [Posted url data]
          | PostRaises false e shown =>
              ([Posted url data], Some (Uncaught e))
          end
      end
  end.

(** A template without braces. *)
Definition plain (t : string) : bool :=
  forallb (fun a => negb (Ascii.eqb a "{" || Ascii.eqb a "}"))
    (String.list_ascii_of_string t).

(** A service that answers every request with [200]. *)
Definition service_up (data : json) : World :=
  mkWorld (inr data) (fun _ _ => Responds 200 (inr "{}"%string) "{}").

End SendRequest.

(** * Properties *)

(** ** Python strings *)

Example strip_line :
  strip (String "048" (String "010" EmptyString)) = "0"%string.
Proof. reflexivity. Qed.

Example ljust_short : ljust 5 "ab" = "ab   "%string.
Proof. reflexivity. Qed.

Example ljust_long : ljust 3 "abcde" = "abcde"%string.
Proof. reflexivity. Qed.

Lemma append_cons c (a b : string) : String c a +:+ b = String c (a +:+ b).
Proof. reflexivity. Qed.

Lemma append_empty (t : string) : t +:+ EmptyString = t.
Proof.
  induction t as [|c t IH]; [reflexivity|].
  rewrite append_cons, IH. reflexivity.
Qed.

Lemma length_spaces n : String.length (spaces n) = n.
Proof.
  unfold spaces. induction n as [|n IH]; simpl; [reflexivity|].
  rewrite IH. reflexivity.
Qed.

Lemma string_length_app (a b : string) :
  String.length (a +:+ b) = String.length a + String.length b.
Proof.
  induction a as [|c a IH]; [reflexivity|].
  rewrite append_cons. simpl. rewrite IH. reflexivity.
Qed.

Lemma length_ljust w t :
  String.length (ljust w t) = Nat.max w (String.length t).
Proof. unfold ljust. rewrite string_length_app, length_spaces. lia. Qed.

Lemma ljust_over w t : w <= String.length t -> ljust w t = t.
Proof.
  intros H. unfold ljust. replace (w - String.length t) with 0 by lia.
  apply append_empty.
Qed.

Lemma encode_app a b : encode (a +:+ b) = encode a ++ encode b.
Proof.
  unfold encode. induction a as [|c a IH]; [reflexivity|].
  rewrite append_cons. simpl. rewrite IH, app_assoc. reflexivity.
Qed.

Lemma encode_spaces n : encode (spaces n) = replicate n " "%byte.
Proof.
  unfold encode, spaces. induction n as [|n IH]; simpl; [reflexivity|].
  rewrite IH. reflexivity.
Qed.

Lemma all_ascii_app a b : all_ascii a -> all_ascii b -> all_ascii (a +:+ b).
Proof.
  unfold all_ascii. induction a as [|c a IH]; [tauto|].
  rewrite append_cons. simpl. intros Ha Hb. inversion Ha; subst.
  constructor; auto.
Qed.

Lemma all_ascii_spaces n : all_ascii (spaces n).
Proof.
  unfold all_ascii, spaces. induction n as [|n IH]; simpl; constructor; auto.
Qed.

Lemma length_encode_ascii t :
  all_ascii t -> length (encode t) = String.length t.
Proof.
  unfold all_ascii, encode. induction t as [|c t IH]; simpl; [reflexivity|].
  intros H. inversion H as [|? ? Hc Ht]; subst.
  rewrite length_app, IH by assumption.
  unfold utf8. unfold is_ascii in Hc. rewrite Hc. reflexivity.
Qed.

(** ** The controller link *)

(** Unfolds the calls of a program down to the state they act on. *)
Ltac unfold_calls :=
  unfold receive_thread, send_message, queue_state_transition,
    handle_received_message, state_queue_empty, state_queue_get,
    state_queue_put, command_queue_empty, command_queue_get,
    command_queue_put, path_queue_get_nowait, path_queue_put,
    android_queue_put, android_queue_get_timeout, rpi_action_queue_put,
    rpi_action_queue_get, movement_lock_acquire, movement_lock_release,
    event_set, event_clear, event_wait, set_location, set_pc,
    self_check_api, call_PiAction, android_link_recv, readline_decode,
    try_except, lift, log, print, emit, modify, gets, raise, block in *;
  unfold mbind, mret, M_bind, M_ret in *.

Lemma send_message_eq state motor_speed param scale s :
  let c := mkStateCommand state motor_speed param scale in
  send_message state motor_speed param scale s
  = (Ok tt,
     set_trace
       (trace s ++ [SerWrite (frame_of c);
                    Print ("Sent : " +:+ strip (ljust 30 (text_of c)))]) s).
Proof.
  unfold_calls. destruct s. simpl. rewrite <- !app_assoc. reflexivity.
Qed.

Lemma frame_of_ascii c :
  all_ascii (text_of c) ->
  frame_of c
  = encode (text_of c) ++ replicate (30 - String.length (text_of c)) " "%byte
  /\ length (frame_of c) = Nat.max 30 (String.length (text_of c)).
Proof.
  intros Hc. unfold frame_of. split.
  - unfold ljust. rewrite encode_app, encode_spaces. reflexivity.
  - rewrite length_encode_ascii, length_ljust; [reflexivity|].
    unfold ljust. apply all_ascii_app; [assumption | apply all_ascii_spaces].
Qed.

(** C7, as the code has it: [send_message] writes one frame, the text
    ["<code> <speed> <param> <scale>"] padded with spaces on the right to
    width 30.  For an ASCII text of at most 30 characters the frame is
    exactly 30 bytes; a longer text is written whole and unpadded, so the
    frame is longer than 30 bytes. *)
Theorem send_message_frame (state motor_speed param scale : pyval) (s : State) :
  let c := mkStateCommand state motor_speed param scale in
  all_ascii (text_of c) ->
  send_message state motor_speed param scale s
  = (Ok tt,
     set_trace
       (trace s ++ [SerWrite (frame_of c);
                    Print ("Sent : " +:+ strip (ljust 30 (text_of c)))]) s)
  /\ frame_of c
     = encode (text_of c)
         ++ replicate (30 - String.length (text_of c)) " "%byte
  /\ (String.length (text_of c) <= 30 -> length (frame_of c) = 30)
  /\ (30 < String.length (text_of c) ->
      frame_of c = encode (text_of c)
      /\ length (frame_of c) = String.length (text_of c)).
Proof.
  intros c Hc. destruct (frame_of_ascii c Hc) as [Hf Hl].
  split; [apply send_message_eq|]. split; [exact Hf|]. split.
  - intros Hle. rewrite Hl. lia.
  - intros Hlt. split; [|rewrite Hl; lia].
    unfold frame_of. rewrite ljust_over by lia. reflexivity.
Qed.

Lemma send_message_frame_witness :
  let c := mkStateCommand (PStr "FORWARD_RIGHT") (PInt 3000) (PInt 70)
             (PFloat "1.7") in
  all_ascii (text_of c)
  /\ written (trace (send_message (PStr "FORWARD_RIGHT") (PInt 3000) (PInt 70)
                       (PFloat "1.7") init).2) = [frame_of c]
  /\ length (frame_of c) = 30.
Proof.
  intros c.
  assert (Hc : all_ascii (text_of c)) by (repeat constructor).
  destruct (send_message_frame (PStr "FORWARD_RIGHT") (PInt 3000) (PInt 70)
              (PFloat "1.7") init Hc) as (Hrun & _ & Hfit & _).
  split; [exact Hc|]. split.
  - rewrite Hrun. reflexivity.
  - apply Hfit. vm_compute. lia.
Defined.

(** C7 as stated fails: the frame of [("BACKWARD_RIGHT", 3000, -270.0,
    1.75)] has 31 bytes. *)
Lemma long_text_gives_31_bytes :
  let c := mkStateCommand (PStr "BACKWARD_RIGHT") (PInt 3000)
             (PFloat "-270.0") (PFloat "1.75") in
  written (trace (send_message (PStr "BACKWARD_RIGHT") (PInt 3000)
                    (PFloat "-270.0") (PFloat "1.75") init).2) = [frame_of c]
  /\ length (frame_of c) = 31
  /\ length (frame_of c) <> 30.
Proof. vm_compute. repeat split. discriminate. Qed.

(** C8: on the line ["0"], [receive_thread] takes exactly one tuple off a
    non-empty [state_queue] and sends it, and with an empty queue it sends
    nothing and changes no object; on the line ["1"] it only prints. *)
Theorem receive_thread_zero_one (line0 line1 : string) (s : State) :
  strip line0 = "0" ->
  strip line1 = "1" ->
  (forall c q, state_queue s = c :: q ->
     receive_thread (Waiting line0) s
     = (Ok tt,
        set_trace
          (trace s ++ [LinkLine "0";
                       Print "Received 0 : Previous state completed";
                       StateGet c; SerWrite (frame_of c);
                       Print ("Sent : " +:+ strip (ljust 30 (text_of c)))])
          (set_state_queue q s)))
  /\ (state_queue s = [] ->
      receive_thread (Waiting line0) s
      = (Ok tt,
         set_trace
           (trace s ++ [LinkLine "0";
                        Print "Received 0 : Previous state completed"]) s))
  /\ receive_thread (Waiting line1) s
     = (Ok tt,
        set_trace
          (trace s ++ [LinkLine "1";
                       Print "Received 1 : Current state starting"]) s).
Proof.
  intros H0 H1. repeat split.
  - intros c q Hq. unfold_calls. rewrite H0. destruct s, c. simpl in *.
    subst. simpl. rewrite <- !app_assoc. reflexivity.
  - intros Hq. unfold_calls. rewrite H0. destruct s. simpl in *.
    subst. simpl. rewrite <- !app_assoc. reflexivity.
  - unfold_calls. rewrite H1. destruct s. simpl.
    rewrite <- !app_assoc. reflexivity.
Qed.

Lemma receive_thread_zero_one_witness :
  let line0 := String "048" (String "013" (String "010" EmptyString)) in
  let line1 := String "049" (String "010" EmptyString) in
  let c := mkStateCommand (PStr "FW010") (PInt 0) (PInt 0) (PInt 0) in
  let s := set_state_queue [c; c] init in
  strip line0 = "0" /\ strip line1 = "1"
  /\ state_queue (receive_thread (Waiting line0) s).2 = [c]
  /\ written (trace (receive_thread (Waiting line0) s).2) = [frame_of c]
  /\ objects (receive_thread (Waiting line0) init).2 = objects init
  /\ objects (receive_thread (Waiting line1) s).2 = objects s.
Proof.
  intros line0 line1 c s.
  destruct (receive_thread_zero_one line0 line1 s eq_refl eq_refl)
    as (Hsend & _ & Hone).
  destruct (receive_thread_zero_one line0 line1 init eq_refl eq_refl)
    as (_ & Hnone & _).
  rewrite (Hsend c [c] eq_refl), (Hnone eq_refl), Hone.
  repeat split.
Defined.

(** ** The acknowledgment worker *)

Lemma rs_flag_stays (r : ser_read) (s : State) :
  rs_flag s = true -> rs_flag (recv_stm r s).2 = true.
Proof.
  intros Hrs. unfold recv_stm. unfold_calls.
  destruct s as [? ? ? lk ? ? ? pq ? ? ? ? ? ? ? ? ? ? ? ? ? ?].
  simpl in *. subst.
  destruct r as [line| |]; simpl; try reflexivity.
  destruct (String.prefix "ACK" (strip line)); simpl; [|reflexivity].
  destruct lk; simpl; [|reflexivity].
  destruct pq; reflexivity.
Qed.

(** C3, as the code has it: [recv_stm] starts with [rs_flag] unset; the
    first line that begins with [ACK] sets it and releases nothing, and
    the flag is never unset again.  Every later [ACK] line read while
    [movement_lock] is held releases the lock and pops [path_queue]
    without waiting: with an item, [current_location] takes its [x], [y]
    and [d] and one [location] message is put on [android_queue]; with an
    empty queue a warning is logged and the loop goes on.  An [ACK] line
    read while the lock is not held releases and pops nothing: the failed
    release is logged as an error and the loop goes on. *)
Theorem recv_stm_ack (line : string) (s : State) :
  startswith (strip line) ["ACK"%string] = true ->
  rs_flag init = false
  /\ (forall r, rs_flag s = true -> rs_flag (recv_stm r s).2 = true)
  /\ (rs_flag s = false ->
      recv_stm (ReadLine line) s
      = (Ok tt,
         set_trace
           (trace s ++ [StmLine (strip line);
                        Log Debug "ACK for RS00 from STM32 received."])
           (set_rs_flag true s)))
  /\ (rs_flag s = true -> movement_lock s = true ->
      forall cur q, path_queue s = cur :: q ->
      recv_stm (ReadLine line) s
      = (Ok tt,
         set_trace
           (trace s ++ [StmLine (strip line); Release;
                        Log Debug
                          "ACK from STM32 received, movement lock released.";
                        PathGet cur; Log Info "self.current_location = ";
                        AndroidPut (location_message cur)])
           (set_android_queue (android_queue s ++ [location_message cur])
              (set_current_location
                 (<["d"%string := loc_d cur]>
                    (<["y"%string := loc_y cur]>
                       (<["x"%string := loc_x cur]> (current_location s))))
                 (set_path_queue q (set_movement_lock false s))))))
  /\ (rs_flag s = true -> movement_lock s = true -> path_queue s = [] ->
      recv_stm (ReadLine line) s
      = (Ok tt,
         set_trace
           (trace s ++ [StmLine (strip line); Release;
                        Log Debug
                          "ACK from STM32 received, movement lock released.";
                        Log Warning "Tried to release a released lock!"])
           (set_movement_lock false s)))
  /\ (rs_flag s = true -> movement_lock s = false ->
      recv_stm (ReadLine line) s
      = (Ok tt,
         set_trace
           (trace s ++ [StmLine (strip line);
                        Log Error "Error reading from STM: "]) s)).
Proof.
  intros Hack. split; [reflexivity|]. split; [intros r; apply rs_flag_stays|].
  unfold startswith in Hack. simpl in Hack.
  repeat split.
  - intros Hrs. unfold recv_stm. unfold_calls. simpl. rewrite Hack.
    destruct s. simpl in *. subst. simpl. rewrite <- !app_assoc. reflexivity.
  - intros Hrs Hlock cur q Hq. unfold recv_stm. unfold_calls. simpl.
    rewrite Hack. destruct s. simpl in *. subst. simpl.
    rewrite <- !app_assoc. reflexivity.
  - intros Hrs Hlock Hq. unfold recv_stm. unfold_calls. simpl. rewrite Hack.
    destruct s. simpl in *. subst. simpl. rewrite <- !app_assoc. reflexivity.
  - intros Hrs Hlock. unfold recv_stm. unfold_calls. simpl. rewrite Hack.
    destruct s. simpl in *. subst. simpl. rewrite <- !app_assoc. reflexivity.
Qed.

Lemma recv_stm_ack_witness :
  let s := set_movement_lock true (set_rs_flag true (set_path_queue [here] init)) in
  let s' := (recv_stm (ReadLine "ACK") s).2 in
  startswith (strip "ACK") ["ACK"%string] = true
  /\ movement_lock s' = false
  /\ path_queue s' = []
  /\ current_location s' !! "x"%string = Some (JNum 1)
  /\ android_queue s' = [location_message here].
Proof.
  intros s s'.
  destruct (recv_stm_ack "ACK" s eq_refl) as (_ & _ & _ & Hpop & _).
  unfold s'. rewrite (Hpop eq_refl eq_refl here [] eq_refl).
  repeat split.
Defined.

(** C3 as stated fails: after [start], an item on [path_queue] and a first
    [ACK] line, a second [ACK] line finds the lock free; nothing is
    released, the item stays on the queue, and no message is put. *)
Lemma second_ack_finds_lock_free :
  exists s s',
    run [EvStart env_up; EvPath here; EvRecvStm (ReadLine "ACK")] init = Some s
    /\ rs_flag s = true
    /\ step (EvRecvStm (ReadLine "ACK")) s = Some s'
    /\ path_queue s' = [here]
    /\ current_location s' = ∅
    /\ android_queue s' = android_queue s
    /\ trace s'
       = trace s ++ [StmLine "ACK"; Log Error "Error reading from STM: "].
Proof.
  eexists. eexists. split; [vm_compute; reflexivity|].
  split; [reflexivity|]. split; [vm_compute; reflexivity|].
  repeat split.
Qed.

(** ** The app ingestion *)

Lemma eq_str_true v t : eq_str v t = true -> v = JStr t.
Proof.
  destruct v; simpl; try discriminate.
  intros H. apply String.eqb_eq in H. subst. reflexivity.
Qed.

(** C4 fails on the code: with the service down, [recv_android] puts the
    error and then goes on as if the check had passed.  With a command
    waiting it queues the reset, sets [unpause] and puts [info] and
    [status]; with none it puts a second error. *)
Theorem recv_android_start_api_down (msg_str : string) (s : State) :
  recv_android env_down (RecvStr msg_str) s
  = (Ok tt,
     match command_queue s with
     | _ :: _ =>
         set_trace
           (trace s ++
              [Log Error "API is down! Start command aborted.";
               AndroidPut api_down_error;
               Log Info "Gryo reset!";
               StatePut reset_state;
               EventSet UnpauseEv;
               Log Info "Start command received, starting robot on path!";
               AndroidPut
                 (mkAndroidMessage "info" (JStr "Starting robot on path!"));
               AndroidPut (mkAndroidMessage "status" (JStr "running"))])
           (set_android_queue
              (android_queue s ++
                 [api_down_error;
                  mkAndroidMessage "info" (JStr "Starting robot on path!");
                  mkAndroidMessage "status" (JStr "running")])
              (set_unpause true
                 (set_state_queue (state_queue s ++ [reset_state]) s)))
     | [] =>
         set_trace
           (trace s ++
              [Log Error "API is down! Start command aborted.";
               AndroidPut api_down_error;
               Log Warning
                 "The command queue is empty, please set obstacles.";
               AndroidPut queue_empty_error])
           (set_android_queue
              (android_queue s ++ [api_down_error; queue_empty_error]) s)
     end).
Proof.
  unfold recv_android. unfold_calls.
  destruct s as [? ? ? ? ? ? cq ? ? ? ? ? ? ? ? ? ? ? ? ? ? ?].
  simpl. destruct cq; simpl; rewrite <- !app_assoc; reflexivity.
Qed.

(** C5: a [control]/[start] message that arrives while [command_queue]
    is empty and the service answers puts exactly one [error] message on
    [android_queue] and leaves [unpause] as it was; nothing is queued for
    the controller. *)
Theorem recv_android_start_empty (env : Env) (msg_str : string)
    (message cat value : json) (s : State) :
  json_loads env msg_str = inr message ->
  getitem message "cat" = inr cat ->
  eq_str cat "control" = true ->
  getitem message "value" = inr value ->
  eq_str value "start" = true ->
  check_api env = Bound true ->
  command_queue s = [] ->
  recv_android env (RecvStr msg_str) s
  = (Ok tt,
     set_trace
       (trace s ++
          [Log Warning "The command queue is empty, please set obstacles.";
           AndroidPut queue_empty_error])
       (set_android_queue (android_queue s ++ [queue_empty_error]) s))
  /\ unpause (recv_android env (RecvStr msg_str) s).2 = unpause s
  /\ state_queue (recv_android env (RecvStr msg_str) s).2 = state_queue s.
Proof.
  intros Hloads Hcat Hctl Hval Hstart Hapi Hq.
  apply eq_str_true in Hctl, Hstart. subst cat value.
  assert (Heq : recv_android env (RecvStr msg_str) s
    = (Ok tt,
       set_trace
         (trace s ++
            [Log Warning "The command queue is empty, please set obstacles.";
             AndroidPut queue_empty_error])
         (set_android_queue (android_queue s ++ [queue_empty_error]) s))).
  { unfold recv_android. unfold_calls. simpl.
    rewrite Hloads, Hcat. simpl. rewrite Hval. simpl. rewrite Hapi.
    destruct s. simpl in *. subst. simpl.
    rewrite <- !app_assoc. reflexivity. }
  rewrite Heq. destruct s. repeat split.
Qed.

Lemma recv_android_start_empty_witness :
  let s' := (recv_android env_start_up (RecvStr "start") init).2 in
  command_queue init = []
  /\ android_queue s' = [queue_empty_error]
  /\ unpause s' = false
  /\ state_queue s' = [].
Proof.
  intros s'.
  destruct (recv_android_start_empty env_start_up "start" start_message
              (JStr "control") (JStr "start") init eq_refl eq_refl eq_refl
              eq_refl eq_refl eq_refl eq_refl) as (Heq & Hun & Hsq).
  unfold s'. rewrite Hun, Hsq, Heq. repeat split.
Defined.

Lemma handle_set_procs w l s : handle w (set_procs l s) = handle w s.
Proof. destruct w; reflexivity. Qed.

Lemma exit_worker_stops w s : runs w s = true -> runs w (exit_worker w s) = false.
Proof.
  unfold runs, exit_worker. destruct (handle w s) as [pid|] eqn:Hh;
    [|discriminate].
  intros _. rewrite handle_set_procs, Hh.
  unfold status_of. simpl. rewrite list_lookup_alter_eq.
  destruct (procs s !! pid); reflexivity.
Qed.

Lemma raise_crashes env r e s :
  runs RecvAndroid s = true ->
  recv_android env r s = (Raise e, s) -> crashes env r e s.
Proof.
  intros Hrun Heq. split; [exact Heq|].
  exists (exit_worker RecvAndroid s). simpl. unfold pass.
  rewrite Hrun, Heq. split; [reflexivity | apply exit_worker_stops, Hrun].
Qed.

(** C10: in [recv_android] the only exception that is caught is the
    [OSError] of the receive, which sets [android_dropped] and lets the
    worker go on.  Any other exception of the receive, a payload that
    [json.loads] refuses, an object without the key [cat], and, in the
    file as it stands, the lookup of [PiAction] for [obstacles] and of
    [check_api] for [control]/[start], end the worker. *)
Theorem recv_android_only_oserror (loads : string -> exn + json)
    (s : State) :
  runs RecvAndroid s = true ->
  (forall e, is_OSError e = true ->
     recv_android (source_env loads) (RecvRaises e) s
     = (Ok tt,
        set_trace
          (trace s ++ [EventSet AndroidDroppedEv;
                       Log Debug "Event set: Android connection dropped"])
          (set_android_dropped true s))
     /\ exists s', step (EvRecvAndroid (source_env loads) (RecvRaises e)) s
                   = Some s'
          /\ runs RecvAndroid s' = true)
  /\ (forall e, is_OSError e = false ->
        crashes (source_env loads) (RecvRaises e) e s)
  /\ (forall msg_str e, loads msg_str = inl e ->
        crashes (source_env loads) (RecvStr msg_str) e s)
  /\ (forall msg_str items,
        loads msg_str = inr (JDict items) -> assoc "cat" items = None ->
        crashes (source_env loads) (RecvStr msg_str) KeyError s)
  /\ (forall msg_str message cat,
        loads msg_str = inr message -> getitem message "cat" = inr cat ->
        eq_str cat "obstacles" = true ->
        crashes (source_env loads) (RecvStr msg_str) NameError s)
  /\ (forall msg_str message cat value,
        loads msg_str = inr message -> getitem message "cat" = inr cat ->
        eq_str cat "control" = true ->
        getitem message "value" = inr value ->
        eq_str value "start" = true ->
        crashes (source_env loads) (RecvStr msg_str) AttributeError s).
Proof.
  intros Hrun. repeat apply conj.
  - intros e He.
    assert (Heq : recv_android (source_env loads) (RecvRaises e) s
      = (Ok tt,
         set_trace
           (trace s ++ [EventSet AndroidDroppedEv;
                        Log Debug "Event set: Android connection dropped"])
           (set_android_dropped true s))).
    { unfold recv_android. unfold_calls. simpl. rewrite He.
      destruct s. simpl. rewrite <- !app_assoc. reflexivity. }
    split; [exact Heq|]. eexists. simpl. unfold pass.
    rewrite Hrun, Heq. split; [reflexivity|].
    destruct s. exact Hrun.
  - intros e He. apply raise_crashes; [exact Hrun|].
    unfold recv_android. unfold_calls. simpl. rewrite He. reflexivity.
  - intros msg_str e Hl. apply raise_crashes; [exact Hrun|].
    unfold recv_android. unfold_calls. simpl. rewrite Hl. reflexivity.
  - intros msg_str items Hl Hc. apply raise_crashes; [exact Hrun|].
    unfold recv_android. unfold_calls. simpl. rewrite Hl. simpl.
    rewrite Hc. reflexivity.
  - intros msg_str message cat Hl Hc Ho. apply raise_crashes; [exact Hrun|].
    unfold recv_android. unfold_calls. simpl. rewrite Hl, Hc. simpl.
    rewrite Ho. reflexivity.
  - intros msg_str message cat value Hl Hc Hctl Hv Hst.
    apply raise_crashes; [exact Hrun|].
    apply eq_str_true in Hctl, Hst. subst cat value.
    unfold recv_android. unfold_calls. simpl. rewrite Hl, Hc. simpl.
    rewrite Hv. reflexivity.
Qed.

Lemma recv_android_only_oserror_witness :
  runs RecvAndroid started_state = true
  /\ android_dropped
       (recv_android (source_env loads_three) (RecvRaises OSError)
          started_state).2 = true
  /\ crashes (source_env loads_three) (RecvRaises TypeError) TypeError
       started_state
  /\ crashes (source_env loads_three) (RecvStr "not json") JSONDecodeError
       started_state
  /\ crashes (source_env loads_three) (RecvStr "{}") KeyError started_state
  /\ crashes (source_env loads_three) (RecvStr "obstacles") NameError
       started_state
  /\ crashes (source_env loads_three) (RecvStr "start") AttributeError
       started_state.
Proof.
  destruct (recv_android_only_oserror loads_three started_state eq_refl)
    as (Hos & Hother & Hjson & Hkey & Hname & Hattr).
  split; [reflexivity|].
  split; [rewrite (proj1 (Hos OSError eq_refl)); reflexivity|].
  split; [apply Hother; reflexivity|].
  split; [apply Hjson; reflexivity|].
  split; [apply (Hkey _ []); reflexivity|].
  split.
  - eapply Hname; reflexivity.
  - eapply Hattr; reflexivity.
Defined.

(** ** What the programs leave alone *)

Section Keeps.
Context (R : State -> State -> Prop) `{!Reflexive R} `{!Transitive R}.

Lemma keeps_ret {A} (a : A) : keeps R (mret a).
Proof. intros s. simpl. reflexivity. Qed.

Lemma keeps_raise {A} (e : exn) : keeps R (@raise A e).
Proof. intros s. simpl. reflexivity. Qed.

Lemma keeps_block {A} : keeps R (@block A).
Proof. intros s. simpl. reflexivity. Qed.

Lemma keeps_gets {A} (f : State -> A) : keeps R (gets f).
Proof. intros s. simpl. reflexivity. Qed.

Lemma keeps_lift {A} (r : exn + A) : keeps R (lift r).
Proof. destruct r; [apply keeps_raise | apply keeps_ret]. Qed.

Lemma keeps_assert (b : bool) : keeps R (assert b).
Proof. destruct b; [apply keeps_ret | apply keeps_raise]. Qed.

Lemma keeps_modify (f : State -> State) :
  (forall s, R s (f s)) -> keeps R (modify f).
Proof. intros H s. apply H. Qed.

Lemma keeps_bind {A B} (m : M A) (k : A -> M B) :
  keeps R m -> (forall a, keeps R (k a)) -> keeps R (m ≫= k).
Proof.
  intros Hm Hk s. unfold mbind, M_bind. specialize (Hm s).
  destruct (m s) as [[a|e|] s1]; simpl in *; try exact Hm.
  etransitivity; [exact Hm | apply Hk].
Qed.

Lemma keeps_try_except {A} (body : M A) catches (handler : M A) :
  keeps R body -> keeps R handler ->
  keeps R (try_except body catches handler).
Proof.
  intros Hb Hh s. unfold try_except. specialize (Hb s).
  destruct (body s) as [[a|e|] s1]; simpl in *; try exact Hb.
  destruct (catches e); simpl; [|exact Hb].
  etransitivity; [exact Hb | apply Hh].
Qed.
End Keeps.

Global Instance appends_refl P : Reflexive (appends P).
Proof. intros s. exists []. split; [symmetry; apply app_nil_r | constructor]. Qed.

Global Instance appends_trans P : Transitive (appends P).
Proof.
  intros a b c (o1 & H1 & F1) (o2 & H2 & F2). exists (o1 ++ o2). split.
  - rewrite H2, H1, app_assoc. reflexivity.
  - apply Forall_app. split; assumption.
Qed.

Global Instance same_refl {A} (f : State -> A) : Reflexive (same f).
Proof. intros s. reflexivity. Qed.

Global Instance same_trans {A} (f : State -> A) : Transitive (same f).
Proof. intros a b c H1 H2. unfold same in *. congruence. Qed.

Global Instance lock_untouched_refl : Reflexive lock_untouched.
Proof. intros s. split; reflexivity. Qed.

Global Instance lock_untouched_trans : Transitive lock_untouched.
Proof. intros a b c [H1 H2] [H3 H4]. split; etransitivity; eassumption. Qed.

Global Instance procs_untouched_refl : Reflexive procs_untouched.
Proof. intros s. repeat split. Qed.

Global Instance procs_untouched_trans : Transitive procs_untouched.
Proof.
  intros a b c (H1 & H2 & H3) (H4 & H5 & H6). unfold same in *.
  repeat split; congruence.
Qed.

Lemma queued_app a b : queued (a ++ b) = queued a ++ queued b.
Proof.
  induction a as [|o a IH]; [reflexivity|].
  destruct o; simpl; rewrite IH; reflexivity.
Qed.

Lemma taken_app a b : taken (a ++ b) = taken a ++ taken b.
Proof.
  induction a as [|o a IH]; [reflexivity|].
  destruct o; simpl; rewrite IH; reflexivity.
Qed.

Lemma written_app a b : written (a ++ b) = written a ++ written b.
Proof.
  induction a as [|o a IH]; [reflexivity|].
  destruct o; simpl; rewrite IH; reflexivity.
Qed.

Global Instance link_untouched_refl : Reflexive link_untouched.
Proof.
  intros s. exists []. simpl. rewrite !app_nil_r. repeat split. constructor.
Qed.

Global Instance link_untouched_trans : Transitive link_untouched.
Proof.
  intros a b c (o1 & H1 & F1 & Q1) (o2 & H2 & F2 & Q2). exists (o1 ++ o2).
  split; [rewrite H2, H1, app_assoc; reflexivity|].
  split; [apply Forall_app; split; assumption|].
  rewrite Q2, Q1, queued_app, app_assoc. reflexivity.
Qed.

(** The head constant of a program, to unfold a call into its body. *)
Ltac head_of t :=
  lazymatch t with
  | ?f _ => head_of f
  | _ => t
  end.

Lemma store_obstacles_cons obs rest :
  store_obstacles (obs :: rest)
  = (id ← lift (getitem obs "id");
     (if hashable id then
        modify (fun s => set_obstacles (dict_set id obs (obstacles s)) s)
      else raise TypeError);;
     store_obstacles rest).
Proof. reflexivity. Qed.

(** Walks a program; [leaf] closes the state updates and the operations. *)
Ltac keeps_walk leaf :=
  repeat first
    [ match goal with
      | |- Reflexive _ => apply _
      | |- Transitive _ => apply _
      end
    | solve [leaf]
    | apply keeps_ret | apply keeps_raise | apply keeps_block
    | apply keeps_gets | apply keeps_lift | apply keeps_assert
    | apply keeps_bind;
      try match goal with |- forall _, keeps _ _ => intros ? end
    | apply keeps_try_except
    | match goal with
      | |- keeps _ (match ?x with _ => _ end) => destruct x
      | |- keeps _ ?m =>
          let h := head_of m in
          lazymatch h with
          | store_obstacles => fail
          | _ => progress unfold h
          end
      end ].

(** The lock. *)
Ltac lock_leaf :=
  idtac;
  lazymatch goal with
  | |- keeps _ (modify _) =>
      apply keeps_modify; intros ?; split;
      [reflexivity | exists []; split; [symmetry; apply app_nil_r | constructor]]
  | |- keeps _ (emit _) =>
      intros ?; split;
      [reflexivity | eexists [_]; split; [reflexivity | repeat constructor]]
  end.

Lemma store_obstacles_lock l : keeps lock_untouched (store_obstacles l).
Proof.
  induction l as [|obs l IH]; [apply keeps_ret; apply _|].
  rewrite store_obstacles_cons. keeps_walk lock_leaf. exact IH.
Qed.

Lemma recv_android_lock env r : keeps lock_untouched (recv_android env r).
Proof. unfold recv_android. keeps_walk lock_leaf. Qed.

Lemma android_sender_lock r : keeps lock_untouched (android_sender r).
Proof. unfold android_sender. keeps_walk lock_leaf. Qed.

Lemma rpi_action_lock : keeps lock_untouched rpi_action.
Proof.
  unfold rpi_action. keeps_walk lock_leaf. apply store_obstacles_lock.
Qed.

Lemma receive_thread_lock p : keeps lock_untouched (receive_thread p).
Proof. unfold receive_thread. keeps_walk lock_leaf. Qed.

Lemma reconnect_android_lock : keeps lock_untouched reconnect_android.
Proof. unfold reconnect_android. keeps_walk lock_leaf. Qed.

Lemma start_lock env : keeps lock_untouched (start env).
Proof. unfold start. keeps_walk lock_leaf. Qed.

Lemma stop_lock : keeps lock_untouched stop.
Proof. unfold stop. keeps_walk lock_leaf. Qed.

Lemma queue_state_transition_lock a b c d :
  keeps lock_untouched (queue_state_transition a b c d).
Proof. keeps_walk lock_leaf. Qed.

Lemma command_queue_put_lock c : keeps lock_untouched (command_queue_put c).
Proof. keeps_walk lock_leaf. Qed.

Lemma path_queue_put_lock l : keeps lock_untouched (path_queue_put l).
Proof. keeps_walk lock_leaf. Qed.

(** The processes. *)
Ltac procs_leaf :=
  idtac;
  lazymatch goal with
  | |- keeps _ (modify _) => apply keeps_modify; intros ?; repeat split
  | |- keeps _ (emit _) => intros ?; repeat split
  end.

Lemma store_obstacles_procs l : keeps procs_untouched (store_obstacles l).
Proof.
  induction l as [|obs l IH]; [apply keeps_ret; apply _|].
  rewrite store_obstacles_cons. keeps_walk procs_leaf. exact IH.
Qed.

Lemma recv_android_procs env r : keeps procs_untouched (recv_android env r).
Proof. unfold recv_android. keeps_walk procs_leaf. Qed.

Lemma android_sender_procs r : keeps procs_untouched (android_sender r).
Proof. unfold android_sender. keeps_walk procs_leaf. Qed.

Lemma rpi_action_procs : keeps procs_untouched rpi_action.
Proof.
  unfold rpi_action. keeps_walk procs_leaf. apply store_obstacles_procs.
Qed.

Lemma receive_thread_procs p : keeps procs_untouched (receive_thread p).
Proof. unfold receive_thread. keeps_walk procs_leaf. Qed.

Lemma recv_stm_procs r : keeps procs_untouched (recv_stm r).
Proof. unfold recv_stm. keeps_walk procs_leaf. Qed.

Lemma command_follower_procs : keeps procs_untouched command_follower.
Proof. unfold command_follower. keeps_walk procs_leaf. Qed.

Lemma queue_state_transition_procs a b c d :
  keeps procs_untouched (queue_state_transition a b c d).
Proof. keeps_walk procs_leaf. Qed.

Lemma command_queue_put_procs c : keeps procs_untouched (command_queue_put c).
Proof. keeps_walk procs_leaf. Qed.

Lemma path_queue_put_procs l : keeps procs_untouched (path_queue_put l).
Proof. keeps_walk procs_leaf. Qed.

(** The controller link. *)
Lemma state_queue_put_link c : keeps link_untouched (state_queue_put c).
Proof.
  intros s. exists [StatePut c]. destruct s. simpl.
  repeat split. repeat constructor.
Qed.

Ltac link_leaf :=
  idtac;
  lazymatch goal with
  | |- keeps _ (state_queue_put _) => apply state_queue_put_link
  | |- keeps _ (queue_state_transition _ _ _ _) => apply state_queue_put_link
  | |- keeps _ (modify _) =>
      apply keeps_modify; intros ?; exists []; simpl;
      rewrite !app_nil_r; repeat split; constructor
  | |- keeps _ (emit _) =>
      intros ?; eexists [_];
      split; [reflexivity
             | split; [repeat constructor
                      | simpl; rewrite app_nil_r; reflexivity]]
  end.

Lemma store_obstacles_link l : keeps link_untouched (store_obstacles l).
Proof.
  induction l as [|obs l IH]; [apply keeps_ret; apply _|].
  rewrite store_obstacles_cons. keeps_walk link_leaf. exact IH.
Qed.

Lemma recv_android_link env r : keeps link_untouched (recv_android env r).
Proof. unfold recv_android. keeps_walk link_leaf. Qed.

Lemma android_sender_link r : keeps link_untouched (android_sender r).
Proof. unfold android_sender. keeps_walk link_leaf. Qed.

Lemma rpi_action_link : keeps link_untouched rpi_action.
Proof.
  unfold rpi_action. keeps_walk link_leaf. apply store_obstacles_link.
Qed.

Lemma recv_stm_link r : keeps link_untouched (recv_stm r).
Proof. unfold recv_stm. keeps_walk link_leaf. Qed.

Lemma command_follower_link : keeps link_untouched command_follower.
Proof. unfold command_follower. keeps_walk link_leaf. Qed.

Lemma reconnect_android_link : keeps link_untouched reconnect_android.
Proof. unfold reconnect_android. keeps_walk link_leaf. Qed.

Lemma start_link env : keeps link_untouched (start env).
Proof. unfold start. keeps_walk link_leaf. Qed.

Lemma stop_link : keeps link_untouched stop.
Proof. unfold stop. keeps_walk link_leaf. Qed.

Lemma queue_state_transition_link a b c d :
  keeps link_untouched (queue_state_transition a b c d).
Proof. keeps_walk link_leaf. Qed.

Lemma command_queue_put_link c : keeps link_untouched (command_queue_put c).
Proof. keeps_walk link_leaf. Qed.

Lemma path_queue_put_link l : keeps link_untouched (path_queue_put l).
Proof. keeps_walk link_leaf. Qed.

(** ** Moves of the program *)

Lemma snoc_eq {A} (l tr ops : list A) (o : A) :
  l = tr ++ ops -> l ++ [o] = tr ++ (ops ++ [o]).
Proof. intros ->. rewrite app_assoc. reflexivity. Qed.

(** Closes [l = tr ++ ?ops] for an [l] built from [tr] by appending. *)
Ltac trace_ext := repeat apply snoc_eq; symmetry; apply app_nil_r.

Lemma pass_rel (R : State -> State -> Prop) `{!Transitive R} w m s s' :
  R s (m s).2 -> (forall s1, R s1 (exit_worker w s1)) ->
  pass w m s = Some s' -> R s s'.
Proof.
  unfold pass. intros Hm Hx. destruct (runs w s); [|discriminate].
  destruct (m s) as [[a|e|] s1]; simpl in *; intros H; inversion H; subst.
  - exact Hm.
  - etransitivity; [exact Hm | apply Hx].
Qed.

Lemma main_pass_rel (R : State -> State -> Prop) `{!Transitive R} m s s' :
  R s (m s).2 -> (forall s1, R s1 (set_main_running false s1)) ->
  main_pass m s = Some s' -> R s s'.
Proof.
  unfold main_pass. intros Hm Hx. destruct (main_running s); [|discriminate].
  destruct (m s) as [[a|e|] s1]; simpl in *; intros H; inversion H; subst.
  - exact Hm.
  - etransitivity; [exact Hm | apply Hx].
Qed.

Lemma run_inv (I : State -> Prop) :
  (forall e s s', step e s = Some s' -> I s -> I s') ->
  forall evs s s', run evs s = Some s' -> I s -> I s'.
Proof.
  intros Hstep evs. induction evs as [|e evs IH]; simpl; intros s s' Hrun Hi.
  - inversion Hrun. subst. exact Hi.
  - destruct (step e s) as [s1|] eqn:Hs; [|discriminate].
    eapply IH; [eassumption|]. eapply Hstep; eassumption.
Qed.

(** *** The lock *)

Lemma lock_untouched_exit w s : lock_untouched s (exit_worker w s).
Proof.
  unfold exit_worker. destruct (handle w s); [|reflexivity].
  split; [reflexivity|]. exists []. split; [symmetry; apply app_nil_r|constructor].
Qed.

Lemma lock_untouched_main b s : lock_untouched s (set_main_running b s).
Proof.
  split; [reflexivity|]. exists []. split; [symmetry; apply app_nil_r|constructor].
Qed.

Lemma lock_untouched_thread b s : lock_untouched s (set_thread_running b s).
Proof.
  split; [reflexivity|]. exists []. split; [symmetry; apply app_nil_r|constructor].
Qed.

Lemma recv_stm_not_ack r s :
  is_ack r = false -> lock_untouched s (recv_stm r s).2.
Proof.
  intros Hr. unfold recv_stm. unfold_calls.
  destruct s. destruct r as [line| |]; simpl in *.
  - unfold startswith in Hr. simpl in Hr. rewrite Hr. simpl.
    split; [reflexivity|]. eexists. simpl.
    split; [trace_ext | repeat constructor].
  - split; [reflexivity|]. eexists. simpl.
    split; [trace_ext | repeat constructor].
  - split; [reflexivity|]. eexists. simpl.
    split; [trace_ext | repeat constructor].
Qed.

Lemma follower_blocked c s :
  follower_at s = AtAcquire c -> movement_lock s = true ->
  command_follower s = (Blocked, s).
Proof.
  intros Hpc Hl. unfold command_follower. unfold_calls.
  rewrite Hpc, Hl. reflexivity.
Qed.

Lemma follower_acquires c s :
  follower_at s = AtAcquire c -> movement_lock s = false ->
  command_follower s
  = (Ok tt,
     if startswith c stm32_prefixes then
       set_trace
         (trace s ++ [Acquire;
                      StatePut (mkStateCommand (PStr c) (PInt 0) (PInt 0)
                                  (PInt 0))])
         (set_follower_at AtGet
            (set_state_queue
               (state_queue s ++
                  [mkStateCommand (PStr c) (PInt 0) (PInt 0) (PInt 0)])
               (set_movement_lock true s)))
     else
       set_trace (trace s ++ [Acquire])
         (set_follower_at AtGet (set_movement_lock true s))).
Proof.
  intros Hpc Hl. unfold command_follower. unfold_calls.
  rewrite Hpc, Hl. destruct (startswith c stm32_prefixes); destruct s; simpl;
    rewrite <- ?app_assoc; reflexivity.
Qed.

Lemma follower_lock_held s :
  movement_lock s = true -> lock_untouched s (command_follower s).2.
Proof.
  intros Hl. destruct (follower_at s) as [|c|c] eqn:Hpc.
  - unfold command_follower. unfold_calls. rewrite Hpc.
    destruct s as [? ? ? ? ? ? cq ? ? ? ? ? ? ? ? ? ? ? ? ? ? ?]. simpl.
    destruct cq; simpl; [reflexivity|].
    split; [reflexivity|]. eexists. simpl.
    split; [trace_ext | repeat constructor].
  - unfold command_follower. unfold_calls. rewrite Hpc.
    destruct s as [? un ? ? ? ? ? ? ? ? ? ? ? ? ? ? ? ? ? ? ? ?]. simpl.
    destruct un; simpl.
    + split; [reflexivity|]. eexists. simpl.
      split; [trace_ext | repeat constructor].
    + split; [reflexivity|]. exists []. simpl.
      split; [symmetry; apply app_nil_r | constructor].
  - rewrite (follower_blocked c s Hpc Hl). reflexivity.
Qed.

Lemma recv_stm_first_ack r s :
  rs_flag s = false -> lock_untouched s (recv_stm r s).2.
Proof.
  intros Hrs. destruct (is_ack r) eqn:Hr; [|apply recv_stm_not_ack, Hr].
  destruct r as [line| |]; try discriminate.
  unfold is_ack, startswith in Hr. simpl in Hr.
  unfold recv_stm. unfold_calls.
  destruct s. simpl in *. subst. rewrite Hr. simpl.
  split; [reflexivity|]. eexists. simpl.
  split; [trace_ext | repeat constructor].
Qed.

(** A move that is not the reading of an [ACK] line with [rs_flag] set,
    and that is not a move of the follower while the lock is free, leaves
    the lock alone. *)
Lemma step_lock e s s' :
  step e s = Some s' -> answers e s = false ->
  (e = EvFollower -> movement_lock s = true) ->
  lock_untouched s s'.
Proof.
  intros Hs Hack Hf. unfold answers in Hack. destruct e; simpl in Hs, Hack.
  - destruct (started s); [discriminate|].
    eapply main_pass_rel; [apply _ | apply start_lock
                          | apply lock_untouched_main | exact Hs].
  - eapply main_pass_rel; [apply _ | | apply lock_untouched_main | exact Hs].
    pose proof (keeps_bind lock_untouched stop
                  (fun _ => modify (set_main_running false))) as Hk.
    apply Hk; [apply stop_lock|]. intros _ s1. apply lock_untouched_main.
  - destruct (started s); [|discriminate].
    eapply main_pass_rel; [apply _ | apply reconnect_android_lock
                          | apply lock_untouched_main | exact Hs].
  - eapply pass_rel; [apply _ | apply recv_android_lock
                     | apply lock_untouched_exit | exact Hs].
  - eapply pass_rel; [apply _ | apply android_sender_lock
                     | apply lock_untouched_exit | exact Hs].
  - destruct (stop_thread s).
    + destruct (runs RecvStm32 s); inversion Hs. apply lock_untouched_exit.
    + eapply pass_rel; [apply _ | | apply lock_untouched_exit | exact Hs].
      apply andb_false_iff in Hack as [Hack|Hack];
        [apply recv_stm_not_ack, Hack | apply recv_stm_first_ack, Hack].
  - eapply pass_rel; [apply _ | apply follower_lock_held, Hf; reflexivity
                     | apply lock_untouched_exit | exact Hs].
  - eapply pass_rel; [apply _ | apply rpi_action_lock
                     | apply lock_untouched_exit | exact Hs].
  - destruct (thread_running s); [|discriminate].
    destruct (stop_thread s).
    + inversion Hs. apply lock_untouched_thread.
    + pose proof (receive_thread_lock p s) as Hk.
      destruct (receive_thread p s) as [[a|x|] s1]; simpl in *;
        inversion Hs; subst; [exact Hk|].
      etransitivity; [exact Hk | apply lock_untouched_thread].
  - inversion Hs. apply queue_state_transition_lock.
  - inversion Hs. apply command_queue_put_lock.
  - inversion Hs. apply path_queue_put_lock.
Qed.

Global Instance no_release_refl : Reflexive no_release.
Proof. intros s. split; [tauto | reflexivity]. Qed.

Global Instance no_release_trans : Transitive no_release.
Proof.
  intros a b c [H1 H2] [H3 H4]. split; [tauto|]. etransitivity; eassumption.
Qed.

Lemma lock_untouched_no_release s s' : lock_untouched s s' -> no_release s s'.
Proof.
  intros [Hl (ops & Ht & Hf)]. split; [unfold same in Hl; congruence|].
  exists ops. split; [exact Ht|].
  eapply Forall_impl; [exact Hf|]. intros o Ho ->. discriminate.
Qed.

Lemma follower_no_release s : no_release s (command_follower s).2.
Proof.
  destruct (movement_lock s) eqn:Hl.
  { apply lock_untouched_no_release, follower_lock_held, Hl. }
  destruct (follower_at s) as [|c|c] eqn:Hpc.
  - unfold command_follower. unfold_calls. rewrite Hpc.
    destruct s as [? ? ? ? ? ? cq ? ? ? ? ? ? ? ? ? ? ? ? ? ? ?]. simpl in *.
    destruct cq; simpl; [reflexivity|].
    split; [simpl; auto|]. eexists. simpl.
    split; [trace_ext | repeat constructor; discriminate].
  - unfold command_follower. unfold_calls. rewrite Hpc.
    destruct s as [? un ? ? ? ? ? ? ? ? ? ? ? ? ? ? ? ? ? ? ? ?]. simpl in *.
    destruct un; simpl; [|reflexivity].
    split; [simpl; auto|]. eexists. simpl.
    split; [trace_ext | repeat constructor; discriminate].
  - rewrite (follower_acquires c s Hpc Hl).
    destruct (startswith c stm32_prefixes); simpl;
      (split; [reflexivity|]); eexists; (split; [reflexivity|]);
      repeat constructor; discriminate.
Qed.

Lemma follower_forwards_nothing s :
  (forall c, follower_at s <> AtAcquire c) ->
  appends (fun o => forall c, o <> StatePut c) s (command_follower s).2.
Proof.
  intros Hpc. destruct (follower_at s) as [|c|c] eqn:Hat;
    [| |exfalso; eapply Hpc; reflexivity].
  - unfold command_follower. unfold_calls. rewrite Hat.
    destruct s as [? ? ? ? ? ? cq ? ? ? ? ? ? ? ? ? ? ? ? ? ? ?]. simpl in *.
    destruct cq; simpl; [reflexivity|].
    eexists. simpl. split; [trace_ext | repeat constructor; discriminate].
  - unfold command_follower. unfold_calls. rewrite Hat.
    destruct s as [? un ? ? ? ? ? ? ? ? ? ? ? ? ? ? ? ? ? ? ? ?]. simpl in *.
    destruct un; simpl; [|reflexivity].
    eexists. simpl. split; [trace_ext | repeat constructor; discriminate].
Qed.

Lemma no_release_exit w s : no_release s (exit_worker w s).
Proof. apply lock_untouched_no_release, lock_untouched_exit. Qed.

Lemma step_no_release e s s' :
  step e s = Some s' -> is_ack_event e = false -> no_release s s'.
Proof.
  intros Hs Hack.
  assert (Hf : e = EvFollower -> no_release s s').
  { intros ->. simpl in Hs.
    eapply pass_rel; [apply _ | apply follower_no_release
                     | apply no_release_exit | exact Hs]. }
  destruct e; try (apply Hf; reflexivity);
    apply lock_untouched_no_release; eapply step_lock; try eassumption;
    try discriminate; unfold answers; simpl in *; try rewrite Hack;
    reflexivity.
Qed.

Lemma recv_stm_releases line s :
  is_ack (ReadLine line) = true -> rs_flag s = true ->
  movement_lock s = true ->
  movement_lock (recv_stm (ReadLine line) s).2 = false
  /\ exists ops, trace (recv_stm (ReadLine line) s).2 = trace s ++ ops
       /\ Release ∈ ops.
Proof.
  intros Hack Hrs Hl. unfold is_ack, startswith in Hack. simpl in Hack.
  unfold recv_stm. unfold_calls.
  destruct s as [? ? ? ? ? ? ? pq ? ? ? ? ? ? ? ? ? ? ? ? ? ?].
  simpl in *. subst. rewrite Hack. simpl.
  destruct pq; simpl; (split; [reflexivity|]); eexists;
    (split; [trace_ext|]); simpl; set_solver.
Qed.

(** C1: [command_follower] never gives the lock back: whatever the state,
    a step of it leaves a held lock held and adds no [Release] to the
    history.  Where it forwards a directive it has taken the lock first,
    in the same step, and at its other two blocking calls it forwards
    nothing.  In the whole program, a move that is not the reading of an
    [ACK] line by [recv_stm] gives nothing back either; the reading of an
    [ACK] line, once the first one has been seen, does. *)
Theorem only_ack_releases :
  (forall s, no_release s (command_follower s).2)
  /\ (forall s c, follower_at s = AtAcquire c ->
        if movement_lock s then command_follower s = (Blocked, s)
        else exists s',
          command_follower s = (Ok tt, s')
          /\ movement_lock s' = true
          /\ trace s'
             = trace s ++
                 Acquire ::
                 (if startswith c stm32_prefixes then
                    [StatePut (mkStateCommand (PStr c) (PInt 0) (PInt 0)
                                 (PInt 0))]
                  else []))
  /\ (forall s, (forall c, follower_at s <> AtAcquire c) ->
        appends (fun o => forall c, o <> StatePut c) s
          (command_follower s).2)
  /\ (forall e s s',
        step e s = Some s' -> is_ack_event e = false -> no_release s s')
  /\ (forall line s,
        is_ack (ReadLine line) = true -> rs_flag s = true ->
        movement_lock s = true ->
        movement_lock (recv_stm (ReadLine line) s).2 = false
        /\ exists ops, trace (recv_stm (ReadLine line) s).2 = trace s ++ ops
             /\ Release ∈ ops).
Proof.
  split; [exact follower_no_release|]. split.
  { intros s c Hpc. destruct (movement_lock s) eqn:Hl.
    - apply (follower_blocked c); assumption.
    - eexists. split; [apply (follower_acquires c); assumption|].
      destruct (startswith c stm32_prefixes); destruct s; split; reflexivity. }
  split; [exact follower_forwards_nothing|].
  split; [exact step_no_release | exact recv_stm_releases].
Qed.

(** *** A directive the controller never sees *)

Global Instance held_untouched_refl : Reflexive held_untouched.
Proof. intros s _. reflexivity. Qed.

Global Instance held_untouched_trans : Transitive held_untouched.
Proof.
  intros a b c H1 H2 Ha. specialize (H1 Ha).
  etransitivity; [exact H1|]. apply H2.
  destruct H1 as [Hl _]. unfold same in Hl. congruence.
Qed.

Lemma run_lock_held evs : forall s s',
  unanswered evs s = true -> run evs s = Some s' -> held_untouched s s'.
Proof.
  induction evs as [|e evs IH]; simpl; intros s s' Hok Hrun.
  - inversion Hrun. reflexivity.
  - apply andb_true_iff in Hok as [He Hevs].
    destruct (step e s) as [s1|] eqn:Hs; [|discriminate].
    etransitivity; [|eapply IH; eassumption].
    intros Hl. eapply step_lock; [exact Hs | |intros _; exact Hl].
    destruct (answers e s); [discriminate | reflexivity].
Qed.

Lemma follower_step_blocked c s :
  follower_at s = AtAcquire c -> movement_lock s = true ->
  step EvFollower s = None.
Proof.
  intros Hpc Hl. simpl. unfold pass.
  rewrite (follower_blocked c s Hpc Hl). destruct (runs CommandFollower s); reflexivity.
Qed.

(** C9: a directive with none of the prefixes of [stm32_prefixes] still
    makes [command_follower] take the lock, and nothing is forwarded for
    it.  From then on, as long as [recv_stm] reads no [ACK] line that it
    takes as the answer to a command (the first [ACK] line ever read is
    not one), the lock stays held and is taken by nobody, whatever else
    the program does, and the follower cannot get past the [acquire] of
    any later directive. *)
Theorem unknown_directive_blocks (c : string) (s : State) :
  startswith c stm32_prefixes = false ->
  follower_at s = AtAcquire c ->
  movement_lock s = false ->
  exists s1,
    command_follower s = (Ok tt, s1)
    /\ movement_lock s1 = true
    /\ state_queue s1 = state_queue s
    /\ trace s1 = trace s ++ [Acquire]
    /\ forall evs s',
         unanswered evs s1 = true -> run evs s1 = Some s' ->
         movement_lock s' = true
         /\ appends (fun o => is_lock_op o = false) s1 s'
         /\ forall c', follower_at s' = AtAcquire c' ->
              command_follower s' = (Blocked, s')
              /\ step EvFollower s' = None.
Proof.
  intros Hc Hpc Hl. eexists. split.
  { rewrite (follower_acquires c s Hpc Hl), Hc. reflexivity. }
  split; [destruct s; reflexivity|]. split; [destruct s; reflexivity|].
  split; [destruct s; reflexivity|].
  intros evs s' Hok Hrun.
  destruct (run_lock_held evs _ s' Hok Hrun) as [Hsame Happ];
    [destruct s; reflexivity|].
  assert (Hheld : movement_lock s' = true).
  { unfold same in Hsame. rewrite Hsame. destruct s; reflexivity. }
  split; [exact Hheld|]. split; [exact Happ|].
  intros c' Hpc'. split.
  - apply (follower_blocked c'); assumption.
  - apply (follower_step_blocked c'); assumption.
Qed.

Lemma unknown_directive_blocks_witness :
  startswith "SNAP1" stm32_prefixes = false
  /\ follower_at at_snap = AtAcquire "SNAP1"
  /\ movement_lock at_snap = false
  /\ exists s1,
       command_follower at_snap = (Ok tt, s1)
       /\ movement_lock s1 = true
       /\ state_queue s1 = state_queue at_snap
       /\ trace s1 = trace at_snap ++ [Acquire]
       /\ forall evs s',
            unanswered evs s1 = true -> run evs s1 = Some s' ->
            movement_lock s' = true
            /\ appends (fun o => is_lock_op o = false) s1 s'
            /\ forall c', follower_at s' = AtAcquire c' ->
                 command_follower s' = (Blocked, s')
                 /\ step EvFollower s' = None.
Proof.
  split; [reflexivity|]. split; [reflexivity|]. split; [reflexivity|].
  apply (unknown_directive_blocks "SNAP1" at_snap); reflexivity.
Defined.

(** Such a run, computed: the follower takes the lock for [SNAP1],
    the controller answers the reset and the follower reaches the
    [acquire] for [FW20], where it cannot move. *)
Example snap_then_stuck :
  exists s',
    run [EvFollower; EvReceiveThread (Waiting "0"); EvRecvStm (ReadLine "ACK");
         EvFollower; EvFollower] at_snap = Some s'
    /\ unanswered
         [EvFollower; EvReceiveThread (Waiting "0");
          EvRecvStm (ReadLine "ACK"); EvFollower; EvFollower] at_snap = true
    /\ follower_at s' = AtAcquire "FW20"
    /\ movement_lock s' = true
    /\ step EvFollower s' = None.
Proof.
  eexists. split; [vm_compute; reflexivity|].
  split; [vm_compute; reflexivity|]. repeat split.
Qed.

(** *** The controller link in the whole program *)

Lemma link_untouched_exit w s : link_untouched s (exit_worker w s).
Proof.
  unfold exit_worker. destruct (handle w s); [|reflexivity].
  exists []. simpl. rewrite !app_nil_r. repeat split. constructor.
Qed.

Lemma link_untouched_main b s : link_untouched s (set_main_running b s).
Proof. exists []. simpl. rewrite !app_nil_r. repeat split. constructor. Qed.

Lemma step_link e s s' :
  step e s = Some s' -> (forall p, e <> EvReceiveThread p) ->
  link_untouched s s'.
Proof.
  intros Hs Hne. destruct e; simpl in Hs.
  - destruct (started s); [discriminate|].
    eapply main_pass_rel; [apply _ | apply start_link
                          | apply link_untouched_main | exact Hs].
  - eapply main_pass_rel; [apply _ | | apply link_untouched_main | exact Hs].
    pose proof (keeps_bind link_untouched stop
                  (fun _ => modify (set_main_running false))) as Hk.
    apply Hk; [apply stop_link|]. intros _ s1. apply link_untouched_main.
  - destruct (started s); [|discriminate].
    eapply main_pass_rel; [apply _ | apply reconnect_android_link
                          | apply link_untouched_main | exact Hs].
  - eapply pass_rel; [apply _ | apply recv_android_link
                     | apply link_untouched_exit | exact Hs].
  - eapply pass_rel; [apply _ | apply android_sender_link
                     | apply link_untouched_exit | exact Hs].
  - destruct (stop_thread s).
    + destruct (runs RecvStm32 s); inversion Hs. apply link_untouched_exit.
    + eapply pass_rel; [apply _ | apply recv_stm_link
                       | apply link_untouched_exit | exact Hs].
  - eapply pass_rel; [apply _ | apply command_follower_link
                     | apply link_untouched_exit | exact Hs].
  - eapply pass_rel; [apply _ | apply rpi_action_link
                     | apply link_untouched_exit | exact Hs].
  - exfalso. eapply Hne. reflexivity.
  - inversion Hs. apply queue_state_transition_link.
  - inversion Hs. apply command_queue_put_link.
  - inversion Hs. apply path_queue_put_link.
Qed.

Lemma gate_app n a b : gate n (a ++ b) = gate n a ≫= fun m => gate m b.
Proof.
  revert n. induction a as [|o a IH]; intros n; [reflexivity|].
  destruct o; simpl; try apply IH.
  - destruct (String.eqb message "0"); apply IH.
  - destruct n; [apply IH | reflexivity].
Qed.

Lemma quiet_ops ops :
  Forall (fun o => is_link_op o = false) ops ->
  taken ops = [] /\ written ops = [] /\ forall n, gate n ops = Some n.
Proof.
  induction 1 as [|o ops Ho _ (Ht & Hw & Hg)]; [repeat split|].
  destruct o; try discriminate; simpl; repeat split; assumption.
Qed.

Lemma link_inv_untouched s s' : link_untouched s s' -> link_inv s -> link_inv s'.
Proof.
  intros (ops & Htr & Hq & Hsq) (Hfifo & Hwr & n & Hg & Hn).
  destruct (quiet_ops ops Hq) as (Ht & Hw & Hgq).
  unfold link_inv. rewrite Htr, Hsq, queued_app, taken_app, written_app,
    gate_app, Ht, Hw, Hg, !app_nil_r, Hfifo, app_assoc.
  repeat split; [exact Hwr|]. exists n. simpl. rewrite Hgq. split; [reflexivity|exact Hn].
Qed.

Lemma link_inv_thread b s : link_inv s -> link_inv (set_thread_running b s).
Proof. destruct s. exact id. Qed.

Lemma link_inv_receive_thread p s :
  link_inv s -> link_inv (receive_thread p s).2.
Proof.
  intros (Hfifo & Hwr & n & Hg & Hn). destruct p as [|line|]; try (repeat split; eauto; fail).
  unfold receive_thread. unfold_calls.
  destruct (String.eqb (strip line) "0") eqn:H0.
  - destruct s as [? ? ? ? ? ? ? ? sq ? ? ? ? ? ? ? ? ? ? ? ? tr].
    simpl in *. destruct sq as [|c q]; simpl; unfold link_inv; simpl.
    + rewrite !queued_app, !taken_app, !written_app, !gate_app, Hg.
      simpl. rewrite H0. simpl. rewrite !app_nil_r.
      rewrite app_nil_r in Hfifo.
      repeat split; [exact Hfifo | exact Hwr|]. exists (pred n). split; [reflexivity|lia].
    + rewrite !queued_app, !taken_app, !written_app, !gate_app, Hg.
      simpl. rewrite H0. simpl. rewrite !app_nil_r.
      assert (Hp : pred n = 0) by lia. rewrite Hp. simpl.
      split; [rewrite Hfifo, <- app_assoc; reflexivity|].
      split; [rewrite Hwr, map_app; destruct c; reflexivity|].
      exists 1. split; [reflexivity|lia].
  - destruct (String.eqb (strip line) "1") eqn:H1;
      destruct s; simpl in *; unfold link_inv; simpl;
      rewrite !queued_app, !taken_app, !written_app, !gate_app, Hg;
      simpl; rewrite H0; simpl; rewrite !app_nil_r;
      (repeat split; [exact Hfifo | exact Hwr|]); exists n; split;
      (reflexivity || exact Hn).
Qed.

Lemma link_inv_step e s s' : step e s = Some s' -> link_inv s -> link_inv s'.
Proof.
  intros Hs Hi. destruct e;
    try (eapply link_inv_untouched; [eapply step_link; [exact Hs|discriminate] | exact Hi]).
  simpl in Hs. destruct (thread_running s); [|discriminate].
  destruct (stop_thread s).
  - inversion Hs. apply link_inv_thread, Hi.
  - pose proof (link_inv_receive_thread p s Hi) as Hk.
    destruct (receive_thread p s) as [[a|x|] s1]; simpl in *;
      inversion Hs; subst; [exact Hk | apply link_inv_thread, Hk].
Qed.

Lemma link_inv_init : link_inv init.
Proof. repeat split. exists 0. split; [reflexivity|lia]. Qed.

(** Between two writes a ["0"] line has been read. *)
Lemma gate_between mid : forall m f tr k,
  gate (S m) (mid ++ SerWrite f :: tr) = Some k ->
  LinkLine "0" ∈ mid.
Proof.
  induction mid as [|o mid IH]; intros m f tr k Hg; [discriminate|].
  destruct o; simpl in Hg;
    try (apply list_elem_of_further; eapply IH; exact Hg); [|discriminate].
  destruct (String.eqb message "0") eqn:Hm.
  - apply String.eqb_eq in Hm. subst. apply list_elem_of_here.
  - apply list_elem_of_further. eapply IH. exact Hg.
Qed.

Lemma gate_two_writes n tr1 f1 mid f2 tr2 k :
  gate n (tr1 ++ SerWrite f1 :: mid ++ SerWrite f2 :: tr2) = Some k ->
  LinkLine "0" ∈ mid.
Proof.
  rewrite gate_app. destruct (gate n tr1) as [m|]; [|discriminate].
  simpl. destruct m; [|discriminate]. apply gate_between.
Qed.

(** C2: in every run of the program, the frames written to the serial
    port are those of the first tuples put on [state_queue], in the order
    they were put, the rest being still on the queue; a frame is written
    only when no command is outstanding, so that a ["0"] line is read
    between any two writes; and at most one command is outstanding. *)
Theorem link_fifo_gated (evs : list event) (s : State) :
  run evs init = Some s ->
  (exists sent,
     queued (trace s) = sent ++ state_queue s
     /\ written (trace s) = map frame_of sent)
  /\ (exists n, gate 0 (trace s) = Some n /\ n <= 1)
  /\ (forall tr1 f1 mid f2 tr2,
        trace s = tr1 ++ SerWrite f1 :: mid ++ SerWrite f2 :: tr2 ->
        LinkLine "0" ∈ mid).
Proof.
  intros Hrun.
  destruct (run_inv link_inv link_inv_step evs init s Hrun link_inv_init)
    as (Hfifo & Hwr & n & Hg & Hn).
  split; [exists (taken (trace s)); split; assumption|].
  split; [exists n; split; assumption|].
  intros tr1 f1 mid f2 tr2 Htr. rewrite Htr in Hg.
  eapply gate_two_writes. exact Hg.
Qed.

Lemma link_fifo_gated_witness :
  run link_run init = Some link_state
  /\ (exists sent,
        queued (trace link_state) = sent ++ state_queue link_state
        /\ written (trace link_state) = map frame_of sent)
  /\ (exists n, gate 0 (trace link_state) = Some n /\ n <= 1)
  /\ (forall tr1 f1 mid f2 tr2,
        trace link_state = tr1 ++ SerWrite f1 :: mid ++ SerWrite f2 :: tr2 ->
        LinkLine "0" ∈ mid).
Proof.
  split; [vm_compute; reflexivity|].
  apply (link_fifo_gated link_run link_state). vm_compute. reflexivity.
Defined.

Example link_run_written :
  written (trace link_state) = map frame_of (take 2 test_states)
  /\ state_queue link_state = drop 2 test_states.
Proof. split; vm_compute; reflexivity. Qed.

(** ** The reconnection supervisor *)

Lemma bind_step {A B} (m : M A) (k : A -> M B) s a s1 r :
  m s = (Ok a, s1) -> k a s1 = r -> (m ≫= k) s = r.
Proof. intros H <-. unfold mbind, M_bind. rewrite H. reflexivity. Qed.

Lemma on_handle_some {A} (h : State -> option nat) (f : nat -> M A) s pid :
  h s = Some pid -> on_handle h f s = f pid s.
Proof. intros H. unfold on_handle. unfold_calls. rewrite H. reflexivity. Qed.

Lemma length_kill_list pid l : length (kill_list pid l) = length l.
Proof.
  unfold kill_list. destruct (status <$> l !! pid) as [[]|];
    rewrite ?length_alter; reflexivity.
Qed.

Lemma length_join_list pid l : length (join_list pid l) = length l.
Proof.
  unfold join_list. destruct (status <$> l !! pid) as [[]|];
    rewrite ?length_alter; reflexivity.
Qed.

Lemma kill_list_ne pid j l : pid <> j -> kill_list pid l !! j = l !! j.
Proof.
  intros H. unfold kill_list. destruct (status <$> l !! pid) as [[]|];
    rewrite ?list_lookup_alter_ne by exact H; reflexivity.
Qed.

Lemma join_list_ne pid j l : pid <> j -> join_list pid l !! j = l !! j.
Proof.
  intros H. unfold join_list. destruct (status <$> l !! pid) as [[]|];
    rewrite ?list_lookup_alter_ne by exact H; reflexivity.
Qed.

Lemma kill_list_eq pid t st l :
  l !! pid = Some (mkProc t st) ->
  kill_list pid l !! pid = Some (mkProc t (kill_status st)).
Proof.
  intros H. unfold kill_list. rewrite H. destruct st; simpl; try exact H.
  rewrite list_lookup_alter_eq, H. reflexivity.
Qed.

Lemma join_list_eq pid t st l :
  l !! pid = Some (mkProc t st) ->
  join_list pid l !! pid = Some (mkProc t (join_status st)).
Proof.
  intros H. unfold join_list. rewrite H. destruct st; simpl; try exact H.
  rewrite list_lookup_alter_eq, H. reflexivity.
Qed.

Lemma process_kill_eq pid t st s :
  procs s !! pid = Some (mkProc t st) -> st <> Initial ->
  process_kill pid s
  = (Ok tt,
     set_trace (trace s ++ [ProcKill pid])
       (set_procs (kill_list pid (procs s)) s)).
Proof.
  intros H Hst. unfold process_kill, signal, set_status, status_of, kill_list.
  unfold_calls. rewrite H. destruct s, st; simpl; first [reflexivity | congruence].
Qed.

Lemma process_join_eq pid t st s :
  procs s !! pid = Some (mkProc t st) -> st <> Initial -> st <> Running ->
  process_join pid s
  = (Ok tt,
     set_trace (trace s ++ [ProcJoin pid])
       (set_procs (join_list pid (procs s)) s)).
Proof.
  intros H Hst Hr. unfold process_join, set_status, status_of, join_list.
  unfold_calls. rewrite H. destruct s, st; simpl; first [reflexivity | congruence].
Qed.

Lemma process_is_alive_exited pid t s :
  procs s !! pid = Some (mkProc t Exited) ->
  process_is_alive pid s = (Ok false, s).
Proof.
  intros H. unfold process_is_alive, status_of. unfold_calls.
  rewrite H. reflexivity.
Qed.

Lemma process_start_eq pid t s :
  procs s !! pid = Some (mkProc t Initial) ->
  process_start pid s
  = (Ok tt,
     set_trace (trace s ++ [ProcStart pid])
       (set_procs (alter (with_status Running) pid (procs s)) s)).
Proof.
  intros H. unfold process_start, set_status, status_of. unfold_calls.
  rewrite H. destruct s. reflexivity.
Qed.

Lemma kill_join_status st :
  st <> Initial -> join_status (kill_status st) = Exited.
Proof. destruct st; simpl; congruence. Qed.

Lemma kill_status_started st :
  st <> Initial ->
  kill_status st <> Initial /\ kill_status st <> Running.
Proof. destruct st; simpl; split; congruence. Qed.

Lemma torn_down_length pr ps l : length (torn_down pr ps l) = length l.
Proof.
  unfold torn_down.
  rewrite !length_join_list, !length_kill_list. reflexivity.
Qed.

Lemma torn_down_other pr ps l j :
  j <> pr -> j <> ps -> torn_down pr ps l !! j = l !! j.
Proof.
  intros Hr Hs. unfold torn_down.
  rewrite !join_list_ne, !kill_list_ne by congruence. reflexivity.
Qed.

Lemma torn_down_recv pr ps l st :
  pr <> ps -> l !! pr = Some (mkProc RecvAndroid st) -> st <> Initial ->
  torn_down pr ps l !! pr = Some (mkProc RecvAndroid Exited).
Proof.
  intros Hne H Hst. unfold torn_down.
  erewrite join_list_eq;
    [rewrite kill_join_status by exact Hst; reflexivity|].
  rewrite join_list_ne by congruence. apply kill_list_eq.
  rewrite kill_list_ne by congruence. exact H.
Qed.

Lemma torn_down_send pr ps l st :
  pr <> ps -> l !! ps = Some (mkProc AndroidSender st) -> st <> Initial ->
  torn_down pr ps l !! ps = Some (mkProc AndroidSender Exited).
Proof.
  intros Hne H Hst. unfold torn_down.
  rewrite join_list_ne by congruence.
  erewrite join_list_eq;
    [rewrite kill_join_status by exact Hst; reflexivity|].
  rewrite kill_list_ne by congruence. apply kill_list_eq. exact H.
Qed.

(** Runs the first call of a sequence and brings the state it leaves
    back to a record of fields. *)
Ltac norm_state :=
  cbv beta;
  lazymatch goal with
  | |- ?f ?st = ?r =>
      let st' := eval cbv beta iota delta
       [
android_dropped unpause stop_thread movement_lock android_queue
        rpi_action_queue command_queue path_queue state_queue rs_flag
        obstacles current_location procs proc_recv_android proc_recv_stm32
        proc_android_sender proc_command_follower proc_rpi_action
        main_running thread_running follower_at trace set_android_dropped
        set_unpause set_stop_thread set_movement_lock set_android_queue
        set_rpi_action_queue set_command_queue set_path_queue
        set_state_queue set_rs_flag set_obstacles set_current_location
        set_procs set_proc_recv_android set_proc_recv_stm32
        set_proc_android_sender set_proc_command_follower
        set_proc_rpi_action set_main_running set_thread_running
        set_follower_at set_trace set_event is_set ] in st in
      change (f st' = r)
  end.

Ltac run_call tac := eapply bind_step; [tac | norm_state].

Lemma lookup_new_first {A} (l : list A) a b :
  ((l ++ [a]) ++ [b]) !! length l = Some a.
Proof. rewrite <- app_assoc. apply list_lookup_middle. reflexivity. Qed.

Lemma lookup_new_second {A} (f : A -> A) (l : list A) a b :
  alter f (length l) ((l ++ [a]) ++ [b]) !! length (l ++ [a]) = Some b.
Proof.
  rewrite list_lookup_alter_ne by (rewrite length_app; simpl; lia).
  apply list_lookup_middle. reflexivity.
Qed.

Lemma alter_new_both {A} (f : A -> A) (l : list A) a b :
  alter f (length (l ++ [a])) (alter f (length l) ((l ++ [a]) ++ [b]))
  = l ++ [f a; f b].
Proof.
  rewrite <- app_assoc. simpl.
  rewrite (alter_app_r_alt f l (a :: [b]) (length l)) by lia.
  rewrite Nat.sub_diag. simpl.
  rewrite length_app. simpl.
  rewrite (alter_app_r_alt f l (f a :: [b]) (length l + 1)) by lia.
  replace (length l + 1 - length l) with 1 by lia. reflexivity.
Qed.

Lemma reconnect_android_eq s pr ps st_r st_s :
  android_dropped s = true ->
  proc_recv_android s = Some pr -> proc_android_sender s = Some ps ->
  pr <> ps ->
  procs s !! pr = Some (mkProc RecvAndroid st_r) -> st_r <> Initial ->
  procs s !! ps = Some (mkProc AndroidSender st_s) -> st_s <> Initial ->
  reconnect_android s = (Ok tt, after_cycle pr ps s).
Proof.
  intros Hflag Hhr Hhs Hne Hr Hstr Hs Hsts.
  destruct (kill_status_started st_r Hstr) as [Hkr1 Hkr2].
  destruct (kill_status_started st_s Hsts) as [Hks1 Hks2].
  destruct s as [? ? ? ? aq ? ? ? ? ? ? ? l ? ? ? ? ? ? ? ? tr].
  simpl in *. subst.
  unfold reconnect_android.
  run_call ltac:(reflexivity).
  do 2 run_call ltac:(reflexivity).
  run_call ltac:(rewrite on_handle_some with (pid := ps) by reflexivity;
                 eapply process_kill_eq; [exact Hs | exact Hsts]).
  run_call ltac:(rewrite on_handle_some with (pid := pr) by reflexivity;
                 eapply process_kill_eq; [|exact Hstr];
                 simpl; rewrite kill_list_ne by congruence; exact Hr).
  run_call ltac:(rewrite on_handle_some with (pid := ps) by reflexivity;
                 eapply process_join_eq; [|exact Hks1|exact Hks2];
                 simpl; rewrite kill_list_ne by congruence;
                 apply kill_list_eq; exact Hs).
  run_call ltac:(rewrite on_handle_some with (pid := pr) by reflexivity;
                 eapply process_join_eq; [|exact Hkr1|exact Hkr2];
                 simpl; rewrite join_list_ne by congruence;
                 apply kill_list_eq; rewrite kill_list_ne by congruence;
                 exact Hr).
  run_call ltac:(rewrite on_handle_some with (pid := ps) by reflexivity;
                 eapply process_is_alive_exited; simpl;
                 apply (torn_down_send pr ps _ st_s Hne Hs Hsts)).
  run_call ltac:(reflexivity).
  run_call ltac:(rewrite on_handle_some with (pid := pr) by reflexivity;
                 eapply process_is_alive_exited; simpl;
                 apply (torn_down_recv pr ps _ st_r Hne Hr Hstr)).
  do 4 run_call ltac:(reflexivity).
  fold (torn_down pr ps l).
  do 4 run_call ltac:(reflexivity).
  run_call ltac:(erewrite on_handle_some by reflexivity;
                 eapply process_start_eq; simpl; apply lookup_new_first).
  run_call ltac:(erewrite on_handle_some by reflexivity;
                 eapply process_start_eq; simpl; apply lookup_new_second).
  do 3 run_call ltac:(reflexivity).
  unfold event_clear. unfold_calls. unfold after_cycle, cycle_ops. simpl.
  rewrite alter_new_both, length_app, torn_down_length. simpl.
  rewrite <- !app_assoc. simpl.
  replace (length l + 1) with (S (length l)) by lia. reflexivity.
Qed.

Lemma reconnect_android_blocked s :
  android_dropped s = false -> reconnect_android s = (Blocked, s).
Proof.
  intros H. unfold reconnect_android, event_wait. unfold_calls. simpl.
  rewrite H. reflexivity.
Qed.

Lemma pair_running_ok s : pair_running s -> pair_ok s.
Proof.
  intros (pr & ps & H1 & H2 & H3 & H4 & H5 & H6).
  exists pr, ps, Running, Running. repeat split; try assumption; discriminate.
Qed.

Lemma pair_running_after pr ps st_r st_s s :
  proc_recv_android s = Some pr -> proc_android_sender s = Some ps ->
  pr <> ps ->
  procs s !! pr = Some (mkProc RecvAndroid st_r) -> st_r <> Initial ->
  procs s !! ps = Some (mkProc AndroidSender st_s) -> st_s <> Initial ->
  (forall i p, procs s !! i = Some p -> app_target (target p) = true ->
     i <> pr -> i <> ps -> status p = Exited) ->
  pair_running (after_cycle pr ps s).
Proof.
  intros Hhr Hhs Hne Hr Hstr Hs Hsts Hothers.
  exists (length (procs s)), (S (length (procs s))).
  destruct s as [? ? ? ? ? ? ? ? ? ? ? ? l ? ? ? ? ? ? ? ? ?]. simpl in *.
  split; [reflexivity|]. split; [reflexivity|]. split; [lia|].
  split; [apply list_lookup_middle; rewrite torn_down_length; reflexivity|].
  split.
  { rewrite (lookup_app_r (torn_down pr ps l))
      by (rewrite torn_down_length; lia).
    rewrite torn_down_length.
    replace (S (length l) - length l) with 1 by lia. reflexivity. }
  intros i p Hi Hp Hi1 Hi2.
  assert (Hlt : i < length l).
  { apply lookup_lt_Some in Hi. rewrite length_app, torn_down_length in Hi.
    simpl in Hi. lia. }
  rewrite lookup_app_l in Hi by (rewrite torn_down_length; exact Hlt).
  destruct (decide (i = pr)) as [->|Hipr].
  { rewrite (torn_down_recv pr ps l st_r Hne Hr Hstr) in Hi.
    inversion Hi. reflexivity. }
  destruct (decide (i = ps)) as [->|Hips].
  { rewrite (torn_down_send pr ps l st_s Hne Hs Hsts) in Hi.
    inversion Hi. reflexivity. }
  rewrite torn_down_other in Hi by assumption.
  eapply Hothers; eassumption.
Qed.

Lemma filter_none {A} (P : A -> bool) (l : list A) :
  (forall i q, l !! i = Some q -> P q = false) ->
  filter (fun p => P p = true) l = [].
Proof.
  induction l as [|x l IH]; intros H; [reflexivity|].
  rewrite filter_cons_False.
  - apply IH. intros i q Hq. apply (H (S i)). exact Hq.
  - rewrite (H 0 x eq_refl). discriminate.
Qed.

Lemma count_one {A} (P : A -> bool) (l : list A) : forall k p,
  l !! k = Some p -> P p = true ->
  (forall i q, l !! i = Some q -> i <> k -> P q = false) ->
  length (filter (fun p => P p = true) l) = 1.
Proof.
  induction l as [|x l IH]; intros k p Hk Hp Hothers; [discriminate|].
  destruct k as [|k].
  - inversion Hk. subst x. rewrite filter_cons_True by exact Hp.
    rewrite filter_none; [reflexivity|].
    intros i q Hq. apply (Hothers (S i)); [exact Hq | discriminate].
  - rewrite filter_cons_False.
    + apply (IH k p Hk Hp). intros i q Hq Hne.
      apply (Hothers (S i)); [exact Hq | congruence].
    + rewrite (Hothers 0 x eq_refl); discriminate.
Qed.

Lemma pair_running_live s :
  pair_running s -> live RecvAndroid s = 1 /\ live AndroidSender s = 1.
Proof.
  intros (pr & ps & _ & _ & Hne & Hr & Hs & Hothers). unfold live. split.
  - apply (count_one (is_live RecvAndroid) _ pr _ Hr); [reflexivity|].
    intros i q Hq Hi. destruct (decide (i = ps)) as [->|Hips].
    { rewrite Hs in Hq. inversion Hq. reflexivity. }
    destruct q as [t st]. destruct t; try reflexivity.
    pose proof (Hothers i _ Hq eq_refl Hi Hips) as Hex. simpl in Hex.
    subst st. reflexivity.
  - apply (count_one (is_live AndroidSender) _ ps _ Hs); [reflexivity|].
    intros i q Hq Hi. destruct (decide (i = pr)) as [->|Hipr].
    { rewrite Hr in Hq. inversion Hq. reflexivity. }
    destruct q as [t st]. destruct t; try reflexivity.
    pose proof (Hothers i _ Hq eq_refl Hipr Hi) as Hex. simpl in Hex.
    subst st. reflexivity.
Qed.

(** A change of status that keeps the pair in order: to [Exited], or of a
    running process to any status of a started process. *)
Lemma pair_ok_alter st' pid s :
  st' <> Initial ->
  (st' = Exited \/ exists t, procs s !! pid = Some (mkProc t Running)) ->
  pair_ok s ->
  pair_ok (set_procs (alter (with_status st') pid (procs s)) s).
Proof.
  intros Hst' Hcase (pr & ps & st_r & st_s & Hhr & Hhs & Hne & Hr & Hstr
                      & Hs & Hsts & Hothers).
  exists pr, ps, (if decide (pid = pr) then st' else st_r),
    (if decide (pid = ps) then st' else st_s).
  destruct s as [? ? ? ? ? ? ? ? ? ? ? ? l ? ? ? ? ? ? ? ? ?]. simpl in *.
  split; [exact Hhr|]. split; [exact Hhs|]. split; [exact Hne|].
  split; [rewrite list_lookup_alter; destruct (decide (pid = pr));
          [subst; rewrite Hr; reflexivity | exact Hr]|].
  split; [destruct (decide (pid = pr)); assumption|].
  split; [rewrite list_lookup_alter; destruct (decide (pid = ps));
          [subst; rewrite Hs; reflexivity | exact Hs]|].
  split; [destruct (decide (pid = ps)); assumption|].
  intros i p Hi Hp Hi1 Hi2. rewrite list_lookup_alter in Hi.
  destruct (decide (pid = i)) as [->|Hpid]; [|eapply Hothers; eassumption].
  destruct (l !! i) as [q|] eqn:Hq; [|discriminate].
  inversion Hi. subst p. simpl in *.
  pose proof (Hothers i q Hq Hp Hi1 Hi2) as Hex.
  destruct Hcase as [->|(t & Ht)]; [reflexivity|].
  inversion Ht. subst q. discriminate.
Qed.

Lemma pair_inv_alter st' pid s :
  st' <> Initial ->
  (st' = Exited \/ exists t, procs s !! pid = Some (mkProc t Running)) ->
  pair_inv s ->
  pair_inv (set_procs (alter (with_status st') pid (procs s)) s).
Proof.
  intros Hst' Hcase [Hnil|Hok].
  - left. destruct s. simpl in *. subst. reflexivity.
  - right. apply pair_ok_alter; assumption.
Qed.

Lemma pair_inv_untouched s s' :
  procs_untouched s s' -> pair_inv s -> pair_inv s'.
Proof.
  intros (Hp & Hr & Hs). unfold same in *. unfold pair_inv, pair_ok.
  rewrite Hp, Hr, Hs. exact id.
Qed.

Lemma pair_inv_exit w s : pair_inv s -> pair_inv (exit_worker w s).
Proof.
  intros H. unfold exit_worker. destruct (handle w s); [|exact H].
  apply (pair_inv_alter Exited); [discriminate | left; reflexivity | exact H].
Qed.

Global Instance pair_kept_refl : Reflexive pair_kept.
Proof. intros s. exact id. Qed.

Global Instance pair_kept_trans : Transitive pair_kept.
Proof. intros a b c H1 H2 Ha. apply H2, H1, Ha. Qed.

Lemma signal_pair o pid : keeps pair_kept (signal o pid).
Proof.
  intros s Hi. unfold signal, set_status, status_of. unfold_calls.
  destruct (procs s !! pid) as [[t st]|] eqn:Hp; simpl; [|exact Hi].
  destruct st; simpl; try (destruct s; exact Hi).
  assert (Hk : pair_inv
                 (set_procs (alter (with_status Signalled) pid (procs s)) s)).
  { apply pair_inv_alter; [discriminate | right; exists t; exact Hp | exact Hi]. }
  destruct s. exact Hk.
Qed.

Ltac pair_leaf :=
  idtac;
  lazymatch goal with
  | |- keeps _ (signal _ _) => apply signal_pair
  | |- keeps _ (process_terminate _) => apply signal_pair
  | |- keeps _ (modify _) => apply keeps_modify; intros ? H; exact H
  | |- keeps _ (emit _) => intros [] H; exact H
  end.

Lemma stop_pair : keeps pair_kept stop.
Proof. unfold stop. keeps_walk pair_leaf. Qed.

Lemma start_pair env s : procs s = [] -> pair_inv (start env s).2.
Proof.
  intros Hnil. unfold start, self_check_api.
  destruct s as [? ? ? ? ? ? ? ? ? ? ? ? l ? ? ? ? ? ? ? ? ?].
  simpl in Hnil. subst l. destruct (check_api env) as [|b].
  - left. reflexivity.
  - right. exists 1, 2, Running, Running. simpl.
    repeat split; try discriminate.
    intros i p Hi Hp Hi1 Hi2.
    destruct i as [|[|[|[|[|i]]]]]; simpl in Hi; inversion Hi; subst;
      try discriminate; congruence.
Qed.

Lemma untouched_kept s s' : procs_untouched s s' -> pair_kept s s'.
Proof. intros H. exact (pair_inv_untouched s s' H). Qed.

Lemma pair_kept_main b s : pair_kept s (set_main_running b s).
Proof. destruct s. exact id. Qed.

Lemma pair_kept_thread b s : pair_kept s (set_thread_running b s).
Proof. destruct s. exact id. Qed.

Lemma pair_kept_exit w s : pair_kept s (exit_worker w s).
Proof. exact (pair_inv_exit w s). Qed.

Lemma started_pair_ok s : started s = true -> pair_inv s -> pair_ok s.
Proof.
  unfold started. intros Hst [Hnil|Hok]; [|exact Hok].
  rewrite Hnil in Hst. discriminate.
Qed.

Lemma supervisor_step s s' :
  step EvSupervisor s = Some s' -> pair_ok s ->
  android_dropped s = true
  /\ exists pr ps,
       proc_recv_android s = Some pr /\ proc_android_sender s = Some ps
       /\ s' = after_cycle pr ps s /\ pair_running s'.
Proof.
  intros Hs (pr & ps & st_r & st_s & Hhr & Hhs & Hne & Hr & Hstr & Hp & Hsts
             & Hothers).
  simpl in Hs. destruct (started s); [|discriminate].
  unfold main_pass in Hs. destruct (main_running s); [|discriminate].
  destruct (android_dropped s) eqn:Hflag.
  - split; [reflexivity|]. exists pr, ps.
    rewrite (reconnect_android_eq s pr ps st_r st_s) in Hs by assumption.
    inversion Hs. subst s'. repeat split; try assumption.
    eapply pair_running_after; eassumption.
  - rewrite (reconnect_android_blocked s Hflag) in Hs. discriminate.
Qed.

Lemma pair_inv_step e s s' : step e s = Some s' -> pair_inv s -> pair_inv s'.
Proof.
  intros Hs. change (pair_kept s s'). destruct e; simpl in Hs.
  - destruct (started s) eqn:Hst; [discriminate|].
    eapply main_pass_rel; [apply _ | | apply pair_kept_main | exact Hs].
    intros _. apply start_pair. unfold started in Hst.
    destruct (procs s); [reflexivity | discriminate].
  - eapply main_pass_rel; [apply _ | | apply pair_kept_main | exact Hs].
    pose proof (keeps_bind pair_kept stop
                  (fun _ => modify (set_main_running false))) as Hk.
    apply Hk; [apply stop_pair|]. intros _ s1. apply pair_kept_main.
  - intros Hi. destruct (started s) eqn:Hst; [|discriminate].
    assert (Hstep : step EvSupervisor s = Some s') by (simpl; rewrite Hst; exact Hs).
    destruct (supervisor_step s s' Hstep (started_pair_ok s Hst Hi))
      as (_ & pr & ps & _ & _ & _ & Hrun).
    right. apply pair_running_ok, Hrun.
  - eapply pass_rel; [apply _ | apply untouched_kept, recv_android_procs
                     | apply pair_kept_exit | exact Hs].
  - eapply pass_rel; [apply _ | apply untouched_kept, android_sender_procs
                     | apply pair_kept_exit | exact Hs].
  - destruct (stop_thread s).
    + destruct (runs RecvStm32 s); inversion Hs. apply pair_kept_exit.
    + eapply pass_rel; [apply _ | apply untouched_kept, recv_stm_procs
                       | apply pair_kept_exit | exact Hs].
  - eapply pass_rel; [apply _ | apply untouched_kept, command_follower_procs
                     | apply pair_kept_exit | exact Hs].
  - eapply pass_rel; [apply _ | apply untouched_kept, rpi_action_procs
                     | apply pair_kept_exit | exact Hs].
  - destruct (thread_running s); [|discriminate].
    destruct (stop_thread s).
    + inversion Hs. apply pair_kept_thread.
    + pose proof (untouched_kept _ _ (receive_thread_procs p s)) as Hk.
      destruct (receive_thread p s) as [[a|x|] s1]; simpl in *;
        inversion Hs; subst; [exact Hk|].
      etransitivity; [exact Hk | apply pair_kept_thread].
  - inversion Hs. apply untouched_kept, queue_state_transition_procs.
  - inversion Hs. apply untouched_kept, command_queue_put_procs.
  - inversion Hs. apply untouched_kept, path_queue_put_procs.
Qed.

Lemma pair_inv_init : pair_inv init.
Proof. left. reflexivity. Qed.

(** C6: whatever the program has done so far, and however many times the
    link has dropped before, once [android_dropped] is set a pass of
    [reconnect_android] completes.  It kills and joins exactly the two
    processes named by [proc_android_sender] and [proc_recv_android],
    which are gone afterwards, every other process being left as it was;
    it disconnects and connects the link, creates and starts one new
    receiver and one new sender, puts the reconnect notice and the mode
    message on [android_queue], and clears [android_dropped] once, as its
    last operation.  Afterwards exactly one receiver and one sender are
    live. *)
Theorem reconnect_cycle (evs : list event) (s : State) :
  run evs init = Some s ->
  started s = true -> main_running s = true -> android_dropped s = true ->
  exists pr ps s',
    proc_recv_android s = Some pr /\ proc_android_sender s = Some ps
    /\ step EvSupervisor s = Some s'
    /\ s' = after_cycle pr ps s
    /\ trace s' = trace s ++ cycle_ops pr ps (length (procs s))
    /\ android_queue s' = android_queue s ++ [reconnected; mode_path]
    /\ android_dropped s' = false
    /\ proc_recv_android s' = Some (length (procs s))
    /\ proc_android_sender s' = Some (S (length (procs s)))
    /\ (exists t, procs s' !! pr = Some (mkProc t Exited))
    /\ (exists t, procs s' !! ps = Some (mkProc t Exited))
    /\ (forall i p, procs s !! i = Some p -> i <> pr -> i <> ps ->
          procs s' !! i = Some p)
    /\ live RecvAndroid s' = 1
    /\ live AndroidSender s' = 1.
Proof.
  intros Hrun Hst Hmain Hflag.
  pose proof (run_inv pair_inv pair_inv_step evs init s Hrun pair_inv_init)
    as Hinv.
  destruct (started_pair_ok s Hst Hinv)
    as (pr & ps & st_r & st_s & Hhr & Hhs & Hne & Hr & Hstr & Hp & Hsts
        & Hothers).
  exists pr, ps, (after_cycle pr ps s).
  assert (Hstep : step EvSupervisor s = Some (after_cycle pr ps s)).
  { simpl. rewrite Hst. unfold main_pass. rewrite Hmain.
    rewrite (reconnect_android_eq s pr ps st_r st_s) by assumption.
    reflexivity. }
  pose proof (pair_running_after pr ps st_r st_s s Hhr Hhs Hne Hr Hstr Hp
                Hsts Hothers) as Hpair.
  destruct (pair_running_live _ Hpair) as [Hlr Hls].
  split; [exact Hhr|]. split; [exact Hhs|]. split; [exact Hstep|].
  split; [reflexivity|].
  destruct s as [? ? ? ? ? ? ? ? ? ? ? ? l ? ? ? ? ? ? ? ? ?]. simpl in *.
  split; [reflexivity|]. split; [reflexivity|]. split; [reflexivity|].
  split; [reflexivity|]. split; [reflexivity|].
  split.
  { exists RecvAndroid. apply lookup_app_l_Some.
    apply (torn_down_recv pr ps l st_r Hne Hr Hstr). }
  split.
  { exists AndroidSender. apply lookup_app_l_Some.
    apply (torn_down_send pr ps l st_s Hne Hp Hsts). }
  split; [|split; assumption].
  intros i p Hi Hi1 Hi2. apply lookup_app_l_Some.
  rewrite torn_down_other by assumption. exact Hi.
Qed.

Lemma reconnect_cycle_witness :
  run two_drops init = Some dropped_again
  /\ started dropped_again = true
  /\ main_running dropped_again = true
  /\ android_dropped dropped_again = true
  /\ exists s',
       step EvSupervisor dropped_again = Some s'
       /\ live RecvAndroid s' = 1 /\ live AndroidSender s' = 1
       /\ android_dropped s' = false.
Proof.
  assert (Hrun : run two_drops init = Some dropped_again)
    by (vm_compute; reflexivity).
  destruct (reconnect_cycle two_drops dropped_again Hrun eq_refl eq_refl
              eq_refl)
    as (pr & ps & s' & _ & _ & Hstep & _ & _ & _ & Hflag & _ & _ & _ & _ & _
        & Hlr & Hls).
  split; [exact Hrun|]. split; [reflexivity|]. split; [reflexivity|].
  split; [reflexivity|]. exists s'. repeat split; assumption.
Defined.

(** The second pass of the run above, computed: the two processes of the
    first pass are gone and two new ones run. *)
Example second_cycle :
  exists s',
    step EvSupervisor dropped_again = Some s'
    /\ map status (procs s')
       = [Running; Exited; Exited; Running; Running; Exited; Exited;
          Running; Running]
    /\ proc_recv_android s' = Some 7 /\ proc_android_sender s' = Some 8.
Proof. eexists. split; [vm_compute; reflexivity|]. repeat split. Qed.

(** ** Every move of the program at once *)

(** A relation kept by the body of every worker whose moves [ok] admits
    is kept by every such move. *)
Lemma step_rel (R : State -> State -> Prop) `{!Reflexive R} `{!Transitive R}
    (ok : event -> bool) :
  (forall w s, R s (exit_worker w s)) ->
  (forall s, R s (set_main_running false s)) ->
  (forall s, R s (set_thread_running false s)) ->
  (forall env, ok (EvStart env) = true -> keeps R (start env)) ->
  (ok EvInterrupt = true -> keeps R stop) ->
  (ok EvSupervisor = true -> keeps R reconnect_android) ->
  (forall env r, ok (EvRecvAndroid env r) = true ->
     keeps R (recv_android env r)) ->
  (forall r, ok (EvAndroidSender r) = true -> keeps R (android_sender r)) ->
  (forall r, ok (EvRecvStm r) = true -> keeps R (recv_stm r)) ->
  (ok EvFollower = true -> keeps R command_follower) ->
  (ok EvRpiAction = true -> keeps R rpi_action) ->
  (forall p, ok (EvReceiveThread p) = true -> keeps R (receive_thread p)) ->
  (forall c, ok (EvQueueState c) = true -> keeps R (state_queue_put c)) ->
  (forall c, ok (EvCommand c) = true -> keeps R (command_queue_put c)) ->
  (forall l, ok (EvPath l) = true -> keeps R (path_queue_put l)) ->
  forall e s s', ok e = true -> step e s = Some s' -> R s s'.
Proof.
  intros Hexit Hmain Hthread Hstart Hstop Hsup Hra Has Hrs Hf Hrpi Hrt Hq Hc
    Hp e s s' Hok Hs.
  destruct e; simpl in Hs.
  - destruct (started s); [discriminate|].
    eapply main_pass_rel; [apply _ | apply Hstart, Hok | apply Hmain | exact Hs].
  - eapply main_pass_rel; [apply _ | | apply Hmain | exact Hs].
    pose proof (keeps_bind R stop
                  (fun _ => modify (set_main_running false))) as Hk.
    apply Hk; [apply Hstop, Hok|]. intros _ s1. apply Hmain.
  - destruct (started s); [|discriminate].
    eapply main_pass_rel; [apply _ | apply Hsup, Hok | apply Hmain | exact Hs].
  - eapply pass_rel; [apply _ | apply Hra, Hok | apply Hexit | exact Hs].
  - eapply pass_rel; [apply _ | apply Has, Hok | apply Hexit | exact Hs].
  - destruct (stop_thread s).
    + destruct (runs RecvStm32 s); inversion Hs. apply Hexit.
    + eapply pass_rel; [apply _ | apply Hrs, Hok | apply Hexit | exact Hs].
  - eapply pass_rel; [apply _ | apply Hf, Hok | apply Hexit | exact Hs].
  - eapply pass_rel; [apply _ | apply Hrpi, Hok | apply Hexit | exact Hs].
  - destruct (thread_running s); [|discriminate].
    destruct (stop_thread s).
    + inversion Hs. apply Hthread.
    + pose proof (Hrt p Hok s) as Hk.
      destruct (receive_thread p s) as [[a|x|] s1]; simpl in *;
        inversion Hs; subst; [exact Hk|].
      etransitivity; [exact Hk | apply Hthread].
  - inversion Hs. destruct c. apply (Hq _ Hok).
  - inversion Hs. apply (Hc _ Hok).
  - inversion Hs. apply (Hp _ Hok).
Qed.

Lemma run_rel (R : State -> State -> Prop) `{!Reflexive R} `{!Transitive R}
    (ok : event -> bool) :
  (forall e s s', ok e = true -> step e s = Some s' -> R s s') ->
  forall evs s s',
    forallb ok evs = true -> run evs s = Some s' -> R s s'.
Proof.
  intros Hstep evs. induction evs as [|e evs IH]; simpl; intros s s' Hok Hrun.
  - inversion Hrun. reflexivity.
  - apply andb_true_iff in Hok as [He Hevs].
    destruct (step e s) as [s1|] eqn:Hs; [|discriminate].
    etransitivity; [eapply Hstep; eassumption | eapply IH; eassumption].
Qed.

Global Instance stays_refl f : Reflexive (stays f).
Proof. intros s. exact id. Qed.

Global Instance stays_trans f : Transitive (stays f).
Proof. intros a b c H1 H2 Ha. apply H2, H1, Ha. Qed.

Global Instance stays_off_refl f : Reflexive (stays_off f).
Proof. intros s. exact id. Qed.

Global Instance stays_off_trans f : Transitive (stays_off f).
Proof. intros a b c H1 H2 Ha. apply H2, H1, Ha. Qed.

(** Closes a state update or an operation that leaves a flag as it is,
    or moves it the way the relation allows. *)
Ltac flag_leaf :=
  idtac;
  lazymatch goal with
  | |- keeps _ (modify _) =>
      let H := fresh in
      apply keeps_modify; intros ? H; first [exact H | reflexivity]
  | |- keeps _ (emit _) => let H := fresh in intros ? H; exact H
  end.

(** Proves a relation for every move: [wrap] closes the end of a worker
    and of the link's thread, [leaf] the updates and operations of the
    bodies. *)
Ltac every_worker wrap leaf :=
  apply step_rel;
  lazymatch goal with
  | |- Reflexive _ => apply _
  | |- Transitive _ => apply _
  | |- context [exit_worker] =>
      let w := fresh "w" in
      let s := fresh "s" in
      intros w s; unfold exit_worker; destruct (handle w s); wrap
  | |- context [set_main_running] => let s := fresh "s" in intros s; wrap
  | |- context [set_thread_running] => let s := fresh "s" in intros s; wrap
  | |- _ =>
      repeat (lazymatch goal with
              | |- keeps _ _ => fail
              | |- _ => idtac
              end; intro);
      first
        [ match goal with
          | H : _ = true |- _ => solve [simpl in H; discriminate H]
          end
        | solve [leaf]
        | unfold start, stop, reconnect_android, recv_android,
            android_sender, recv_stm, command_follower, rpi_action,
            receive_thread;
          keeps_walk leaf ]
  end.

Ltac flag_wrap :=
  let H := fresh in intros H; first [exact H | reflexivity].

Lemma store_obstacles_keeps (R : State -> State -> Prop)
    `{!Reflexive R} `{!Transitive R} l :
  (forall f, keeps R (modify (fun s => set_obstacles (f s) s))) ->
  keeps R (store_obstacles l).
Proof.
  intros Hm. induction l as [|obs l IH]; [apply keeps_ret; apply _|].
  rewrite store_obstacles_cons.
  apply keeps_bind; [apply _ | apply keeps_lift; apply _ |].
  intros id. apply keeps_bind; [apply _ | | intros _; exact IH].
  destruct (hashable id); [apply Hm | apply keeps_raise; apply _].
Qed.

Global Instance one_way_refl : Reflexive one_way.
Proof. intros s. repeat split; exact id. Qed.

Global Instance one_way_trans : Transitive one_way.
Proof.
  intros a b c (A1 & A2 & A3 & A4 & A5) (B1 & B2 & B3 & B4 & B5).
  repeat split; intros H;
    [apply B1, A1 | apply B2, A2 | apply B3, A3 | apply B4, A4
    | apply B5, A5]; exact H.
Qed.

Ltac one_way_wrap :=
  repeat split; let H := fresh in intros H; first [exact H | reflexivity].

Ltac one_way_leaf :=
  idtac;
  lazymatch goal with
  | |- keeps _ (modify _) => apply keeps_modify; intros ?; one_way_wrap
  | |- keeps _ (emit _) => intros ?; one_way_wrap
  end.

Lemma step_one_way e s s' : step e s = Some s' -> one_way s s'.
Proof.
  intros Hs.
  cut (forall e s s', any_event e = true -> step e s = Some s' ->
         one_way s s');
    [intros H; exact (H e s s' eq_refl Hs)|].
  clear. every_worker one_way_wrap one_way_leaf.
  apply store_obstacles_keeps; [apply _ | apply _ |].
  intros f. one_way_leaf.
Qed.

(** ** More on the controller link *)

Lemma zeros_app a b : zeros (a ++ b) = zeros a + zeros b.
Proof.
  induction a as [|o a IH]; [reflexivity|].
  destruct o; simpl; rewrite ?IH; try reflexivity.
  destruct (String.eqb message "0"); simpl; lia.
Qed.

Lemma quiet_zeros ops :
  Forall (fun o => is_link_op o = false) ops -> zeros ops = 0.
Proof.
  induction 1 as [|o ops Ho _ IH]; [reflexivity|].
  destruct o; try discriminate; exact IH.
Qed.

Lemma writes_le_zeros_step e s s' :
  step e s = Some s' ->
  length (written (trace s)) <= zeros (trace s) ->
  length (written (trace s')) <= zeros (trace s').
Proof.
  intros Hs Hi.
  assert (Hq : (forall p, e <> EvReceiveThread p) ->
               length (written (trace s')) <= zeros (trace s')).
  { intros Hne. destruct (step_link e s s' Hs Hne) as (ops & Htr & Hf & _).
    destruct (quiet_ops ops Hf) as (_ & Hw & _).
    rewrite Htr, written_app, zeros_app, Hw, (quiet_zeros ops Hf),
      app_nil_r. lia. }
  destruct e; try (apply Hq; discriminate). clear Hq.
  simpl in Hs. destruct (thread_running s); [|discriminate].
  destruct (stop_thread s); [inversion Hs; destruct s; exact Hi|].
  assert (Hk : length (written (trace (receive_thread p s).2))
               <= zeros (trace (receive_thread p s).2)).
  { destruct p as [|line|]; try exact Hi.
    unfold receive_thread. unfold_calls.
    destruct s as [? ? ? ? ? ? ? ? sq ? ? ? ? ? ? ? ? ? ? ? ? tr].
    simpl in *. destruct (String.eqb (strip line) "0") eqn:H0.
    - destruct sq as [|c q]; simpl;
        rewrite !written_app, !zeros_app, ?length_app; simpl; rewrite H0;
        simpl; lia.
    - destruct (String.eqb (strip line) "1"); simpl;
        rewrite !written_app, !zeros_app, ?length_app; simpl; rewrite H0;
        simpl; lia. }
  destruct (receive_thread p s) as [[a|x|] s1]; simpl in *;
    inversion Hs; subst; [exact Hk | destruct s1; exact Hk].
Qed.

(** X1: in every run of the program the frames written to the serial
    port are no more than the ["0"] lines [receive_thread] has read: a
    queued command is sent only in answer to a ["0"], and with a
    controller that never sends one nothing is ever written. *)
Theorem writes_need_zero_lines (evs : list event) (s : State) :
  run evs init = Some s ->
  length (written (trace s)) <= zeros (trace s)
  /\ (zeros (trace s) = 0 -> written (trace s) = []).
Proof.
  intros Hrun.
  assert (Hle : length (written (trace s)) <= zeros (trace s)).
  { apply (run_inv (fun s => length (written (trace s)) <= zeros (trace s))
             writes_le_zeros_step evs init s Hrun). simpl. lia. }
  split; [exact Hle|]. intros Hz. rewrite Hz in Hle.
  destruct (written (trace s)); [reflexivity | simpl in Hle; lia].
Qed.

Lemma writes_need_zero_lines_witness :
  run link_run init = Some link_state
  /\ length (written (trace link_state)) <= zeros (trace link_state)
  /\ (zeros (trace link_state) = 0 -> written (trace link_state) = []).
Proof.
  split; [vm_compute; reflexivity|].
  apply (writes_need_zero_lines link_run link_state).
  vm_compute. reflexivity.
Defined.

Lemma closed_link_step e s s' :
  step e s = Some s' -> link_closed s ->
  link_closed s' /\ written (trace s') = written (trace s).
Proof.
  intros Hs Hc. split.
  - destruct Hc as [Hc|Hc]; [left | right].
    + eapply (step_one_way e s s' Hs); exact Hc.
    + eapply (step_one_way e s s' Hs); exact Hc.
  - assert (Hq : (forall p, e <> EvReceiveThread p) ->
                 written (trace s') = written (trace s)).
    { intros Hne. destruct (step_link e s s' Hs Hne) as (ops & Htr & Hf & _).
      destruct (quiet_ops ops Hf) as (_ & Hw & _).
      rewrite Htr, written_app, Hw, app_nil_r. reflexivity. }
    destruct e; try (apply Hq; discriminate). clear Hq. simpl in Hs.
    unfold link_closed in Hc.
    destruct (thread_running s) eqn:Ht; [|discriminate].
    destruct (stop_thread s) eqn:Hst;
      [inversion Hs; destruct s; reflexivity|].
    destruct Hc; congruence.
Qed.

Lemma closed_link_run evs : forall s s',
  run evs s = Some s' -> link_closed s ->
  link_closed s' /\ written (trace s') = written (trace s).
Proof.
  induction evs as [|e evs IH]; simpl; intros s s' Hrun Hc.
  - inversion Hrun. subst. split; [exact Hc | reflexivity].
  - destruct (step e s) as [s1|] eqn:Hs; [|discriminate].
    destruct (closed_link_step e s s1 Hs Hc) as [Hc1 Hw1].
    destruct (IH s1 s' Hrun Hc1) as [Hc' Hw']. split; [exact Hc'|].
    rewrite Hw', Hw1. reflexivity.
Qed.

(** X2: bytes that are not UTF-8 end the receive thread of the link for
    good: the pass that meets them raises out of [receive_thread], and
    whatever the program does afterwards, no frame is written to the
    serial port any more, however many commands are queued and however
    many ["0"] lines arrive. *)
Theorem undecodable_bytes_end_the_link (s : State) :
  thread_running s = true -> stop_thread s = false ->
  receive_thread WaitingUndecodable s = (Raise UnicodeDecodeError, s)
  /\ step (EvReceiveThread WaitingUndecodable) s
     = Some (set_thread_running false s)
  /\ forall evs s',
       run evs (set_thread_running false s) = Some s' ->
       thread_running s' = false
       /\ written (trace s') = written (trace s)
       /\ forall p, step (EvReceiveThread p) s' = None.
Proof.
  intros Ht Hstop. split; [reflexivity|]. split.
  { simpl. rewrite Ht, Hstop. reflexivity. }
  intros evs s' Hrun.
  assert (Hoff : thread_running s' = false).
  { apply (run_inv (fun s => thread_running s = false)
             (fun e a b Hs Ha =>
                proj2 (proj2 (proj2 (proj2 (step_one_way e a b Hs)))) Ha)
             evs _ s' Hrun). destruct s. reflexivity. }
  destruct (closed_link_run evs _ s' Hrun) as [_ Hw];
    [left; destruct s; reflexivity|].
  split; [exact Hoff|]. split; [rewrite Hw; destruct s; reflexivity|].
  intros p. simpl. rewrite Hoff. reflexivity.
Qed.

Lemma undecodable_bytes_end_the_link_witness :
  thread_running link_state = true /\ stop_thread link_state = false
  /\ exists s1,
       step (EvReceiveThread WaitingUndecodable) link_state = Some s1
       /\ forall evs s',
            run evs s1 = Some s' ->
            written (trace s') = written (trace link_state).
Proof.
  destruct (undecodable_bytes_end_the_link link_state eq_refl eq_refl)
    as (_ & Hstep & Hrest).
  split; [reflexivity|]. split; [reflexivity|].
  eexists. split; [exact Hstep|].
  intros evs s' Hrun. apply (Hrest evs s' Hrun).
Defined.

(** ** Who writes what *)

Global Instance unchanged_refl f : Reflexive (unchanged f).
Proof. intros s. destruct f; simpl; reflexivity. Qed.

Global Instance unchanged_trans f : Transitive (unchanged f).
Proof.
  intros a b c. destruct f; simpl; intros H1 H2;
    try (rewrite H2; exact H1).
  intros w. rewrite H2. apply H1.
Qed.

Global Instance outside_refl fp : Reflexive (outside fp).
Proof. intros s f _. reflexivity. Qed.

Global Instance outside_trans fp : Transitive (outside fp).
Proof.
  intros a b c H1 H2 f Hf. etransitivity; [apply H1 | apply H2]; exact Hf.
Qed.

Ltac outside_wrap :=
  let f := fresh "f" in
  let Hf := fresh "Hf" in
  intros f Hf; destruct f;
  first [reflexivity | intros []; reflexivity | discriminate Hf].

Ltac outside_leaf :=
  idtac;
  lazymatch goal with
  | |- keeps _ (modify _) => apply keeps_modify; intros ?; outside_wrap
  | |- keeps _ (emit _) => intros ?; outside_wrap
  end.

Lemma store_obstacles_outside fp l :
  fp FObstacles = true -> keeps (outside fp) (store_obstacles l).
Proof.
  intros Hfp. apply store_obstacles_keeps; [apply _ | apply _ |].
  intros g. apply keeps_modify. intros s f Hf.
  destruct f; first [reflexivity | intros []; reflexivity | congruence].
Qed.

Lemma follower_returns s : forall e s1, command_follower s <> (Raise e, s1).
Proof.
  intros e s1. destruct (follower_at s) as [|c|c] eqn:Hpc.
  - unfold command_follower. unfold_calls. rewrite Hpc.
    destruct s as [? ? ? ? ? ? cq ? ? ? ? ? ? ? ? ? ? ? ? ? ? ?]. simpl.
    destruct cq; simpl; discriminate.
  - unfold command_follower. unfold_calls. rewrite Hpc.
    destruct s as [? up ? ? ? ? ? ? ? ? ? ? ? ? ? ? ? ? ? ? ? ?]. simpl.
    destruct up; simpl; discriminate.
  - destruct (movement_lock s) eqn:Hl.
    + rewrite (follower_blocked c s Hpc Hl). discriminate.
    + rewrite (follower_acquires c s Hpc Hl). discriminate.
Qed.

Lemma exit_outside fp w s :
  fp FProcs = true -> outside fp s (exit_worker w s).
Proof.
  intros Hfp f Hf. unfold exit_worker. destruct (handle w s);
    destruct f; first [reflexivity | intros []; reflexivity | congruence].
Qed.

Lemma main_outside fp s :
  fp FMainRunning = true -> outside fp s (set_main_running false s).
Proof.
  intros Hfp f Hf.
  destruct f; first [reflexivity | intros []; reflexivity | congruence].
Qed.

(** X3: every move of the program writes only the shared objects of its
    footprint: [recv_android] the dropped and unpause events and the
    queues of the app, of the actions and of the link; [android_sender]
    the app queue and the dropped event; [recv_stm] [rs_flag], the lock,
    [path_queue], [current_location] and the app queue;
    [command_follower] [command_queue], the lock and the link's queue;
    [rpi_action] its queue and [obstacles]; [receive_thread] the link's
    queue; [start] and [reconnect_android] the processes and the app
    queue; [stop] the processes and [stop_thread].  Everything else is
    left exactly as it was. *)
Theorem step_footprint (e : event) (s s' : State) (f : field) :
  step e s = Some s' -> footprint e f = false -> unchanged f s s'.
Proof.
  intros Hs Hf. revert f Hf. change (outside (footprint e) s s').
  destruct e; simpl in Hs.
  - destruct (started s); [discriminate|].
    eapply main_pass_rel; [apply _ | | intros; apply main_outside; reflexivity
                          | exact Hs].
    clear. revert s.
    change (keeps (outside (footprint (EvStart env))) (start env)).
    unfold start. keeps_walk outside_leaf.
  - eapply main_pass_rel; [apply _ | | intros; apply main_outside; reflexivity
                          | exact Hs].
    clear. revert s.
    change (keeps (outside (footprint EvInterrupt))
              (stop;; modify (set_main_running false))).
    unfold stop. keeps_walk outside_leaf.
  - destruct (started s); [|discriminate].
    eapply main_pass_rel; [apply _ | | intros; apply main_outside; reflexivity
                          | exact Hs].
    clear. revert s.
    change (keeps (outside (footprint EvSupervisor)) reconnect_android).
    unfold reconnect_android. keeps_walk outside_leaf.
  - eapply pass_rel; [apply _ | | intros; apply exit_outside; reflexivity
                     | exact Hs].
    clear. revert s.
    change (keeps (outside (footprint (EvRecvAndroid env r)))
              (recv_android env r)).
    unfold recv_android. keeps_walk outside_leaf.
  - eapply pass_rel; [apply _ | | intros; apply exit_outside; reflexivity
                     | exact Hs].
    clear. revert s.
    change (keeps (outside (footprint (EvAndroidSender r)))
              (android_sender r)).
    unfold android_sender. keeps_walk outside_leaf.
  - destruct (stop_thread s).
    + destruct (runs RecvStm32 s); inversion Hs.
      apply exit_outside. reflexivity.
    + eapply pass_rel; [apply _ | | intros; apply exit_outside; reflexivity
                       | exact Hs].
      clear. revert s.
      change (keeps (outside (footprint (EvRecvStm r))) (recv_stm r)).
      unfold recv_stm. keeps_walk outside_leaf.
  - unfold pass in Hs. destruct (runs CommandFollower s); [|discriminate].
    assert (Hk : outside (footprint EvFollower) s (command_follower s).2).
    { clear. revert s.
      change (keeps (outside (footprint EvFollower)) command_follower).
      unfold command_follower. keeps_walk outside_leaf. }
    pose proof (follower_returns s) as Hr.
    destruct (command_follower s) as [[a|x|] s1]; simpl in *;
      [inversion Hs; subst; exact Hk | | discriminate].
    exfalso. apply (Hr x s1). reflexivity.
  - eapply pass_rel; [apply _ | | intros; apply exit_outside; reflexivity
                     | exact Hs].
    clear. revert s.
    change (keeps (outside (footprint EvRpiAction)) rpi_action).
    unfold rpi_action. keeps_walk outside_leaf.
    apply store_obstacles_outside. reflexivity.
  - destruct (thread_running s); [|discriminate].
    assert (Ht : forall s1, outside (footprint (EvReceiveThread p)) s1
                   (set_thread_running false s1)).
    { intros s1 f Hf.
      destruct f; first [reflexivity | intros []; reflexivity
                        | discriminate Hf]. }
    destruct (stop_thread s); [inversion Hs; apply Ht|].
    assert (Hk : outside (footprint (EvReceiveThread p)) s
                   (receive_thread p s).2).
    { clear. revert s.
      change (keeps (outside (footprint (EvReceiveThread p)))
                (receive_thread p)).
      unfold receive_thread. keeps_walk outside_leaf. }
    destruct (receive_thread p s) as [[a|x|] s1]; simpl in *;
      inversion Hs; subst; [exact Hk|].
    etransitivity; [exact Hk | apply Ht].
  - inversion Hs. intros f Hf.
    destruct f; first [reflexivity | intros []; reflexivity
                      | discriminate Hf].
  - inversion Hs. intros f Hf.
    destruct f; first [reflexivity | intros []; reflexivity
                      | discriminate Hf].
  - inversion Hs. intros f Hf.
    destruct f; first [reflexivity | intros []; reflexivity
                      | discriminate Hf].
Qed.

Lemma step_footprint_witness :
  footprint (EvRecvStm (ReadLine "ACK")) FStateQueue = false
  /\ footprint (EvRecvStm (ReadLine "ACK")) FUnpause = false
  /\ forall s',
       step (EvRecvStm (ReadLine "ACK")) started_state = Some s' ->
       state_queue s' = state_queue started_state
       /\ unpause s' = unpause started_state.
Proof.
  split; [reflexivity|]. split; [reflexivity|]. intros s' Hs. split.
  - exact (step_footprint _ _ _ FStateQueue Hs eq_refl).
  - exact (step_footprint _ _ _ FUnpause Hs eq_refl).
Defined.

(** ** The flags *)

(** X4: in every run, from any state, [unpause], [rs_flag] and
    [stop_thread] are never cleared once set, and neither the main
    program nor the receive thread of the link runs again once it has
    ended. *)
Theorem flags_move_one_way (evs : list event) (s s' : State) :
  run evs s = Some s' ->
  (unpause s = true -> unpause s' = true)
  /\ (rs_flag s = true -> rs_flag s' = true)
  /\ (stop_thread s = true -> stop_thread s' = true)
  /\ (main_running s = false -> main_running s' = false)
  /\ (thread_running s = false -> thread_running s' = false).
Proof.
  intros Hrun.
  apply (run_rel one_way any_event
           (fun e a b _ Hs => step_one_way e a b Hs) evs s s');
    [|exact Hrun].
  clear. induction evs as [|e evs IH]; [reflexivity | exact IH].
Qed.

Lemma flags_move_one_way_witness :
  run mission init = Some mission_state
  /\ (unpause init = true -> unpause mission_state = true)
  /\ (rs_flag init = true -> rs_flag mission_state = true)
  /\ (stop_thread init = true -> stop_thread mission_state = true)
  /\ (main_running init = false -> main_running mission_state = false)
  /\ (thread_running init = false -> thread_running mission_state = false).
Proof.
  split; [vm_compute; reflexivity|].
  apply (flags_move_one_way mission init mission_state).
  vm_compute. reflexivity.
Defined.

(** ** Messages for the app *)

Lemma app_put_app a b : app_put (a ++ b) = app_put a ++ app_put b.
Proof.
  induction a as [|o a IH]; [reflexivity|].
  destruct o; simpl; rewrite IH; reflexivity.
Qed.

Lemma app_got_app a b : app_got (a ++ b) = app_got a ++ app_got b.
Proof.
  induction a as [|o a IH]; [reflexivity|].
  destruct o; simpl; rewrite IH; reflexivity.
Qed.

Lemma app_sent_app a b : app_sent (a ++ b) = app_sent a ++ app_sent b.
Proof.
  induction a as [|o a IH]; [reflexivity|].
  destruct o; simpl; rewrite IH; reflexivity.
Qed.

Global Instance app_kept_refl : Reflexive app_kept.
Proof. intros s. exact id. Qed.

Global Instance app_kept_trans : Transitive app_kept.
Proof. intros a b c H1 H2 Ha. apply H2, H1, Ha. Qed.

Lemma app_inv_quiet o s :
  is_app_op o = false -> app_inv s -> app_inv (emit o s).2.
Proof.
  intros Ho [Hq Hs]. destruct s. unfold app_inv in *. simpl in *.
  rewrite app_put_app, app_got_app, app_sent_app.
  destruct o; try discriminate; simpl; rewrite !app_nil_r; split; assumption.
Qed.

Lemma android_queue_put_app m : keeps app_kept (android_queue_put m).
Proof.
  intros s [Hq Hs]. destruct s. unfold app_inv in *. simpl in *.
  rewrite app_put_app, app_got_app, app_sent_app. simpl.
  rewrite !app_nil_r, Hq, app_assoc. split; [reflexivity | exact Hs].
Qed.

Lemma android_sender_app r : keeps app_kept (android_sender r).
Proof.
  intros s [Hq Hs]. unfold android_sender. unfold_calls.
  destruct s as [? ? ? ? aq ? ? ? ? ? ? ? ? ? ? ? ? ? ? ? ? tr].
  unfold app_inv in *. simpl in *.
  destruct aq as [|m q]; simpl; [split; assumption|].
  destruct r as [|e]; simpl.
  - rewrite !app_put_app, !app_got_app, !app_sent_app. simpl.
    rewrite !app_nil_r, Hq, <- app_assoc. split; [reflexivity|].
    apply sublist_app; [exact Hs | reflexivity].
  - destruct (is_OSError e); simpl;
      rewrite !app_put_app, !app_got_app, !app_sent_app; simpl;
      rewrite !app_nil_r, Hq, <- app_assoc; (split; [reflexivity|]);
      apply sublist_inserts_r; exact Hs.
Qed.

Ltac app_wrap := let H := fresh in intros H; exact H.

Ltac app_leaf :=
  idtac;
  lazymatch goal with
  | |- keeps _ (android_queue_put _) => apply android_queue_put_app
  | |- keeps _ (android_sender _) => apply android_sender_app
  | |- keeps _ (modify _) =>
      let H := fresh in apply keeps_modify; intros ? H; exact H
  | |- keeps _ (emit _) =>
      let H := fresh in
      intros ? H; apply app_inv_quiet; [reflexivity | exact H]
  end.

Lemma app_inv_step e s s' : step e s = Some s' -> app_inv s -> app_inv s'.
Proof.
  intros Hs.
  cut (forall e s s', any_event e = true -> step e s = Some s' ->
         app_kept s s');
    [intros H; exact (H e s s' eq_refl Hs)|].
  clear. every_worker app_wrap app_leaf.
  apply store_obstacles_keeps; [apply _ | apply _ |].
  intros f. app_leaf.
Qed.

(** X5: in every run of the program the messages for the app leave
    [android_queue] in the order they were put on it, and the messages
    the app link has sent are among those taken from the queue, in that
    order, each at most as often as it was taken: nothing is sent that
    was not queued, nothing is sent twice, and no message overtakes
    another. *)
Theorem app_messages_in_order (evs : list event) (s : State) :
  run evs init = Some s ->
  app_put (trace s) = app_got (trace s) ++ android_queue s
  /\ sublist (app_sent (trace s)) (app_got (trace s)).
Proof.
  intros Hrun.
  apply (run_inv app_inv app_inv_step evs init s Hrun).
  split; [reflexivity | constructor].
Qed.

Lemma app_messages_in_order_witness :
  run mission init = Some mission_state
  /\ app_put (trace mission_state)
     = app_got (trace mission_state) ++ android_queue mission_state
  /\ sublist (app_sent (trace mission_state))
       (app_got (trace mission_state)).
Proof.
  split; [vm_compute; reflexivity|].
  apply (app_messages_in_order mission mission_state).
  vm_compute. reflexivity.
Defined.

(** ** More on the workers *)

Lemma runs_table w s s' : outside not_table s s' -> runs w s' = runs w s.
Proof.
  intros H. unfold runs, status_of.
  pose proof (H FProcs eq_refl) as Hp. pose proof (H FHandles eq_refl w) as Hh.
  simpl in Hp. rewrite Hh, Hp. reflexivity.
Qed.

Lemma recv_stm_table r : keeps (outside not_table) (recv_stm r).
Proof. unfold recv_stm. keeps_walk outside_leaf. Qed.

Lemma recv_stm_returns r s : (recv_stm r s).1 = Ok tt.
Proof.
  unfold recv_stm. unfold_calls.
  destruct s as [? ? ? lk ? ? ? pq ? rs ? ? ? ? ? ? ? ? ? ? ? ?].
  destruct r as [line| |]; simpl; try reflexivity.
  destruct (String.prefix "ACK" (strip line)); simpl; [|reflexivity].
  destruct rs; simpl; [|reflexivity].
  destruct lk; simpl; [|reflexivity].
  destruct pq; reflexivity.
Qed.

(** X6: nothing the serial port gives ends [recv_stm]: a pass returns
    whatever it reads, so the worker goes on until [stop_thread] is set.
    A line that does not begin with [ACK] is logged as a warning and a
    read that fails or cannot be decoded as an error, and neither changes
    any shared object. *)
Theorem recv_stm_goes_on (r : ser_read) (s : State) :
  runs RecvStm32 s = true -> stop_thread s = false ->
  (exists s', step (EvRecvStm r) s = Some s' /\ runs RecvStm32 s' = true)
  /\ (forall line, r = ReadLine line ->
        startswith (strip line) ["ACK"%string] = false ->
        recv_stm r s
        = (Ok tt,
           set_trace
             (trace s ++ [StmLine (strip line);
                          Log Warning "Ignored unknown message from STM: "])
             s))
  /\ (r = ReadUndecodable \/ r = ReadFails ->
      recv_stm r s
      = (Ok tt,
         set_trace (trace s ++ [Log Error "Error reading from STM: "]) s)).
Proof.
  intros Hrun Hstop. split; [|split].
  - simpl. rewrite Hstop. unfold pass. rewrite Hrun.
    pose proof (recv_stm_returns r s) as Hok.
    pose proof (runs_table RecvStm32 _ _ (recv_stm_table r s)) as Ht.
    destruct (recv_stm r s) as [res s1]. simpl in *. subst res.
    exists s1. split; [reflexivity|]. rewrite Ht. exact Hrun.
  - intros line -> Hno. unfold startswith in Hno. simpl in Hno.
    unfold recv_stm. unfold_calls. simpl.
    rewrite Hno. destruct s. simpl. rewrite <- !app_assoc. reflexivity.
  - intros [-> | ->]; unfold recv_stm; unfold_calls; destruct s; reflexivity.
Qed.

Lemma recv_stm_goes_on_witness :
  runs RecvStm32 started_state = true
  /\ stop_thread started_state = false
  /\ (exists s', step (EvRecvStm ReadFails) started_state = Some s'
        /\ runs RecvStm32 s' = true)
  /\ recv_stm ReadUndecodable started_state
     = (Ok tt,
        set_trace
          (trace started_state ++ [Log Error "Error reading from STM: "])
          started_state).
Proof.
  split; [reflexivity|]. split; [reflexivity|]. split.
  - apply (recv_stm_goes_on ReadFails started_state); reflexivity.
  - apply (recv_stm_goes_on ReadUndecodable started_state);
      [reflexivity | reflexivity | left; reflexivity].
Defined.

Lemma android_sender_table r : keeps (outside not_table) (android_sender r).
Proof. unfold android_sender. keeps_walk outside_leaf. Qed.

(** X7: a message [android_sender] has taken from [android_queue] is gone
    whether or not the send succeeds.  When the send raises [OSError] the
    message is neither sent nor put back, [android_dropped] is set and
    the worker goes on; when it raises anything else the message is lost
    as well and the worker ends.  With an empty queue a pass changes
    nothing. *)
Theorem android_sender_loses_on_failure (s : State) :
  (android_queue s = [] -> forall r, android_sender r s = (Ok tt, s))
  /\ forall m q, android_queue s = m :: q ->
       android_sender SendOk s
       = (Ok tt,
          set_trace (trace s ++ [AndroidGet m; LinkSend m])
            (set_android_queue q s))
       /\ (forall e, is_OSError e = true ->
             android_sender (SendRaises e) s
             = (Ok tt,
                set_trace
                  (trace s ++ [AndroidGet m; EventSet AndroidDroppedEv;
                               Log Debug "Event set: Android dropped"])
                  (set_android_dropped true (set_android_queue q s))))
       /\ (forall e, is_OSError e = false ->
             android_sender (SendRaises e) s
             = (Raise e,
                set_trace (trace s ++ [AndroidGet m]) (set_android_queue q s))
             /\ (runs AndroidSender s = true ->
                 exists s', step (EvAndroidSender (SendRaises e)) s = Some s'
                   /\ runs AndroidSender s' = false
                   /\ android_queue s' = q
                   /\ app_sent (trace s') = app_sent (trace s))).
Proof.
  split.
  - intros Hq r. unfold android_sender. unfold_calls.
    destruct s. simpl in *. subst. reflexivity.
  - intros m q Hq. split; [|split].
    + unfold android_sender. unfold_calls. destruct s. simpl in *. subst.
      simpl. rewrite <- !app_assoc. reflexivity.
    + intros e He. unfold android_sender. unfold_calls.
      destruct s. simpl in *. subst. simpl. rewrite He. simpl.
      rewrite <- !app_assoc. reflexivity.
    + intros e He.
      assert (Heq : android_sender (SendRaises e) s
                    = (Raise e,
                       set_trace (trace s ++ [AndroidGet m])
                         (set_android_queue q s))).
      { unfold android_sender. unfold_calls. destruct s. simpl in *. subst.
        simpl. rewrite He. reflexivity. }
      split; [exact Heq|]. intros Hrun. eexists. simpl. unfold pass.
      rewrite Hrun, Heq. split; [reflexivity|].
      split; [apply exit_worker_stops; destruct s; exact Hrun|].
      unfold exit_worker.
      destruct (handle AndroidSender _); destruct s; simpl;
        rewrite ?app_sent_app; simpl; rewrite ?app_nil_r; split; reflexivity.
Qed.

Lemma android_sender_loses_on_failure_witness :
  exists m q s',
    android_queue started_state = m :: q
    /\ step (EvAndroidSender (SendRaises OSError)) started_state = Some s'
    /\ android_queue s' = q
    /\ app_sent (trace s') = []
    /\ android_dropped s' = true.
Proof.
  destruct (android_sender_loses_on_failure started_state) as [_ H].
  eexists. eexists. eexists. split; [reflexivity|].
  destruct (H _ _ eq_refl) as (_ & Hos & _).
  simpl. unfold pass.
  replace (runs AndroidSender started_state) with true by reflexivity.
  rewrite (Hos OSError eq_refl). split; [reflexivity|].
  split; [reflexivity|]. split; reflexivity.
Defined.

(** X8: [recv_android] answers nothing it does not know.  When the
    receive gives [None], when the category of the message is neither
    [obstacles] nor [control], and when a [control] message has a value
    other than [start], the pass changes nothing at all: no log, no
    reply to the app, no event.  A [control] message without the key
    [value] ends the worker with [KeyError]. *)
Theorem recv_android_ignores (env : Env) (s : State) :
  recv_android env RecvNone s = (Ok tt, s)
  /\ forall msg_str message cat,
       json_loads env msg_str = inr message ->
       getitem message "cat" = inr cat ->
       eq_str cat "obstacles" = false ->
       (eq_str cat "control" = false ->
        recv_android env (RecvStr msg_str) s = (Ok tt, s))
       /\ (forall value, eq_str cat "control" = true ->
             getitem message "value" = inr value ->
             eq_str value "start" = false ->
             recv_android env (RecvStr msg_str) s = (Ok tt, s))
       /\ (eq_str cat "control" = true ->
           getitem message "value" = inl KeyError ->
           recv_android env (RecvStr msg_str) s = (Raise KeyError, s)
           /\ (runs RecvAndroid s = true ->
               exists s', step (EvRecvAndroid env (RecvStr msg_str)) s
                          = Some s'
                 /\ runs RecvAndroid s' = false)).
Proof.
  split; [reflexivity|].
  intros msg_str message cat Hl Hc Ho. split; [|split].
  - intros Hctl. unfold recv_android. unfold_calls. simpl.
    rewrite Hl, Hc. simpl. rewrite Ho, Hctl. reflexivity.
  - intros value Hctl Hv Hst. unfold recv_android. unfold_calls. simpl.
    rewrite Hl, Hc. simpl. rewrite Ho, Hctl, Hv. simpl. rewrite Hst.
    reflexivity.
  - intros Hctl Hv.
    assert (Heq : recv_android env (RecvStr msg_str) s = (Raise KeyError, s)).
    { unfold recv_android. unfold_calls. simpl.
      rewrite Hl, Hc. simpl. rewrite Ho, Hctl, Hv. reflexivity. }
    split; [exact Heq|]. intros Hrun. eexists. simpl. unfold pass.
    rewrite Hrun, Heq. split; [reflexivity|].
    apply exit_worker_stops, Hrun.
Qed.

Lemma recv_android_ignores_witness :
  let env := source_env loads_other in
  recv_android env (RecvStr "ping") started_state = (Ok tt, started_state)
  /\ recv_android env (RecvStr "pause") started_state
     = (Ok tt, started_state)
  /\ recv_android env (RecvStr "control") started_state
     = (Raise KeyError, started_state).
Proof.
  intros env.
  destruct (recv_android_ignores env started_state) as [_ H].
  split; [|split].
  - apply (H "ping"%string _ (JStr "ping") eq_refl eq_refl eq_refl).
    reflexivity.
  - destruct (H "pause"%string _ (JStr "control") eq_refl eq_refl eq_refl)
      as (_ & Hv & _).
    apply (Hv (JStr "pause")); reflexivity.
  - destruct (H "control"%string _ (JStr "control") eq_refl eq_refl eq_refl)
      as (_ & _ & Hk).
    apply Hk; reflexivity.
Defined.

(** ** Before and after the start command *)

Lemma run_inv_ok (I : State -> Prop) (ok : event -> bool) :
  (forall e s s', ok e = true -> step e s = Some s' -> I s -> I s') ->
  forall evs s s',
    forallb ok evs = true -> run evs s = Some s' -> I s -> I s'.
Proof.
  intros Hstep evs. induction evs as [|e evs IH]; simpl;
    intros s s' Hok Hrun Hi.
  - inversion Hrun. subst. exact Hi.
  - apply andb_true_iff in Hok as [He Hevs].
    destruct (step e s) as [s1|] eqn:Hs; [|discriminate].
    eapply IH; [exact Hevs | exact Hrun |]. eapply Hstep; eassumption.
Qed.

Global Instance idle_refl : Reflexive idle.
Proof.
  intros s. split; [reflexivity|]. split; [exact id|].
  split; reflexivity.
Qed.

Global Instance idle_trans : Transitive idle.
Proof.
  intros a b c (A1 & A2 & A3 & A4) (B1 & B2 & B3 & B4).
  split; [congruence|]. split; [intros H; apply B2, A2, H|].
  split; [congruence | etransitivity; eassumption].
Qed.

Ltac idle_wrap :=
  split; [reflexivity|];
  split; [let H := fresh in intros H; first [exact H | reflexivity]|];
  split; [reflexivity|];
  exists []; split; [symmetry; apply app_nil_r | constructor].

Ltac idle_leaf :=
  idtac;
  lazymatch goal with
  | |- keeps _ (modify _) => apply keeps_modify; intros ?; idle_wrap
  | |- keeps _ (emit _) =>
      intros ?; split; [reflexivity|];
      split; [let H := fresh in intros H; exact H|];
      split; [reflexivity|];
      eexists [_]; split; [reflexivity | repeat constructor]
  end.

Lemma step_idle e s s' : calm e = true -> step e s = Some s' -> idle s s'.
Proof.
  revert e s s'. every_worker idle_wrap idle_leaf.
  apply store_obstacles_keeps; [apply _ | apply _ |].
  intros f. idle_leaf.
Qed.

Lemma idle_ops ops :
  Forall (fun o => is_go_op o = false) ops ->
  queued ops = [] /\ Forall (fun o => o <> Acquire) ops.
Proof.
  induction 1 as [|o ops Ho _ [IH1 IH2]]; [split; [reflexivity|constructor]|].
  split.
  - destruct o; try discriminate; exact IH1.
  - constructor; [|exact IH2]. intros ->. discriminate.
Qed.

Lemma gate_inv_idle s s' : idle s s' -> gate_inv s -> gate_inv s'.
Proof.
  intros (Hu & Hl & Hf & ops & Htr & Hops) Hi Hun. rewrite Hu in Hun.
  destruct (Hi Hun) as (Hacq & Hlock & Hpc).
  split; [|split].
  - rewrite Htr. apply Forall_app. split; [exact Hacq|].
    apply idle_ops, Hops.
  - apply Hl, Hlock.
  - rewrite Hf. exact Hpc.
Qed.


Lemma gate_inv_accepted s s' : accepted s s' -> gate_inv s'.
Proof. intros (Hu & _) Hun. congruence. Qed.


Ltac split_match :=
  match goal with
  | |- context [match ?x with _ => _ end] =>
      lazymatch x with
      | context [match _ with _ => _ end] => fail
      | _ => destruct x eqn:?
      end
  end.

Ltac idle_done :=
  left; split; [reflexivity|]; split; [exact id|]; split; [reflexivity|];
  eexists; split; [simpl; trace_ext | repeat constructor].

Ltac accepted_done :=
  right; split; [reflexivity|]; split; [reflexivity|]; split; [reflexivity|];
  eexists; split; [simpl; trace_ext|];
  split; [repeat constructor; discriminate | reflexivity].

Lemma recv_android_go env r s :
  idle s (recv_android env r s).2 \/ accepted s (recv_android env r s).2.
Proof.
  unfold recv_android. unfold_calls.
  destruct s as [? ? ? ? ? ? cq ? ? ? ? ? ? ? ? ? ? ? ? ? ? ?].
  destruct r as [msg_str| |e]; simpl.
  - destruct (json_loads env msg_str) as [e|message]; simpl; [idle_done|].
    destruct (getitem message "cat") as [e|cat]; simpl; [idle_done|].
    destruct (eq_str cat "obstacles"); simpl.
    { destruct (PiAction_new env) as [|new]; simpl; [idle_done|].
      destruct message; simpl; try idle_done.
      destruct (new items); simpl; idle_done. }
    destruct (eq_str cat "control"); simpl; [|idle_done].
    destruct (getitem message "value") as [e|value]; simpl; [idle_done|].
    destruct (eq_str value "start"); simpl; [|idle_done].
    destruct (check_api env) as [|[|]]; simpl; [idle_done| |];
      destruct cq; simpl; first [idle_done | accepted_done].
  - idle_done.
  - destruct (is_OSError e); simpl; idle_done.
Qed.

Lemma exit_idle w s : idle s (exit_worker w s).
Proof. unfold exit_worker. destruct (handle w s); idle_wrap. Qed.

Lemma gate_inv_step e s s' : step e s = Some s' -> gate_inv s -> gate_inv s'.
Proof.
  intros Hs Hi. destruct (calm e) eqn:Hcalm;
    [exact (gate_inv_idle s s' (step_idle e s s' Hcalm Hs) Hi)|].
  destruct e; try discriminate; simpl in Hs.
  - unfold pass in Hs. destruct (runs RecvAndroid s); [|discriminate].
    pose proof (recv_android_go env r s) as Hgo.
    assert (H1 : gate_inv (recv_android env r s).2).
    { destruct Hgo as [Hgo|Hgo];
        [exact (gate_inv_idle _ _ Hgo Hi) | exact (gate_inv_accepted _ _ Hgo)]. }
    destruct (recv_android env r s) as [[a|x|] s1]; simpl in *;
      inversion Hs; subst; [exact H1|].
    exact (gate_inv_idle _ _ (exit_idle RecvAndroid s1) H1).
  - unfold pass in Hs. destruct (runs CommandFollower s); [|discriminate].
    pose proof (follower_returns s) as Hr.
    destruct (follower_at s) as [|c|c] eqn:Hpc.
    + revert Hs Hr. unfold command_follower. unfold_calls. rewrite Hpc.
      destruct s as [? up ? lk ? ? cq ? ? ? ? ? ? ? ? ? ? ? ? ? ? tr].
      simpl in *. destruct cq as [|c q]; simpl; [discriminate|].
      intros Hs _. inversion Hs. subst. intros Hun.
      destruct (Hi Hun) as (Hacq & Hlock & _). simpl in *.
      split; [|split; [exact Hlock | discriminate]].
      rewrite <- app_assoc. apply Forall_app. split; [exact Hacq|].
      repeat constructor; discriminate.
    + revert Hs Hr. unfold command_follower. unfold_calls. rewrite Hpc.
      destruct s as [? up ? lk ? ? cq ? ? ? ? ? ? ? ? ? ? ? ? ? ? tr].
      simpl in *. destruct up; simpl; [|discriminate].
      intros Hs _. inversion Hs. subst. intros Hun. discriminate.
    + destruct (unpause s) eqn:Hun;
        [|destruct (Hi Hun) as (_ & _ & Hno); elim (Hno c); exact Hpc].
      destruct (movement_lock s) eqn:Hl.
      * rewrite (follower_blocked c s Hpc Hl) in Hs. discriminate.
      * rewrite (follower_acquires c s Hpc Hl) in Hs.
        destruct (startswith c stm32_prefixes); injection Hs as <-;
          unfold gate_inv; destruct s; simpl in *; intros Hun'; congruence.
  - inversion Hs. subst. intros Hun. destruct c, s. simpl in *.
    destruct (Hi Hun) as (Hacq & Hlock & Hpc).
    split; [|split; assumption].
    apply Forall_app. split; [exact Hacq|]. repeat constructor. discriminate.
Qed.



(** X9: until a start command has been accepted, that is while [unpause]
    is not set, no run of the program has taken [movement_lock]: the
    history has no [Acquire], the lock is free, and [command_follower]
    has not passed its wait, whatever has been put on [command_queue]. *)
Theorem no_move_before_start (evs : list event) (s : State) :
  run evs init = Some s -> unpause s = false ->
  Forall (fun o => o <> Acquire) (trace s)
  /\ movement_lock s = false
  /\ forall c, follower_at s <> AtAcquire c.
Proof.
  intros Hrun.
  apply (run_inv gate_inv gate_inv_step evs init s Hrun).
  intros _. split; [constructor|]. split; [reflexivity | discriminate].
Qed.


Lemma no_move_before_start_witness :
  run waiting_run init = Some waiting_state
  /\ unpause waiting_state = false
  /\ follower_at waiting_state = AtWait "FW010"
  /\ step EvFollower waiting_state = None
  /\ movement_lock waiting_state = false.
Proof.
  assert (Hrun : run waiting_run init = Some waiting_state)
    by (vm_compute; reflexivity).
  split; [exact Hrun|]. split; [reflexivity|]. split; [reflexivity|].
  split; [vm_compute; reflexivity|].
  apply (no_move_before_start waiting_run waiting_state Hrun eq_refl).
Defined.


(** ** Starting and stopping *)

Lemma runs_none w s : procs s = [] -> runs w s = false.
Proof.
  intros Hnil. unfold runs, status_of. destruct (handle w s); [|reflexivity].
  rewrite Hnil. reflexivity.
Qed.

Lemma pass_none w m s : procs s = [] -> pass w m s = None.
Proof. intros Hnil. unfold pass. rewrite (runs_none w s Hnil). reflexivity. Qed.

Lemma stop_no_procs s : procs s = [] -> procs (stop s).2 = [].
Proof.
  revert s.
  change (keeps (fun s s' => procs s = [] -> procs s' = []) stop).
  assert (Hr : Reflexive (fun s s' : State => procs s = [] -> procs s' = []))
    by (intros s; exact id).
  assert (Ht : Transitive (fun s s' : State => procs s = [] -> procs s' = []))
    by (intros a b c H1 H2 Ha; apply H2, H1, Ha).
  unfold stop.
  keeps_walk ltac:(idtac;
    lazymatch goal with
    | |- keeps _ (modify _) =>
        let H := fresh in
        apply keeps_modify; intros ? H;
        first [exact H | simpl; rewrite H; reflexivity]
    | |- keeps _ (emit _) => let H := fresh in intros ? H; exact H
    end).
Qed.

Lemma no_procs_step e s s' :
  as_it_stands e = true -> step e s = Some s' -> procs s = [] ->
  procs s' = [].
Proof.
  intros Hok Hs Hnil. destruct e; simpl in Hs, Hok;
    try (rewrite (pass_none _ _ s Hnil) in Hs; discriminate).
  - destruct (started s); [discriminate|].
    unfold main_pass in Hs. destruct (main_running s); [|discriminate].
    unfold start, self_check_api in Hs.
    destruct (check_api env); [|discriminate]. unfold_calls.
    destruct s. simpl in *. inversion Hs. exact Hnil.
  - unfold main_pass in Hs. destruct (main_running s); [|discriminate].
    pose proof (stop_no_procs s Hnil) as Hk.
    unfold mbind, M_bind in Hs. unfold_calls.
    destruct (stop s) as [[a|x|] s1]; simpl in *; inversion Hs; subst;
      exact Hk.
  - unfold started in Hs. rewrite Hnil in Hs. discriminate.
  - destruct (stop_thread s); [|rewrite (pass_none _ _ s Hnil) in Hs;
                                 discriminate].
    rewrite (runs_none _ s Hnil) in Hs. discriminate.
  - destruct (thread_running s); [|discriminate].
    destruct (stop_thread s); [inversion Hs; destruct s; exact Hnil|].
    pose proof (receive_thread_procs p s) as (Hp & _).
    unfold same in Hp.
    destruct (receive_thread p s) as [[a|x|] s1]; simpl in *;
      inversion Hs; subst; [congruence | destruct s1; simpl in *; congruence].
  - inversion Hs. destruct c, s. exact Hnil.
  - inversion Hs. destruct s. exact Hnil.
  - inversion Hs. destruct s. exact Hnil.
Qed.

(** X11: with the file as it stands, where [check_api] is bound nowhere,
    [start] connects the app link, queues its greeting and stops at the
    call of [check_api]: the main program ends there, no process is ever
    created in any run, and so no worker ever makes a move; the greeting
    stays on [android_queue]. *)
Theorem start_as_it_stands (loads : string -> exn + json)
    (evs : list event) (s : State) :
  step (EvStart (source_env loads)) init
  = Some (set_main_running false
            (set_trace [LinkConnect; AndroidPut connected]
               (set_android_queue [connected] init)))
  /\ (forallb as_it_stands evs = true -> run evs init = Some s ->
      procs s = []
      /\ (forall w, runs w s = false)
      /\ (forall env r, step (EvRecvAndroid env r) s = None)
      /\ (forall r, step (EvAndroidSender r) s = None)
      /\ (forall r, step (EvRecvStm r) s = None)
      /\ step EvFollower s = None
      /\ step EvRpiAction s = None
      /\ step EvSupervisor s = None).
Proof.
  split; [reflexivity|]. intros Hok Hrun.
  assert (Hnil : procs s = []).
  { apply (run_inv_ok (fun s => procs s = []) as_it_stands no_procs_step
             evs init s Hok Hrun). reflexivity. }
  split; [exact Hnil|]. split; [intros w; apply runs_none, Hnil|].
  repeat split; intros; simpl; rewrite ?(pass_none _ _ s Hnil);
    try reflexivity.
  - rewrite (runs_none _ s Hnil). destruct (stop_thread s); reflexivity.
  - unfold started. rewrite Hnil. reflexivity.
Qed.

Lemma start_as_it_stands_witness :
  let evs := [EvStart (source_env loads_three); EvCommand "FW010";
              EvReceiveThread (Waiting "0")] in
  exists s,
    forallb as_it_stands evs = true /\ run evs init = Some s
    /\ procs s = [] /\ android_queue s = [connected]
    /\ step EvFollower s = None.
Proof.
  intros evs. exists (default init (run evs init)).
  assert (Hrun : run evs init = Some (default init (run evs init)))
    by (vm_compute; reflexivity).
  split; [reflexivity|]. split; [exact Hrun|].
  destruct (start_as_it_stands loads_three evs (default init (run evs init)))
    as [_ H].
  destruct (H eq_refl Hrun) as (Hnil & _ & _ & _ & _ & Hf & _).
  split; [exact Hnil|]. split; [vm_compute; reflexivity | exact Hf].
Defined.

Lemma start_eq env api s :
  check_api env = Bound api -> procs s = [] ->
  start env s = (Ok tt, after_start s).
Proof.
  intros Hapi Hnil. unfold start, self_check_api. rewrite Hapi.
  destruct s as [? ? ? ? aq ? ? ? ? ? ? ? l ? ? ? ? ? ? ? ? tr].
  simpl in Hnil. subst l.
  do 20 run_call ltac:(reflexivity).
  unfold android_queue_put. unfold_calls.
  unfold after_start, start_ops. simpl.
  rewrite <- !app_assoc. reflexivity.
Qed.

(** X12: when [check_api] is provided, [start] goes through whatever it
    answers: from a state without processes it creates the five workers
    in the order [recv_stm], [recv_android], [android_sender],
    [command_follower], [rpi_action], leaves all five running, and queues
    the three messages for the app; the answer of [check_api] is not
    looked at. *)
Theorem start_runs_five (env : Env) (api : bool) (s : State) :
  check_api env = Bound api -> procs s = [] ->
  start env s = (Ok tt, after_start s)
  /\ (forall w, runs w (after_start s) = true)
  /\ (main_running s = true -> step (EvStart env) s = Some (after_start s)).
Proof.
  intros Hapi Hnil.
  pose proof (start_eq env api s Hapi Hnil) as Heq.
  split; [exact Heq|]. split.
  - intros w. destruct s as [? ? ? ? ? ? ? ? ? ? ? ? l ? ? ? ? ? ? ? ? ?].
    destruct w; reflexivity.
  - intros Hmain. simpl. unfold started, main_pass.
    rewrite Hnil, Hmain, Heq. reflexivity.
Qed.

Lemma start_runs_five_witness :
  check_api env_down = Bound false /\ procs init = []
  /\ step (EvStart env_down) init = Some (after_start init)
  /\ forall w, runs w (after_start init) = true.
Proof.
  destruct (start_runs_five env_down false init eq_refl eq_refl)
    as (_ & Hruns & Hstep).
  split; [reflexivity|]. split; [reflexivity|].
  split; [apply Hstep; reflexivity | exact Hruns].
Defined.







Global Instance winds_down_refl : Reflexive winds_down.
Proof. intros s. split; [reflexivity | intros pid H; exact H]. Qed.

Global Instance winds_down_trans : Transitive winds_down.
Proof.
  intros a b c [A1 A2] [B1 B2]. split.
  - intros w. rewrite B1. apply A1.
  - intros pid H. apply A2, B2, H.
Qed.










(** ** The link alone *)

Lemma receive_thread_pass p s :
  decodable p = true ->
  let n := if is_zero_poll p then 1 else 0 in
  (receive_thread p s).1 = Ok tt
  /\ written (trace (receive_thread p s).2)
     = written (trace s) ++ map frame_of (take n (state_queue s))
  /\ state_queue (receive_thread p s).2 = drop n (state_queue s)
  /\ thread_running (receive_thread p s).2 = thread_running s
  /\ stop_thread (receive_thread p s).2 = stop_thread s.
Proof.
  intros Hd. destruct p as [|line|]; try discriminate; simpl.
  { rewrite app_nil_r. repeat split. }
  unfold receive_thread. unfold_calls.
  destruct s as [? ? ? ? ? ? ? ? sq ? ? ? ? ? ? ? ? ? ? ? ? tr]. simpl.
  destruct (String.eqb (strip line) "0").
  - destruct sq as [|c q]; simpl; rewrite !written_app; simpl;
      rewrite ?app_nil_r; repeat split; destruct c; reflexivity.
  - destruct (String.eqb (strip line) "1"); simpl; rewrite !written_app;
      simpl; rewrite ?app_nil_r; repeat split; reflexivity.
Qed.

Lemma zero_polls_cons p ps :
  zero_polls (p :: ps) = (if is_zero_poll p then 1 else 0) + zero_polls ps.
Proof.
  unfold zero_polls. rewrite filter_cons.
  destruct (is_zero_poll p);
    destruct (decide _) as [H|H]; try congruence; reflexivity.
Qed.

(** X14: the link by itself sends the queued states one per ["0"] line,
    oldest first, for as long as there are any.  From any state in which
    the receive thread runs, after passes that read [k] lines ["0"] among
    other lines and empty polls, the frames of the first [k] tuples of
    [state_queue] have been written, in order, those tuples are off the
    queue, and the thread still runs. *)
Theorem zero_lines_drain (ps : list poll) : forall s : State,
  thread_running s = true -> stop_thread s = false ->
  forallb decodable ps = true ->
  exists s',
    run (map EvReceiveThread ps) s = Some s'
    /\ written (trace s')
       = written (trace s)
           ++ map frame_of (take (zero_polls ps) (state_queue s))
    /\ state_queue s' = drop (zero_polls ps) (state_queue s)
    /\ thread_running s' = true /\ stop_thread s' = false.
Proof.
  induction ps as [|p ps IH]; intros s Ht Hst Hd.
  - exists s. change (zero_polls []) with 0. simpl. rewrite app_nil_r.
    unfold drop. repeat split; first [assumption | reflexivity].
  - simpl in Hd. apply andb_true_iff in Hd as [Hp Hps].
    destruct (receive_thread_pass p s Hp) as (Hok & Hw & Hq & Ht1 & Hst1).
    simpl. rewrite Ht, Hst.
    destruct (receive_thread p s) as [res s1]. simpl in *. subst res.
    rewrite Ht in Ht1. rewrite Hst in Hst1.
    destruct (IH s1 Ht1 Hst1 Hps) as (s' & Hrun & Hw' & Hq' & Ht' & Hst').
    exists s'. split; [exact Hrun|].
    rewrite zero_polls_cons, Hw', Hq', Hw, Hq.
    destruct (is_zero_poll p); simpl.
    + destruct (state_queue s) as [|c q]; simpl.
      * rewrite take_nil, drop_nil, app_nil_r.
        repeat split; first [assumption | reflexivity].
      * rewrite drop_0, <- app_assoc.
        repeat split; first [assumption | reflexivity].
    + rewrite app_nil_r, !drop_0.
      repeat split; first [assumption | reflexivity].
Qed.

Lemma zero_lines_drain_witness :
  let s := set_state_queue test_states init in
  let ps := [Waiting "0"; NothingWaiting; Waiting "1"; Waiting "0";
             Waiting "hello"; Waiting "0"] in
  exists s',
    run (map EvReceiveThread ps) s = Some s'
    /\ written (trace s') = map frame_of (take 3 test_states)
    /\ state_queue s' = drop 3 test_states.
Proof.
  intros s ps.
  destruct (zero_lines_drain ps s eq_refl eq_refl eq_refl)
    as (s' & Hrun & Hw & Hq & _).
  exists s'. split; [exact Hrun|]. split; [exact Hw | exact Hq].
Defined.

(** ** Padding and stripping *)

Lemma append_assoc (a b c : string) : (a +:+ b) +:+ c = a +:+ (b +:+ c).
Proof.
  induction a as [|x a IH]; [reflexivity|].
  rewrite !append_cons, IH. reflexivity.
Qed.

Lemma rev_app_append s : forall acc,
  String.rev_app s acc = String.rev s +:+ acc.
Proof.
  unfold String.rev. induction s as [|x s IH]; intros acc; [reflexivity|].
  simpl. rewrite IH, (IH (String x "")), append_assoc. reflexivity.
Qed.

Lemma rev_app_app (a b : string) : forall acc,
  String.rev_app (a +:+ b) acc = String.rev_app b (String.rev_app a acc).
Proof.
  induction a as [|x a IH]; intros acc; [reflexivity|].
  rewrite append_cons. simpl. apply IH.
Qed.

Lemma rev_append (a b : string) :
  String.rev (a +:+ b) = String.rev b +:+ String.rev a.
Proof.
  unfold String.rev at 1. rewrite rev_app_app, rev_app_append. reflexivity.
Qed.

Lemma spaces_S n : spaces (S n) = String " " (spaces n).
Proof. reflexivity. Qed.

Lemma spaces_snoc n acc :
  spaces n +:+ String " " acc = String " " (spaces n +:+ acc).
Proof.
  induction n as [|n IH]; [reflexivity|].
  rewrite spaces_S, !append_cons, IH. reflexivity.
Qed.

Lemma rev_app_spaces n : forall acc,
  String.rev_app (spaces n) acc = spaces n +:+ acc.
Proof.
  induction n as [|n IH]; intros acc; [reflexivity|].
  rewrite spaces_S. simpl. rewrite IH, spaces_snoc. reflexivity.
Qed.

Lemma rev_spaces n : String.rev (spaces n) = spaces n.
Proof. unfold String.rev. rewrite rev_app_spaces. apply append_empty. Qed.

Lemma lstrip_spaces n v : lstrip (spaces n +:+ v) = lstrip v.
Proof.
  induction n as [|n IH]; [reflexivity|].
  rewrite spaces_S, append_cons. simpl. exact IH.
Qed.

Lemma rstrip_spaces u n : rstrip (u +:+ spaces n) = rstrip u.
Proof.
  unfold rstrip. rewrite rev_append, rev_spaces, lstrip_spaces. reflexivity.
Qed.

Lemma lstrip_append t n :
  lstrip (t +:+ spaces n)
  = match lstrip t with
    | EmptyString => EmptyString
    | u => u +:+ spaces n
    end.
Proof.
  induction t as [|x t IH].
  - simpl. rewrite <- (append_empty (spaces n)). apply lstrip_spaces.
  - rewrite append_cons. simpl. destruct (is_space x); [exact IH|].
    reflexivity.
Qed.

Lemma strip_ljust w t : strip (ljust w t) = strip t.
Proof.
  unfold strip, ljust. rewrite lstrip_append.
  destruct (lstrip t) as [|x u] eqn:Hl; [reflexivity|].
  apply rstrip_spaces.
Qed.

(** X15: the padding of a frame never shows: what [send_message] prints
    after ["Sent : "] is the text of the command stripped, whatever its
    length, and stripping a padded text gives what stripping the text
    itself gives, so that a reader of the frame who strips it gets the
    command back. *)
Theorem send_message_shows_text (state motor_speed param scale : pyval)
    (s : State) :
  let c := mkStateCommand state motor_speed param scale in
  send_message state motor_speed param scale s
  = (Ok tt,
     set_trace
       (trace s ++ [SerWrite (frame_of c);
                    Print ("Sent : " +:+ strip (text_of c))]) s)
  /\ frame_of c = encode (ljust 30 (text_of c))
  /\ forall w, strip (ljust w (text_of c)) = strip (text_of c).
Proof.
  intros c. split; [|split; [reflexivity | intros w; apply strip_ljust]].
  pose proof (send_message_eq state motor_speed param scale s) as H.
  simpl in H. rewrite H. fold c. rewrite strip_ljust. reflexivity.
Qed.

(** ** The obstacles *)

Lemma store_obstacles_all l : forall s,
  forallb storable l = true ->
  store_obstacles l s
  = (Ok tt, set_obstacles (store_all l (obstacles s)) s).
Proof.
  induction l as [|obs l IH]; intros s Hl.
  - destruct s. reflexivity.
  - simpl in Hl. apply andb_true_iff in Hl as [Ho Hl].
    rewrite store_obstacles_cons. unfold storable in Ho.
    unfold store_all. simpl. unfold store_one at 2.
    destruct (getitem obs "id") as [e|id]; [discriminate|].
    unfold_calls. simpl. rewrite Ho. simpl. rewrite IH by exact Hl.
    destruct s. reflexivity.
Qed.

Lemma store_obstacles_bad bad l s :
  storable bad = false ->
  store_obstacles (bad :: l) s = (Raise (store_error bad), s).
Proof.
  intros Hb. rewrite store_obstacles_cons.
  unfold storable in Hb. unfold store_error.
  destruct (getitem bad "id") as [e|id]; unfold_calls; simpl;
    [reflexivity|]. rewrite Hb. reflexivity.
Qed.

Lemma store_obstacles_app l1 : forall l2 s,
  forallb storable l1 = true ->
  store_obstacles (l1 ++ l2) s
  = store_obstacles l2 (set_obstacles (store_all l1 (obstacles s)) s).
Proof.
  induction l1 as [|obs l1 IH]; intros l2 s Hl.
  - destruct s. reflexivity.
  - simpl in Hl. apply andb_true_iff in Hl as [Ho Hl].
    rewrite <- app_comm_cons, store_obstacles_cons. unfold storable in Ho.
    unfold store_all. simpl. unfold store_one at 2.
    destruct (getitem obs "id") as [e|id]; [discriminate|].
    unfold_calls. simpl. rewrite Ho. simpl. rewrite IH by exact Hl.
    destruct s. reflexivity.
Qed.

Lemma key_eqb_refl k : hashable k = true -> key_eqb k k = true.
Proof.
  destruct k; simpl; try discriminate; intros _;
    first [reflexivity | apply String.eqb_refl | apply Z.eqb_refl
          | apply Bool.eqb_reflx].
Qed.

Lemma dict_get_set k v d :
  hashable k = true -> dict_get k (dict_set k v d) = Some v.
Proof.
  intros Hk. induction d as [|[k' v'] d IH]; simpl.
  - rewrite key_eqb_refl by exact Hk. reflexivity.
  - destruct (key_eqb k k') eqn:He; simpl; rewrite He; [reflexivity|].
    exact IH.
Qed.

(** X16: the loop of [rpi_action] stores the obstacles one at a time, so
    the update is not all or nothing.  When every obstacle has an [id]
    that can be a key, all are stored, and a lookup of the [id] of the
    last one gives that obstacle: a later obstacle replaces an earlier
    one of the same [id].  When one obstacle has no [id], or an [id]
    that is a list or an object, the loop raises there, and the
    obstacles before it stay stored. *)
Theorem store_obstacles_one_by_one (l1 l2 : list json) (s : State) :
  forallb storable l1 = true ->
  store_obstacles l1 s
  = (Ok tt, set_obstacles (store_all l1 (obstacles s)) s)
  /\ (forall bad, storable bad = false ->
        store_obstacles (l1 ++ bad :: l2) s
        = (Raise (store_error bad),
           set_obstacles (store_all l1 (obstacles s)) s))
  /\ (forall obs id, getitem obs "id" = inr id -> hashable id = true ->
        dict_get id (store_all (l1 ++ [obs]) (obstacles s)) = Some obs).
Proof.
  intros Hl. split; [apply store_obstacles_all, Hl|]. split.
  - intros bad Hb. rewrite store_obstacles_app by exact Hl.
    apply store_obstacles_bad, Hb.
  - intros obs id Hid Hh. unfold store_all. rewrite foldl_app. simpl.
    unfold store_one at 1. rewrite Hid. apply dict_get_set, Hh.
Qed.

Lemma store_obstacles_one_by_one_witness :
  let l1 := [obstacle 1 10; obstacle 2 20; obstacle 1 30] in
  let bad := JDict [("x"%string, JNum 40)] in
  forallb storable l1 = true
  /\ obstacles (store_obstacles l1 init).2
     = [(JNum 1, obstacle 1 30); (JNum 2, obstacle 2 20)]
  /\ store_obstacles (l1 ++ [bad; obstacle 3 50]) init
     = (Raise KeyError,
        set_obstacles [(JNum 1, obstacle 1 30); (JNum 2, obstacle 2 20)]
          init).
Proof.
  intros l1 bad.
  destruct (store_obstacles_one_by_one l1 [obstacle 3 50] init eq_refl)
    as (Hall & Hbad & _).
  split; [reflexivity|]. split.
  - rewrite Hall. reflexivity.
  - apply (Hbad bad). reflexivity.
Defined.

Lemma rpi_action_table : keeps (outside not_table) rpi_action.
Proof.
  unfold rpi_action. keeps_walk outside_leaf.
  apply store_obstacles_outside. reflexivity.
Qed.

(** X17: [rpi_action], as the class stands, does not outlive its first
    known action.  An [obstacles] action whose obstacles can all be
    stored is taken off the queue and stored, and then the call of
    [request_algo], which the class does not define, ends the worker; a
    [snap] or [stitch] action ends it at once.  An action of any other
    category is taken and dropped, and with an empty queue the worker
    waits. *)
Theorem rpi_action_ends (s : State) :
  (rpi_action_queue s = [] -> rpi_action s = (Blocked, s))
  /\ forall action q, rpi_action_queue s = action :: q ->
       let taken :=
         set_trace
           (trace s ++ [ActionGet action;
                        Log Debug "PiAction retrieved from queue: "])
           (set_rpi_action_queue q s) in
       (forall v l,
          pa_cat action = "obstacles"%string ->
          getitem (pa_value action) "obstacles" = inr v ->
          iterate v = inr l -> forallb storable l = true ->
          rpi_action s
          = (Raise AttributeError,
             set_obstacles (store_all l (obstacles s)) taken))
       /\ (pa_cat action = "snap"%string \/ pa_cat action = "stitch"%string ->
           rpi_action s = (Raise AttributeError, taken))
       /\ (pa_cat action <> "obstacles"%string ->
           pa_cat action <> "snap"%string ->
           pa_cat action <> "stitch"%string ->
           rpi_action s = (Ok tt, taken))
       /\ (forall e s1, rpi_action s = (Raise e, s1) ->
           runs RpiAction s = true ->
           exists s', step EvRpiAction s = Some s'
             /\ runs RpiAction s' = false).
Proof.
  split.
  - intros Hq. unfold rpi_action. unfold_calls. rewrite Hq. reflexivity.
  - intros action q Hq taken. split; [|split; [|split]].
    + intros v l Hcat Hv Hit Hl. unfold rpi_action. unfold_calls.
      rewrite Hq. simpl. rewrite Hcat. simpl. rewrite Hv. simpl.
      rewrite Hit. simpl. rewrite store_obstacles_all by exact Hl.
      unfold taken. destruct s. simpl. rewrite <- !app_assoc. reflexivity.
    + intros [Hcat|Hcat]; unfold rpi_action; unfold_calls; rewrite Hq;
        simpl; rewrite Hcat; simpl; unfold taken; destruct s; simpl;
        rewrite <- !app_assoc; reflexivity.
    + intros H1 H2 H3. apply String.eqb_neq in H1, H2, H3.
      unfold rpi_action. unfold_calls. rewrite Hq. simpl.
      rewrite H1, H2, H3. unfold taken. destruct s. simpl.
      rewrite <- !app_assoc. reflexivity.
    + intros e s1 Heq Hrun. eexists. simpl. unfold pass.
      rewrite Hrun, Heq. split; [reflexivity|].
      apply exit_worker_stops.
      pose proof (runs_table RpiAction s s1) as Ht.
      rewrite Ht; [exact Hrun|].
      pose proof (rpi_action_table s) as Hk. rewrite Heq in Hk. exact Hk.
Qed.

Lemma rpi_action_ends_witness :
  let action := obstacles_action [obstacle 1 10; obstacle 2 20] in
  let s := set_rpi_action_queue [action] started_state in
  runs RpiAction s = true
  /\ obstacles (rpi_action s).2
     = [(JNum 1, obstacle 1 10); (JNum 2, obstacle 2 20)]
  /\ exists s', step EvRpiAction s = Some s' /\ runs RpiAction s' = false.
Proof.
  intros action s.
  destruct (rpi_action_ends s) as [_ H].
  destruct (H action [] eq_refl) as (Hobs & _ & _ & Hend).
  pose proof (Hobs _ _ eq_refl eq_refl eq_refl eq_refl) as Heq.
  split; [reflexivity|]. split; [rewrite Heq; reflexivity|].
  exact (Hend _ _ Heq eq_refl).
Defined.

(** ** The process table in every run *)

Global Instance table_kept_refl : Reflexive table_kept.
Proof. intros s. exact id. Qed.

Global Instance table_kept_trans : Transitive table_kept.
Proof. intros a b c H1 H2 Ha. apply H2, H1, Ha. Qed.
















(** ** A directive from the queue to the controller and back *)













(** ** send_request.py *)

Example format_numbered :
  SendRequest.str_format "http://{0}:{1}/path"
    [PStr SendRequest.API_IP; PInt SendRequest.API_PORT] []
  = inr "http://127.0.0.1:5000/path"%string.
Proof. vm_compute. reflexivity. Qed.

Example format_automatic :
  SendRequest.str_format "{}-{}{{x}}" [PStr "a"; PInt 2] []
  = inr "a-2{x}"%string.
Proof. vm_compute. reflexivity. Qed.

Example format_keyword :
  SendRequest.str_format "http://{API_IP}/path" []
    [("API_IP"%string, PStr SendRequest.API_IP)]
  = inr "http://127.0.0.1/path"%string.
Proof. vm_compute. reflexivity. Qed.

Lemma format_plain args kwargs t : forall st,
  SendRequest.plain t = true ->
  SendRequest.format_from args kwargs t None st = inr t.
Proof.
  unfold SendRequest.plain.
  induction t as [|a t IH]; intros st Hp; [reflexivity|].
  simpl in Hp. apply andb_true_iff in Hp as [Ha Hp].
  apply negb_true_iff, orb_false_iff in Ha as [Ha1 Ha2].
  simpl. rewrite Ha1, Ha2, (IH st Hp). reflexivity.
Qed.

(** X20: the script never sends its request.  Its URL template names its
    fields [API_IP] and [API_PORT] but [format] is given the two values
    by position, so once the JSON file is loaded the script ends at that
    line with [KeyError] for [API_IP], whatever the file holds and
    whatever the service would answer: nothing is posted and nothing is
    printed.  The two messages meant to show the status code and the
    exception have no field at all, so [format] would give them back
    unchanged. *)
Theorem send_request_never_posts (w : SendRequest.World) :
  (forall url data, SendRequest.Posted url data ∉ (SendRequest.script w).1)
  /\ (SendRequest.script w).1 = []
  /\ (forall data, SendRequest.load w = inr data ->
        SendRequest.script w
        = ([], Some (SendRequest.FormatFailed
                       (SendRequest.FormatKeyError "API_IP"))))
  /\ (forall e, SendRequest.load w = inl e ->
        SendRequest.script w = ([], Some (SendRequest.Uncaught e)))
  /\ (forall status_code shown,
        SendRequest.str_format
          "Failed to get response from API, Status Code:"
          [PInt status_code] []
        = inr "Failed to get response from API, Status Code:"%string
        /\ SendRequest.str_format "Error while sending request:"
             [PStr shown] []
           = inr "Error while sending request:"%string).
Proof.
  assert (Hdata : forall data, SendRequest.load w = inr data ->
            SendRequest.script w
            = ([], Some (SendRequest.FormatFailed
                           (SendRequest.FormatKeyError "API_IP")))).
  { intros data Hl. unfold SendRequest.script. rewrite Hl. reflexivity. }
  assert (Herr : forall e, SendRequest.load w = inl e ->
            SendRequest.script w = ([], Some (SendRequest.Uncaught e))).
  { intros e Hl. unfold SendRequest.script. rewrite Hl. reflexivity. }
  assert (Hnil : (SendRequest.script w).1 = []).
  { destruct (SendRequest.load w) as [e|data] eqn:Hl.
    - rewrite (Herr e eq_refl). reflexivity.
    - rewrite (Hdata data eq_refl). reflexivity. }
  split; [intros url data; rewrite Hnil; apply not_elem_of_nil|].
  split; [exact Hnil|]. split; [exact Hdata|]. split; [exact Herr|].
  intros status_code shown.
  split; apply format_plain; reflexivity.
Qed.

Lemma send_request_never_posts_witness :
  SendRequest.script (SendRequest.service_up (JDict []))
  = ([], Some (SendRequest.FormatFailed
                 (SendRequest.FormatKeyError "API_IP"))).
Proof.
  destruct (send_request_never_posts (SendRequest.service_up (JDict [])))
    as (_ & _ & H & _).
  exact (H (JDict []) eq_refl).
Defined.
